(** * StyleGAN2 training core (model_zoo/model_stylegan2.py)

    A shallow embedding of the [StyleGAN2] class: its constructor, the four
    backward passes, the per-batch [optimize] protocol, the epoch loop
    [train] and the checkpoint functions [save] / [load].

    Modelling conventions.
    - Python [int] values are [Z]; Python and tensor floats are exact
      rationals [Q] (rounding and overflow are idealised away).  The two
      transcendental float operations the class uses ([softplus], [sqrt])
      and [0.99 ** r] have no rational value: the first two are supplied by
      the backend, the last is kept as a symbolic power.
    - The networks of [model_networks] and the Adam update rule of
      [torch.optim] are external collaborators: they are the fields of the
      class [Backend].
    - Parameters are objects of a heap ([gmap nat Param]); a network and an
      optimizer both hold handles to them, so an optimizer step is an
      in-place update of the shared heap.
    - Autograd is modelled by what the class relies on: every tensor carries
      the set of parameter handles its graph reaches ([leaves]), and
      [backward] appends one contribution to the [.grad] buffer of each of
      them.
    - The object, the random generators and the files of the log directory
      are one [State], threaded through a state-and-exception monad [M]. *)

From Stdlib Require Import ZArith QArith Lqa.
From stdpp Require Import gmap strings list fin_maps.

(** ** Python arithmetic *)

Inductive exn : Type :=
| ZeroDivisionError
| IndexError
| RuntimeError
| FileNotFoundError.

Inductive result (A : Type) : Type :=
| Ok (a : A)
| Raise (e : exn).
Arguments Ok {A} a.
Arguments Raise {A} e.

(** [a // b] on ints: floor division. *)
Definition py_floordiv (a b : Z) : result Z :=
  if (b =? 0)%Z then Raise ZeroDivisionError else Ok (a / b)%Z.

(** [a % b] on ints: the remainder has the sign of [b]. *)
Definition py_mod (a b : Z) : result Z :=
  if (b =? 0)%Z then Raise ZeroDivisionError else Ok (a mod b)%Z.

(** [a / b] on ints: true division. *)
Definition py_truediv (a b : Z) : result Q :=
  if (b =? 0)%Z then Raise ZeroDivisionError
  else Ok (inject_Z a / inject_Z b)%Q.

Definition Qltb (x y : Q) : bool :=
  (Qnum x * Zpos (Qden y) <? Qnum y * Zpos (Qden x))%Z.

Definition Qeqb (x y : Q) : bool :=
  (Qnum x * Zpos (Qden y) =? Qnum y * Zpos (Qden x))%Z.

(** A Python float: a rational, or a power [base ** exponent] that has no
    rational value and is kept as written. *)
Inductive pyfloat : Type :=
| Exact (q : Q)
| Pow (base exponent : Q).

(** [base ** r] for a float exponent [r] and a base that is not negative
    (the class only raises [0] and [0.99]). *)
Definition py_pow (base r : Q) : result pyfloat :=
  if Qeqb base 0 then
    if Qltb r 0 then Raise ZeroDivisionError
    else if Qeqb r 0 then Ok (Exact 1) else Ok (Exact 0)
  else if Qeqb r 0 then Ok (Exact 1) else Ok (Pow base r).

(** Values of a NumPy float array after a division: NumPy does not raise
    on a zero divisor, it yields [nan] or an infinity. *)
Inductive npfloat : Type :=
| np_fin (q : Q)
| np_nan
| np_pinf
| np_ninf.

(** [x / n] for an array element [x] and [n = len(...)]. *)
Definition np_true_divide (x : Q) (n : nat) : npfloat :=
  match n with
  | O => if Qeqb x 0 then np_nan
         else if Qltb 0 x then np_pinf else np_ninf
  | S _ => np_fin (x / inject_Z (Z.of_nat n))
  end.

(** [os.path.join(a, b)] for two components (posixpath). *)
Definition os_path_join (a b : string) : string :=
  if String.prefix "/" b then b
  else if String.eqb a "" then b
  else if String.eqb (String.substring (String.length a - 1) 1 a) "/"
       then a +:+ b
       else a +:+ "/" +:+ b.

(** ** Sums and means of float lists *)

Definition Qsum (l : list Q) : Q := foldr Qplus 0%Q l.

(** [t.mean()] of a one-dimensional tensor.  ([Q] division by zero is [0];
    torch gives [nan] for an empty tensor, which no pass of this class
    produces from a batch of at least one sample.) *)
Definition Qmean (l : list Q) : Q :=
  (Qsum l / inject_Z (Z.of_nat (length l)))%Q.

Definition Qsq (x : Q) : Q := (x * x)%Q.

(** ** Tensors, parameters and the ghost trace *)

(** A tensor value together with the parameter handles its autograd graph
    reaches; [leaves = ∅] for constants and detached tensors. *)
Record tensor (A : Type) : Type := Tensor {
  item : A;
  leaves : gset nat;
}.
Arguments Tensor {A} item leaves.
Arguments item {A} t.
Arguments leaves {A} t.

Definition constant {A} (a : A) : tensor A := Tensor a ∅.
Definition detach {A} (t : tensor A) : tensor A := Tensor (item t) ∅.

Definition tmap {A B} (f : A → B) (t : tensor A) : tensor B :=
  Tensor (f (item t)) (leaves t).
Definition tzip {A B C} (f : A → B → C) (s : tensor A) (t : tensor B) : tensor C :=
  Tensor (f (item s) (item t)) (leaves s ∪ leaves t).

Definition tmean (t : tensor (list Q)) : tensor Q := tmap Qmean t.
Definition tadd : tensor Q → tensor Q → tensor Q := tzip Qplus.
Definition tsub : tensor Q → tensor Q → tensor Q := tzip Qminus.
(** [c * t] for a Python number [c]. *)
Definition tscale (c : Q) (t : tensor Q) : tensor Q := tmap (Qmult c) t.
(** [t * c] for a Python number [c]. *)
Definition tscale_r (t : tensor Q) (c : Q) : tensor Q := tmap (λ x, x * c)%Q t.

(** The four backward passes of one batch. *)
Inductive pass : Type := D_adv | D_r1 | G_adv | G_path.

(** What one [backward()] call adds to a [.grad] buffer: the gradient of
    the root scalar of that pass (named by the pass and the root's value). *)
Record Contribution : Type := {
  of_pass : pass;
  root : Q;
}.

Inductive net : Type := NetG | NetD.

(** A latent batch drawn by [torch.randn]: its shape, the number of the
    draw, and the index after [unbind(0)] when it is one half of a
    style-mixing pair. *)
Record Latent : Type := {
  rows : Z;
  cols : Z;
  draw : nat;
  unbound : option nat;
}.

(** Ghost trace of the training protocol (not a field of the class). *)
Inductive event : Type :=
| EvZeroGrad (o : net)
| EvGenerate (noise : list Latent) (return_dlatents : bool)
| EvBackward (p : pass) (root : Q)
| EvStep (o : net).

#[global] Instance pass_eq_dec : EqDecision pass.
Proof. solve_decision. Defined.
#[global] Instance net_eq_dec : EqDecision net.
Proof. solve_decision. Defined.

(** The hyperparameters [torch.optim.Adam] is constructed with. *)
Record AdamHyper : Type := {
  adam_lr : Q;
  adam_betas : pyfloat * pyfloat;
}.

(** The random generators: how many values Python's [random] and torch's
    generator have produced. *)
Record Rng : Type := {
  py_draws : nat;
  torch_draws : nat;
}.

(** The constructor's arguments (devices are placement only and left out). *)
Record Config : Type := {
  log_dir : string;
  batch_size : Z;
  n_sample : Z;
  img_size : Z;
  lr : Q;
  r1 : Q;
  path_regularize : Q;
  path_batch_shrink : Z;
  g_reg_every : Z;
  d_reg_every : Z;
  mixing : Q;
}.

(** The defaults of [__init__]. *)
Definition default_config : Config := {|
  log_dir := "logs";
  batch_size := 16;
  n_sample := 16;
  img_size := 1024;
  lr := 0.001;
  r1 := 10;
  path_regularize := 2;
  path_batch_shrink := 2;
  g_reg_every := 4;
  d_reg_every := 16;
  mixing := 0.9;
|}.

(** ** External collaborators *)

Class Backend : Type := {
  (** value of one parameter tensor *)
  pval : Type;
  (** an image batch *)
  images : Type;
  (** Adam's per-parameter state (step count and moment estimates) *)
  moments : Type;
  (** initial parameters of [Generator(resolution, latent_size)] *)
  Generator : Z → Z → list pval;
  (** initial parameters of [Discriminator(resolution)] *)
  Discriminator : Z → list pval;
  (** [G(noise)]: the generated images *)
  G_images : list pval → list Latent → images;
  (** [G(noise, return_dlatents=True)]: the returned [grad], indexed
      sample, style layer, style dimension *)
  G_grad : list pval → list Latent → list (list (list Q));
  (** [D(imgs)]: one score per sample *)
  D_scores : list pval → images → list Q;
  (** gradient of [D(imgs).sum()] with respect to [imgs], one flattened
      row per sample *)
  D_input_grad : list pval → images → list (list Q);
  (** [imgs[0, 0, 0, 0]] *)
  first_pixel : images → Q;
  softplus : Q → Q;
  sqrt : Q → Q;
  (** one Adam update of one parameter from its accumulated gradient *)
  adam_update : AdamHyper → option moments → pval → list Contribution → moments * pval;
  (** the [k]-th value of [random.random()] *)
  random_value : nat → Q;
}.

Section StyleGAN2.
Context {B : Backend}.

(** ** The parameter heap and the optimizers *)

(** A parameter tensor: its value, its [.grad] buffer as the list of
    contributions accumulated since the buffer was last zeroed
    ([[]] for a buffer that is zero or not yet allocated), and its
    [requires_grad] flag. *)
Record Param : Type := {
  p_data : pval;
  p_grad : list Contribution;
  p_requires_grad : bool;
}.

Record Adam : Type := {
  param_group : list nat;
  hyper : AdamHyper;
  slots : gmap nat moments;
}.

(** The [StyleGAN2] object with the world it acts on. *)
Record State : Type := {
  config : Config;
  latent_size : Z;
  path_lengths : tensor (list Q);
  mean_path_length : tensor Q;
  mean_path_length_avg : Z;
  sample_z : Latent;
  G : list nat;
  D : list nat;
  r1_loss : tensor Q;
  path_loss : tensor Q;
  optimizer_G : Adam;
  optimizer_D : Adam;
  heap : gmap nat Param;
  rng : Rng;
  files : gmap string (list pval);
  trace : list event;
}.

Definition set_heap (h : gmap nat Param) (s : State) : State :=
  {| config := config s; latent_size := latent_size s;
     path_lengths := path_lengths s; mean_path_length := mean_path_length s;
     mean_path_length_avg := mean_path_length_avg s; sample_z := sample_z s;
     G := G s; D := D s; r1_loss := r1_loss s; path_loss := path_loss s;
     optimizer_G := optimizer_G s; optimizer_D := optimizer_D s;
     heap := h; rng := rng s; files := files s; trace := trace s |}.

Definition set_rng (r : Rng) (s : State) : State :=
  {| config := config s; latent_size := latent_size s;
     path_lengths := path_lengths s; mean_path_length := mean_path_length s;
     mean_path_length_avg := mean_path_length_avg s; sample_z := sample_z s;
     G := G s; D := D s; r1_loss := r1_loss s; path_loss := path_loss s;
     optimizer_G := optimizer_G s; optimizer_D := optimizer_D s;
     heap := heap s; rng := r; files := files s; trace := trace s |}.

Definition set_files (f : gmap string (list pval)) (s : State) : State :=
  {| config := config s; latent_size := latent_size s;
     path_lengths := path_lengths s; mean_path_length := mean_path_length s;
     mean_path_length_avg := mean_path_length_avg s; sample_z := sample_z s;
     G := G s; D := D s; r1_loss := r1_loss s; path_loss := path_loss s;
     optimizer_G := optimizer_G s; optimizer_D := optimizer_D s;
     heap := heap s; rng := rng s; files := f; trace := trace s |}.

Definition set_trace (t : list event) (s : State) : State :=
  {| config := config s; latent_size := latent_size s;
     path_lengths := path_lengths s; mean_path_length := mean_path_length s;
     mean_path_length_avg := mean_path_length_avg s; sample_z := sample_z s;
     G := G s; D := D s; r1_loss := r1_loss s; path_loss := path_loss s;
     optimizer_G := optimizer_G s; optimizer_D := optimizer_D s;
     heap := heap s; rng := rng s; files := files s; trace := t |}.

Definition set_optimizer (o : net) (a : Adam) (s : State) : State :=
  {| config := config s; latent_size := latent_size s;
     path_lengths := path_lengths s; mean_path_length := mean_path_length s;
     mean_path_length_avg := mean_path_length_avg s; sample_z := sample_z s;
     G := G s; D := D s; r1_loss := r1_loss s; path_loss := path_loss s;
     optimizer_G := match o with NetG => a | NetD => optimizer_G s end;
     optimizer_D := match o with NetD => a | NetG => optimizer_D s end;
     heap := heap s; rng := rng s; files := files s; trace := trace s |}.

Definition set_r1_loss (t : tensor Q) (s : State) : State :=
  {| config := config s; latent_size := latent_size s;
     path_lengths := path_lengths s; mean_path_length := mean_path_length s;
     mean_path_length_avg := mean_path_length_avg s; sample_z := sample_z s;
     G := G s; D := D s; r1_loss := t; path_loss := path_loss s;
     optimizer_G := optimizer_G s; optimizer_D := optimizer_D s;
     heap := heap s; rng := rng s; files := files s; trace := trace s |}.

(** The tuple assignment
    [self.path_loss, self.mean_path_length, self.path_lengths = ...]. *)
Definition set_path (r : tensor Q * tensor Q * tensor (list Q)) (s : State) : State :=
  {| config := config s; latent_size := latent_size s;
     path_lengths := r.2; mean_path_length := r.1.2;
     mean_path_length_avg := mean_path_length_avg s; sample_z := sample_z s;
     G := G s; D := D s; r1_loss := r1_loss s; path_loss := r.1.1;
     optimizer_G := optimizer_G s; optimizer_D := optimizer_D s;
     heap := heap s; rng := rng s; files := files s; trace := trace s |}.

Definition optimizer (o : net) (s : State) : Adam :=
  match o with NetG => optimizer_G s | NetD => optimizer_D s end.

Definition parameters (o : net) (s : State) : list nat :=
  match o with NetG => G s | NetD => D s end.

(** ** The state-and-exception monad *)

Definition M (A : Type) : Type := State → result A * State.

Definition ret {A} (a : A) : M A := λ s, (Ok a, s).

Definition bind {A C} (m : M A) (k : A → M C) : M C :=
  λ s, match m s with
       | (Ok a, s') => k a s'
       | (Raise e, s') => (Raise e, s')
       end.

Definition lift {A} (r : result A) : M A := λ s, (r, s).
Definition gets {A} (f : State → A) : M A := λ s, (Ok (f s), s).
Definition modify (f : State → State) : M unit := λ s, (Ok tt, f s).
Definition emit (e : event) : M unit := modify (λ s, set_trace (trace s ++ [e]) s).

Notation "'let*' x := m 'in' k" := (bind m (λ x, k))
  (at level 10, x pattern, m at level 100, k at level 200).
Notation "m ;;; k" := (bind m (λ _, k))
  (at level 100, k at level 200, right associativity).

(** ** Random sources *)

(** [random.random()] *)
Definition random_random : M Q :=
  λ s, (Ok (random_value (py_draws (rng s))),
        set_rng {| py_draws := S (py_draws (rng s));
                   torch_draws := torch_draws (rng s) |} s).

(** [torch.randn] on a shape: the number of the draw; a negative dimension is
    refused. *)
Definition randn (shape : list Z) : M nat :=
  λ s, if forallb (λ d, 0 <=? d)%Z shape
       then (Ok (torch_draws (rng s)),
             set_rng {| py_draws := py_draws (rng s);
                        torch_draws := S (torch_draws (rng s)) |} s)
       else (Raise RuntimeError, s).

(** ** Autograd *)

Definition net_values (h : gmap nat Param) (handles : list nat) : list pval :=
  omap (λ k, p_data <$> h !! k) handles.

(** The parameters of a module that enter the graph of its output: those
    that require grad. *)
Definition net_leaves (h : gmap nat Param) (handles : list nat) : gset nat :=
  list_to_set (filter (λ k, p_requires_grad <$> h !! k = Some true) handles).

Definition accumulate (c : Contribution) (ls : gset nat) (k : nat) (p : Param)
  : option Param :=
  Some (if bool_decide (k ∈ ls)
        then {| p_data := p_data p; p_grad := p_grad p ++ [c];
                p_requires_grad := p_requires_grad p |}
        else p).

(** [loss.backward()]: accumulate into the [.grad] of every leaf of the
    graph of [loss]. *)
Definition backward (p : pass) (loss : tensor Q) : M unit :=
  modify (λ s, set_heap (map_imap (accumulate {| of_pass := p; root := item loss |}
                                              (leaves loss)) (heap s)) s) ;;;
  emit (EvBackward p (item loss)).

(** [self.G(noise)] *)
Definition call_G (noise : list Latent) : M (tensor images) :=
  emit (EvGenerate noise false) ;;;
  gets (λ s, Tensor (G_images (net_values (heap s) (G s)) noise)
                    (net_leaves (heap s) (G s))).

(** [self.G(noise, return_dlatents=True)]: the images and [grad]
    ([dlatents] is bound by the caller and never read). *)
Definition call_G_dlatents (noise : list Latent)
  : M (tensor images * tensor (list (list (list Q)))) :=
  emit (EvGenerate noise true) ;;;
  gets (λ s, (Tensor (G_images (net_values (heap s) (G s)) noise)
                     (net_leaves (heap s) (G s)),
              Tensor (G_grad (net_values (heap s) (G s)) noise)
                     (net_leaves (heap s) (G s)))).

(** [self.D(imgs)] *)
Definition call_D (imgs : tensor images) : M (tensor (list Q)) :=
  gets (λ s, Tensor (D_scores (net_values (heap s) (D s)) (item imgs))
                    (net_leaves (heap s) (D s) ∪ leaves imgs)).

(** ** The optimizers *)

Definition zero_param (p : Param) : Param :=
  {| p_data := p_data p; p_grad := []; p_requires_grad := p_requires_grad p |}.

(** [optimizer.zero_grad()] *)
Definition Adam_zero_grad (a : Adam) (h : gmap nat Param) : gmap nat Param :=
  foldl (λ h k, alter zero_param k h) h (param_group a).

Definition Adam_step_param (hy : AdamHyper) (st : gmap nat moments * gmap nat Param)
    (k : nat) : gmap nat moments * gmap nat Param :=
  match st.2 !! k with
  | None => st
  | Some p =>
      let r := adam_update hy (st.1 !! k) (p_data p) (p_grad p) in
      (<[k := r.1]> st.1,
       <[k := {| p_data := r.2; p_grad := p_grad p;
                 p_requires_grad := p_requires_grad p |}]> st.2)
  end.

(** [optimizer.step()]: update, in place, the parameters of the group. *)
Definition Adam_step (a : Adam) (h : gmap nat Param) : Adam * gmap nat Param :=
  let r := foldl (Adam_step_param (hyper a)) (slots a, h) (param_group a) in
  ({| param_group := param_group a; hyper := hyper a; slots := r.1 |}, r.2).

Definition zero_grad (o : net) : M unit :=
  modify (λ s, set_heap (Adam_zero_grad (optimizer o s) (heap s)) s) ;;;
  emit (EvZeroGrad o).

Definition step (o : net) : M unit :=
  modify (λ s, let r := Adam_step (optimizer o s) (heap s) in
               set_optimizer o r.1 (set_heap r.2 s)) ;;;
  emit (EvStep o).

(** ** The methods of the class *)

Definition set_requires_grad (flag : bool) (p : Param) : Param :=
  {| p_data := p_data p; p_grad := p_grad p; p_requires_grad := flag |}.

(** [requires_grad(model, flag)] *)
Definition requires_grad (model : net) (flag : bool) : M unit :=
  modify (λ s, set_heap (foldl (λ h k, alter (set_requires_grad flag) k h)
                               (heap s) (parameters model s)) s).

Definition mixing_noise (batch_size latent_size : Z) (prob : Q) : M (list Latent) :=
  let single :=
    let* d := randn [batch_size; latent_size] in
    ret [{| rows := batch_size; cols := latent_size; draw := d; unbound := None |}] in
  if Qltb 0 prob then
    let* u := random_random in
    if Qltb u prob then
      let* d := randn [2%Z; batch_size; latent_size] in
      ret [{| rows := batch_size; cols := latent_size; draw := d; unbound := Some 0 |};
           {| rows := batch_size; cols := latent_size; draw := d; unbound := Some 1 |}]
    else single
  else single.

Definition backward_D_adv (real_imgs : images) (batch_size latent_size : Z)
    (mixing : Q) : M (tensor Q) :=
  let* noise := mixing_noise batch_size latent_size mixing in
  let* fake_imgs := call_G noise in
  let* fake_pred := call_D fake_imgs in
  let* real_pred := call_D (constant real_imgs) in
  let real_loss := tmap (map (λ x, softplus (- x))) real_pred in
  let fake_loss := tmap (map softplus) fake_pred in
  let d_adv_loss := tadd (tmean real_loss) (tmean fake_loss) in
  backward D_adv d_adv_loss ;;;
  ret d_adv_loss.

(** [t[0]] of a one-dimensional tensor. *)
Definition first (t : tensor (list Q)) : M (tensor Q) :=
  match item t with
  | [] => lift (Raise IndexError)
  | x :: _ => ret (Tensor x (leaves t))
  end.

(** [autograd.grad(outputs=real_pred.sum(), inputs=real_imgs,
    create_graph=True)]: the result stays in the graph of [real_pred]. *)
Definition grad_wrt_input (real_pred : tensor (list Q)) (real_imgs : images)
  : M (tensor (list (list Q))) :=
  gets (λ s, Tensor (D_input_grad (net_values (heap s) (D s)) real_imgs)
                    (leaves real_pred)).

(** ([real_imgs.requires_grad = True] makes the input batch a leaf as well;
    input tensors are not objects of the parameter heap.) *)
Definition backward_D_r1 (real_imgs : images) (r1 : Q) (d_reg_every : Z) : M (tensor Q) :=
  let* real_pred := call_D (constant real_imgs) in
  let* grad_real := grad_wrt_input real_pred real_imgs in
  let r1_loss := tmean (tmap (map (λ row, Qsum (map Qsq row))) grad_real) in
  let* real_pred0 := first real_pred in
  backward D_r1 (tadd (tscale_r (tscale (r1 / 2) r1_loss) (inject_Z d_reg_every))
                      (tscale 0 real_pred0)) ;;;
  ret r1_loss.

Definition backward_G_adv (batch_size latent_size : Z) (mixing : Q) : M (tensor Q) :=
  let* noise := mixing_noise batch_size latent_size mixing in
  let* fake_imgs := call_G noise in
  let* fake_pred := call_D fake_imgs in
  let g_adv_loss := tmean (tmap (map (λ x, softplus (- x))) fake_pred) in
  backward G_adv g_adv_loss ;;;
  ret g_adv_loss.

(** [torch.sqrt(grad.pow(2).sum(2).mean(1))] *)
Definition path_lengths_of (grad : list (list (list Q))) : list Q :=
  map (λ sample, sqrt (Qmean (map (λ layer, Qsum (map Qsq layer)) sample))) grad.

(** [max(1, batch_size // path_batch_shrink)] *)
Definition path_batch_size (batch_size path_batch_shrink : Z) : result Z :=
  match py_floordiv batch_size path_batch_shrink with
  | Ok q => Ok (Z.max 1 q)
  | Raise e => Raise e
  end.

Definition backward_G_path (batch_size latent_size : Z) (mixing : Q)
    (path_batch_shrink : Z) (mean_path_length : tensor Q) (path_regularize : Q)
    (g_reg_every : Z) : M (tensor Q * tensor Q * tensor (list Q)) :=
  let* path_batch_size := lift (path_batch_size batch_size path_batch_shrink) in
  let* noise := mixing_noise path_batch_size latent_size mixing in
  let* out := call_G_dlatents noise in
  let fake_imgs := out.1 in
  let grad := out.2 in
  let path_lengths := tmap path_lengths_of grad in
  let decay : Q := 0.01%Q in
  let path_mean :=
    tadd mean_path_length (tscale decay (tsub (tmean path_lengths) mean_path_length)) in
  let path_loss :=
    tmean (tzip (λ l m, map (λ x, Qsq (x - m)) l) path_lengths path_mean) in
  let mean_path_length := detach path_mean in
  let g_weighted_path_loss :=
    tscale (path_regularize * inject_Z g_reg_every) path_loss in
  let g_weighted_path_loss :=
    if (path_batch_shrink =? 0)%Z then g_weighted_path_loss
    else tadd g_weighted_path_loss (tscale 0 (tmap first_pixel fake_imgs)) in
  backward G_path g_weighted_path_loss ;;;
  ret (path_loss, mean_path_length, path_lengths).

(** The six losses [optimize] returns, in order. *)
Definition losses_of (d_adv_loss g_adv_loss : tensor Q) (s : State) : list Q :=
  [item d_adv_loss; item (r1_loss s); item g_adv_loss; item (path_loss s);
   Qmean (item (path_lengths s)); item (mean_path_length s)].

(** The four blocks of [optimize], named after the comments that head them
    in the source. *)

(** [# update Discriminator] *)
Definition update_Discriminator (real_imgs : images) : M (tensor Q) :=
  let* c := gets config in
  let* latent := gets latent_size in
  zero_grad NetD ;;;
  let* d_adv_loss := backward_D_adv real_imgs (batch_size c) latent (mixing c) in
  step NetD ;;;
  ret d_adv_loss.

(** [# apply r1 regularization to Discriminator] *)
Definition regularize_Discriminator (batch_idx : Z) (real_imgs : images) : M unit :=
  let* c := gets config in
  let* m := lift (py_mod batch_idx (d_reg_every c)) in
  if (m =? 0)%Z then
    zero_grad NetD ;;;
    let* l := backward_D_r1 real_imgs (r1 c) (d_reg_every c) in
    modify (set_r1_loss l) ;;;
    step NetD
  else ret tt.

(** [# update Generator] *)
Definition update_Generator : M (tensor Q) :=
  let* c := gets config in
  let* latent := gets latent_size in
  zero_grad NetG ;;;
  let* g_adv_loss := backward_G_adv (batch_size c) latent (mixing c) in
  step NetG ;;;
  ret g_adv_loss.

(** [# apply path length regularization to Generator] *)
Definition regularize_Generator (batch_idx : Z) : M unit :=
  let* c := gets config in
  let* latent := gets latent_size in
  let* m := lift (py_mod batch_idx (g_reg_every c)) in
  if (m =? 0)%Z then
    zero_grad NetG ;;;
    let* prior := gets mean_path_length in
    let* r := backward_G_path (batch_size c) latent (mixing c) (path_batch_shrink c)
                              prior (path_regularize c) (g_reg_every c) in
    modify (set_path r) ;;;
    step NetG
  else ret tt.

(** [optimize(batch_idx, data)].  The last statement, [np.array(losses)],
    comes after every update of the state and is taken to give the six
    values: what it does with tensors that require grad depends on the
    NumPy version. *)
Definition optimize (batch_idx : Z) (data : images) : M (list Q) :=
  let real_imgs := data in
  let* d_adv_loss := update_Discriminator real_imgs in
  regularize_Discriminator batch_idx real_imgs ;;;
  let* g_adv_loss := update_Generator in
  regularize_Generator batch_idx ;;;
  gets (losses_of d_adv_loss g_adv_loss).

(** The loop of [train], from batch index [batch_idx] (timing and progress
    lines are left out). *)
Fixpoint train_loop (batch_idx : Z) (data_loader : list images)
    (running_loss : list Q) : M (list Q) :=
  match data_loader with
  | [] => ret running_loss
  | data :: rest =>
      let* losses := optimize batch_idx data in
      train_loop (batch_idx + 1) rest (zip_with Qplus running_loss losses)
  end.

Definition train (data_loader : list images) : M (list npfloat) :=
  let* running_loss := train_loop 0 data_loader [0; 0; 0; 0; 0; 0]%Q in
  ret (map (λ x, np_true_divide x (length data_loader)) running_loss).

(** ** Checkpoints *)

Definition net_label (o : net) : string :=
  match o with NetG => "Generator" | NetD => "Discriminator" end.

(** ['{}_net_{}.pth'.format(network_label, epoch_label)] under [log_dir] *)
Definition checkpoint_path (dir network_label epoch_label : string) : string :=
  os_path_join dir (network_label +:+ "_net_" +:+ epoch_label +:+ ".pth").

Definition save_network (network : net) (network_label epoch_label : string) : M unit :=
  let* dir := gets (λ s, log_dir (config s)) in
  let save_path := checkpoint_path dir network_label epoch_label in
  modify (λ s, set_files (<[save_path := net_values (heap s) (parameters network s)]>
                            (files s)) s).

Definition set_data (v : pval) (p : Param) : Param :=
  {| p_data := v; p_grad := p_grad p; p_requires_grad := p_requires_grad p |}.

(** [network.load_state_dict(d)]: the entries must match the parameters. *)
Definition load_state_dict (network : net) (d : list pval) : M unit :=
  let* handles := gets (parameters network) in
  if (length d =? length handles)%nat then
    modify (λ s, set_heap (foldl (λ h kv, alter (set_data kv.2) kv.1 h)
                                 (heap s) (zip handles d)) s)
  else lift (Raise RuntimeError).

Definition load_network (network : net) (network_label epoch_label : string) : M unit :=
  let* dir := gets (λ s, log_dir (config s)) in
  let load_path := checkpoint_path dir network_label epoch_label in
  let* f := gets files in
  match f !! load_path with
  | None => lift (Raise FileNotFoundError)
  | Some d => load_state_dict network d
  end.

Definition save (epoch_label : string) : M unit :=
  save_network NetG "Generator" epoch_label ;;;
  save_network NetD "Discriminator" epoch_label.

Definition load (epoch_label : string) : M unit :=
  load_network NetG "Generator" epoch_label ;;;
  load_network NetD "Discriminator" epoch_label.

(** ** The constructor *)

Definition new_param (v : pval) : Param :=
  {| p_data := v; p_grad := []; p_requires_grad := true |}.

(** Allocate the parameters of a freshly built module at the handles
    [base, base + 1, ...]. *)
Definition alloc (base : nat) (vals : list pval) (h : gmap nat Param) : gmap nat Param :=
  foldr (λ kv h, <[kv.1 := new_param kv.2]> h) h (zip (seq base (length vals)) vals).

Definition rbind {A C} (r : result A) (k : A → result C) : result C :=
  match r with Ok a => k a | Raise e => Raise e end.

Notation "'let+' x := r 'in' k" := (rbind r (λ x, k))
  (at level 10, x pattern, r at level 100, k at level 200).

(** [torch.optim.Adam(params, lr=..., betas=...)]: the optimizer over the
    given parameter objects, with no per-parameter state yet.  (The range
    checks torch applies to [lr] and [betas] are library code and are not
    modelled.) *)
Definition Adam_new (params : list nat) (lr : Q) (betas : pyfloat * pyfloat) : Adam :=
  {| param_group := params; hyper := {| adam_lr := lr; adam_betas := betas |};
     slots := ∅ |}.

(** [StyleGAN2(...)], started with the random generators [r] and the files
    [f] of the log directory. *)
Definition __init__ (c : Config) (r : Rng) (f : gmap string (list pval)) : result State :=
  let latent := 512%Z in
  if negb (forallb (λ d, 0 <=? d)%Z [n_sample c; latent]) then Raise RuntimeError else
  let z := {| rows := n_sample c; cols := latent; draw := torch_draws r;
              unbound := None |} in
  let g_vals := Generator (img_size c) latent in
  let d_vals := Discriminator (img_size c) in
  let g_handles := seq 0 (length g_vals) in
  let d_handles := seq (length g_vals) (length d_vals) in
  let+ g_reg_ratio := py_truediv (g_reg_every c) (g_reg_every c + 1) in
  let+ d_reg_ratio := py_truediv (d_reg_every c) (d_reg_every c + 1) in
  let+ g_beta1 := py_pow 0 g_reg_ratio in
  let+ g_beta2 := py_pow 0.99 g_reg_ratio in
  let+ d_beta1 := py_pow 0 d_reg_ratio in
  let+ d_beta2 := py_pow 0.99 d_reg_ratio in
  Ok {| config := c; latent_size := latent;
        path_lengths := constant [0%Q]; mean_path_length := constant 0%Q;
        mean_path_length_avg := 0; sample_z := z;
        G := g_handles; D := d_handles;
        r1_loss := constant 0%Q; path_loss := constant 0%Q;
        optimizer_G := Adam_new g_handles (lr c * g_reg_ratio) (g_beta1, g_beta2);
        optimizer_D := Adam_new d_handles (lr c * d_reg_ratio) (d_beta1, d_beta2);
        heap := alloc (length g_vals) d_vals (alloc 0 g_vals ∅);
        rng := {| py_draws := py_draws r; torch_draws := S (torch_draws r) |};
        files := f; trace := [] |}.

End StyleGAN2.

(** ** A small concrete backend

    One generator parameter, two discriminator parameters, images of one
    pixel.  It is used to run the class on concrete inputs; its
    [softplus], [sqrt] and Adam rule are rational stand-ins. *)

#[global] Instance small_backend : Backend := {|
  pval := Q;
  images := list (list Q);
  moments := nat;
  Generator := λ _ _, [3%Q];
  Discriminator := λ _, [1%Q; 2%Q];
  G_images := λ ps noise,
    match noise with
    | z :: _ => replicate (Z.to_nat (rows z)) [Qred (Qsum ps)]
    | [] => []
    end;
  G_grad := λ ps noise,
    match noise with
    | z :: _ => replicate (Z.to_nat (rows z)) [map Qred ps; map Qred ps]
    | [] => []
    end;
  D_scores := λ ps imgs, map (λ img, Qred (Qsum ps * Qsum img)) imgs;
  D_input_grad := λ ps imgs, map (map (λ _, Qred (Qsum ps))) imgs;
  first_pixel := λ imgs, match imgs with (x :: _) :: _ => x | _ => 0%Q end;
  softplus := λ x, if Qltb 0 x then x else 0%Q;
  sqrt := λ x, x;
  adam_update := λ hy m v g,
    (S (default 0%nat m), Qred (v - inject_Z (Z.of_nat (length g))));
  random_value := λ _, 0.5%Q;
|}.

Definition fresh_rng : Rng := {| py_draws := 0; torch_draws := 0 |}.

(** The configuration of the end-to-end scenario: batches of four, both
    cadences four, no style mixing. *)
Definition small_config : Config := {|
  log_dir := "logs";
  batch_size := 4;
  n_sample := 4;
  img_size := 8;
  lr := 0.001;
  r1 := 10;
  path_regularize := 2;
  path_batch_shrink := 2;
  g_reg_every := 4;
  d_reg_every := 4;
  mixing := 0;
|}.

Definition batch4 : list (list Q) := [[1%Q]; [2%Q]; [3%Q]; [4%Q]].

(** The value of a computation that returned. *)
Definition from_Ok {A : Type} (r : result A)
  : match r return Type with Ok _ => A | Raise _ => unit end :=
  match r with Ok a => a | Raise _ => tt end.

(** Whether a computation returned. *)
Definition returned {A} (r : result A) : bool :=
  match r with Ok _ => true | Raise _ => false end.

(** The object [StyleGAN2(batch_size=4, ...)] right after construction. *)
Definition small_state : State :=
  from_Ok (__init__ small_config fresh_rng ∅).

(** The same object after its first batch. *)
Definition trained_state : State := (optimize 0 batch4 small_state).2.

(** A second object, constructed over the log directory in which the first
    one has saved epoch ["1"]. *)
Definition reloaded_state : State :=
  from_Ok (__init__ small_config fresh_rng (files (save "1" trained_state).2)).

(** The default configuration with a batch size of zero. *)
Definition zero_batch_config : Config := {|
  log_dir := "logs";
  batch_size := 0;
  n_sample := 16;
  img_size := 1024;
  lr := 0.001;
  r1 := 10;
  path_regularize := 2;
  path_batch_shrink := 2;
  g_reg_every := 4;
  d_reg_every := 16;
  mixing := 0.9;
|}.

(** The small configuration with a shrink factor of zero. *)
Definition zero_shrink_config : Config := {|
  log_dir := "logs";
  batch_size := 4;
  n_sample := 4;
  img_size := 8;
  lr := 0.001;
  r1 := 10;
  path_regularize := 2;
  path_batch_shrink := 0;
  g_reg_every := 4;
  d_reg_every := 4;
  mixing := 0;
|}.

Definition zero_shrink_state : State :=
  from_Ok (__init__ zero_shrink_config fresh_rng ∅).

(** A third object, constructed over a log directory that holds the
    generator's artifact of epoch ["1"] and not the discriminator's. *)
Definition half_saved_state : State :=
  from_Ok (__init__ small_config fresh_rng
             (files (save_network NetG "Generator" "1" trained_state).2)).

(** ** Specification vocabulary *)

Section Vocabulary.
Context {B : Backend}.

(** The state a successful computation ends in. *)
Definition final {A} (m : M A) (s : State) : State := (m s).2.

(** The handles of the two networks and of the two parameter groups agree
    and the networks share no parameter object. *)
Definition wf (s : State) : Prop :=
  param_group (optimizer_G s) = G s ∧
  param_group (optimizer_D s) = D s ∧
  (∀ k, k ∈ G s → k ∉ D s).

(** The value of parameter [k], observed when [k] is not in the parameter
    group of optimizer [o]. *)
Definition data_outside (o : net) (k : nat) (s : State) : option (option pval) :=
  if bool_decide (k ∈ param_group (optimizer o s)) then None
  else Some (p_data <$> heap s !! k).

(** How many [backward()] calls of pass [p] a trace holds. *)
Fixpoint count_backward (p : pass) (t : list event) : nat :=
  match t with
  | [] => 0
  | EvBackward p' _ :: t' =>
      (if decide (p' = p) then 1 else 0) + count_backward p t'
  | _ :: t' => count_backward p t'
  end.

(** The root of the latest [backward()] call of pass [p]. *)
Fixpoint last_root (p : pass) (t : list event) : option Q :=
  match t with
  | [] => None
  | EvBackward p' x :: t' =>
      match last_root p t' with
      | Some y => Some y
      | None => if decide (p' = p) then Some x else None
      end
  | _ :: t' => last_root p t'
  end.

Definition is_backward (p : pass) (e : event) : bool :=
  match e with
  | EvBackward p' _ => bool_decide (p' = p)
  | _ => false
  end.

(** The latent batches of the latest generator call that asked for the
    style trace. *)
Fixpoint last_path_noise (t : list event) : option (list Latent) :=
  match t with
  | [] => None
  | EvGenerate noise true :: t' =>
      match last_path_noise t' with
      | Some n => Some n
      | None => Some noise
      end
  | _ :: t' => last_path_noise t'
  end.

(** The reports of [optimize] on consecutive batches, from index
    [batch_idx]. *)
Fixpoint optimize_all (batch_idx : Z) (data_loader : list images) : M (list (list Q)) :=
  match data_loader with
  | [] => ret []
  | data :: rest =>
      bind (optimize batch_idx data) (λ losses,
      bind (optimize_all (batch_idx + 1) rest) (λ more,
      ret (losses :: more)))
  end.

End Vocabulary.

(** ** The order of a batch *)

(** An event of the trace without its payload. *)
Inductive step_kind : Type :=
| KZeroGrad (o : net)
| KGenerate (return_dlatents : bool)
| KBackward (p : pass)
| KStep (o : net).

Definition kind (e : event) : step_kind :=
  match e with
  | EvZeroGrad o => KZeroGrad o
  | EvGenerate _ b => KGenerate b
  | EvBackward p _ => KBackward p
  | EvStep o => KStep o
  end.

(** The calls one batch makes, given which regularization blocks fire. *)
Definition protocol (fire_d fire_g : bool) : list step_kind :=
  [KZeroGrad NetD; KGenerate false; KBackward D_adv; KStep NetD] ++
  (if fire_d then [KZeroGrad NetD; KBackward D_r1; KStep NetD] else []) ++
  [KZeroGrad NetG; KGenerate false; KBackward G_adv; KStep NetG] ++
  (if fire_g
   then [KZeroGrad NetG; KGenerate true; KBackward G_path; KStep NetG]
   else []).


(** The calls of [n] consecutive batches from index [batch_idx], with the
    cadences [d] and [g]. *)
Fixpoint epoch_protocol (batch_idx : Z) (n : nat) (d g : Z) : list step_kind :=
  match n with
  | O => []
  | S n' =>
      protocol (batch_idx mod d =? 0)%Z (batch_idx mod g =? 0)%Z ++
      epoch_protocol (batch_idx + 1) n' d g
  end.


(** * Properties *)

Section Properties.
Context {B : Backend}.

(** ** The monad *)

Lemma bind_Ok {A C} (m : M A) (k : A → M C) (s s' : State) (c : C) :
  bind m k s = (Ok c, s') →
  ∃ a s1, m s = (Ok a, s1) ∧ k a s1 = (Ok c, s').
Proof.
  unfold bind. destruct (m s) as [[a|e] s1]; intros H.
  - eauto.
  - discriminate.
Qed.

Lemma final_bind_Ok {A C} (m : M A) (k : A → M C) (s s1 : State) (a : A) :
  m s = (Ok a, s1) → bind m k s = k a s1.
Proof. unfold bind. intros ->. reflexivity. Qed.

Lemma run_eq {A} (m : M A) (s : State) (a : A) :
  (m s).1 = Ok a → m s = (Ok a, (m s).2).
Proof. destruct (m s) as [r s']. simpl. intros ->. reflexivity. Qed.

(** A computation preserves an observation [f] of the state, whether it
    returns or raises. *)
Definition preserves {X A} (f : State → X) (m : M A) : Prop :=
  ∀ s, f (m s).2 = f s.

Lemma preserves_ret {X A} (f : State → X) (a : A) : preserves f (ret a).
Proof. intros s. reflexivity. Qed.

Lemma preserves_lift {X A} (f : State → X) (r : result A) : preserves f (lift r).
Proof. intros s. reflexivity. Qed.

Lemma preserves_gets {X A} (f : State → X) (g : State → A) : preserves f (gets g).
Proof. intros s. reflexivity. Qed.

Lemma preserves_modify {X} (f : State → X) (g : State → State) :
  (∀ s, f (g s) = f s) → preserves f (modify g).
Proof. intros H s. apply H. Qed.

Lemma preserves_bind {X A C} (f : State → X) (m : M A) (k : A → M C) :
  preserves f m → (∀ a, preserves f (k a)) → preserves f (bind m k).
Proof.
  intros Hm Hk s. unfold bind.
  specialize (Hm s). destruct (m s) as [[a|e] s1]; simpl in *.
  - rewrite Hk. exact Hm.
  - exact Hm.
Qed.

Lemma preserves_randn {X} (f : State → X) (shape : list Z) :
  (∀ r s, f (set_rng r s) = f s) → preserves f (randn shape).
Proof.
  intros H s. unfold randn. destruct (forallb _ shape); simpl; [apply H | reflexivity].
Qed.

Lemma preserves_random_random {X} (f : State → X) :
  (∀ r s, f (set_rng r s) = f s) → preserves f random_random.
Proof. intros H s. apply H. Qed.

(** Unfold one layer of the class's methods. *)
Ltac unfold_method :=
  progress unfold optimize, update_Discriminator, regularize_Discriminator,
    update_Generator, regularize_Generator, backward_D_adv, backward_D_r1,
    backward_G_adv, backward_G_path, mixing_noise, call_G, call_G_dlatents,
    call_D, grad_wrt_input, first, backward, zero_grad, step, emit,
    save, load, save_network, load_network, load_state_dict, requires_grad.

(** Preservation of an observation that the setters in play leave alone. *)
Ltac frame :=
  repeat
    match goal with
    | |- preserves _ (ret _) => apply preserves_ret
    | |- preserves _ (lift _) => apply preserves_lift
    | |- preserves _ (gets _) => apply preserves_gets
    | |- preserves _ (bind _ _) => apply preserves_bind; [ | intros ? ]
    | |- preserves _ (modify _) => apply preserves_modify; intros ?; reflexivity
    | |- preserves _ (randn _) => apply preserves_randn; intros ? ?; reflexivity
    | |- preserves _ random_random =>
        apply preserves_random_random; intros ? ?; reflexivity
    | |- preserves _ (if ?b then _ else _) => destruct b
    | |- preserves _ (match ?x with _ => _ end) => destruct x
    | |- preserves _ _ => unfold_method
    end.

(** ** Frame conditions of the four blocks *)

Lemma update_Discriminator_report_frame (real_imgs : images) :
  preserves (λ s, (config s, latent_size s, r1_loss s, path_loss s,
                   path_lengths s, mean_path_length s))
            (update_Discriminator real_imgs).
Proof. frame. Qed.

Lemma update_Generator_report_frame :
  preserves (λ s, (config s, latent_size s, r1_loss s, path_loss s,
                   path_lengths s, mean_path_length s))
            update_Generator.
Proof. frame. Qed.

Lemma regularize_Discriminator_path_frame (batch_idx : Z) (real_imgs : images) :
  preserves (λ s, (config s, latent_size s, path_loss s, path_lengths s,
                   mean_path_length s))
            (regularize_Discriminator batch_idx real_imgs).
Proof. frame. Qed.

Lemma regularize_Generator_r1_frame (batch_idx : Z) :
  preserves (λ s, (config s, latent_size s, r1_loss s))
            (regularize_Generator batch_idx).
Proof. frame. Qed.

Lemma preserves_run {X A} (f : State → X) (m : M A) (s s' : State) (r : result A) :
  preserves f m → m s = (r, s') → f s' = f s.
Proof. intros H E. specialize (H s). rewrite E in H. exact H. Qed.

(** A regularization block whose cadence test fails does nothing. *)
Lemma regularize_Discriminator_skip (batch_idx : Z) (real_imgs : images)
    (s s' : State) (u : unit) :
  regularize_Discriminator batch_idx real_imgs s = (Ok u, s') →
  (batch_idx mod d_reg_every (config s))%Z ≠ 0%Z →
  s' = s.
Proof.
  unfold regularize_Discriminator, bind, gets, lift, py_mod. simpl.
  destruct (d_reg_every (config s) =? 0)%Z; [discriminate|].
  intros H Hm. apply Z.eqb_neq in Hm. rewrite Hm in H.
  unfold ret in H. congruence.
Qed.

Lemma regularize_Generator_skip (batch_idx : Z) (s s' : State) (u : unit) :
  regularize_Generator batch_idx s = (Ok u, s') →
  (batch_idx mod g_reg_every (config s))%Z ≠ 0%Z →
  s' = s.
Proof.
  unfold regularize_Generator, bind, gets, lift, py_mod. simpl.
  destruct (g_reg_every (config s) =? 0)%Z; [discriminate|].
  intros H Hm. apply Z.eqb_neq in Hm. rewrite Hm in H.
  unfold ret in H. congruence.
Qed.

(** The four blocks of a batch that returned. *)
Lemma optimize_Ok (batch_idx : Z) (data : images) (s s' : State) (losses : list Q) :
  optimize batch_idx data s = (Ok losses, s') →
  ∃ d_adv_loss g_adv_loss s1 s2 s3,
    update_Discriminator data s = (Ok d_adv_loss, s1) ∧
    regularize_Discriminator batch_idx data s1 = (Ok tt, s2) ∧
    update_Generator s2 = (Ok g_adv_loss, s3) ∧
    regularize_Generator batch_idx s3 = (Ok tt, s') ∧
    losses = losses_of d_adv_loss g_adv_loss s'.
Proof.
  unfold optimize. intros H.
  apply bind_Ok in H as (l1 & s1 & H1 & H).
  apply bind_Ok in H as ([] & s2 & H2 & H).
  apply bind_Ok in H as (l3 & s3 & H3 & H).
  apply bind_Ok in H as ([] & s4 & H4 & H).
  unfold gets in H. injection H as <- <-.
  exists l1, l3, s1, s2, s3. auto.
Qed.

(** One batch: the configuration is kept, the report shows the stored
    regularization values, and a block that does not fire leaves them as
    they were. *)
Lemma optimize_report (batch_idx : Z) (data : images) (s s' : State) (losses : list Q) :
  optimize batch_idx data s = (Ok losses, s') →
  config s' = config s ∧
  losses !! 1%nat = Some (item (r1_loss s')) ∧
  losses !! 3%nat = Some (item (path_loss s')) ∧
  losses !! 4%nat = Some (Qmean (item (path_lengths s'))) ∧
  losses !! 5%nat = Some (item (mean_path_length s')) ∧
  ((batch_idx mod d_reg_every (config s))%Z ≠ 0%Z → r1_loss s' = r1_loss s) ∧
  ((batch_idx mod g_reg_every (config s))%Z ≠ 0%Z →
     path_loss s' = path_loss s ∧ path_lengths s' = path_lengths s ∧
     mean_path_length s' = mean_path_length s).
Proof.
  intros H.
  apply optimize_Ok in H as (l1 & l3 & s1 & s2 & s3 & H1 & H2 & H3 & H4 & ->).
  pose proof (preserves_run _ _ _ _ _ (update_Discriminator_report_frame data) H1) as F1.
  pose proof (preserves_run _ _ _ _ _ (regularize_Discriminator_path_frame batch_idx data) H2) as F2.
  pose proof (preserves_run _ _ _ _ _ update_Generator_report_frame H3) as F3.
  pose proof (preserves_run _ _ _ _ _ (regularize_Generator_r1_frame batch_idx) H4) as F4.
  simpl in F1, F2, F3, F4.
  injection F1 as C1 L1 R1 P1 PL1 M1.
  injection F2 as C2 L2 P2 PL2 M2.
  injection F3 as C3 L3 R3 P3 PL3 M3.
  injection F4 as C4 L4 R4.
  repeat split; try reflexivity.
  - congruence.
  - intros Hd. rewrite <- C1 in Hd.
    apply (regularize_Discriminator_skip _ _ _ _ _ H2) in Hd. congruence.
  - rewrite <- C1, <- C2, <- C3 in H.
    apply (regularize_Generator_skip _ _ _ _ H4) in H. congruence.
  - rewrite <- C1, <- C2, <- C3 in H.
    apply (regularize_Generator_skip _ _ _ _ H4) in H. congruence.
  - rewrite <- C1, <- C2, <- C3 in H.
    apply (regularize_Generator_skip _ _ _ _ H4) in H. congruence.
Qed.

Lemma optimize_all_cons (batch_idx : Z) (data : images) (rest : list images)
    (s s' : State) (reports : list (list Q)) :
  optimize_all batch_idx (data :: rest) s = (Ok reports, s') →
  ∃ losses more s1,
    optimize batch_idx data s = (Ok losses, s1) ∧
    optimize_all (batch_idx + 1) rest s1 = (Ok more, s') ∧
    reports = losses :: more.
Proof.
  simpl. intros H.
  apply bind_Ok in H as (losses & s1 & H1 & H).
  apply bind_Ok in H as (more & s2 & H2 & H).
  unfold ret in H. injection H as <- <-.
  exists losses, more, s1. auto.
Qed.

(** A run of batches none of which fires the R1 block. *)
Lemma optimize_all_r1_stale (data_loader : list images) :
  ∀ (batch_idx : Z) (s s' : State) (reports : list (list Q)),
    optimize_all batch_idx data_loader s = (Ok reports, s') →
    (∀ i : nat, (i < length data_loader)%nat →
       ((batch_idx + Z.of_nat i) mod d_reg_every (config s))%Z ≠ 0%Z) →
    config s' = config s ∧ r1_loss s' = r1_loss s ∧
    Forall (λ l, l !! 1%nat = Some (item (r1_loss s))) reports.
Proof.
  induction data_loader as [|data rest IH]; intros batch_idx s s' reports H Hn.
  - simpl in H. unfold ret in H. injection H as <- <-. auto.
  - apply optimize_all_cons in H as (losses & more & s1 & H1 & H2 & ->).
    apply optimize_report in H1 as (C & R & _ & _ & _ & Fr & _).
    assert (r1_loss s1 = r1_loss s) as E.
    { apply Fr. specialize (Hn 0%nat). rewrite Z.add_0_r in Hn.
      apply Hn. simpl. lia. }
    apply IH in H2 as (C' & R' & F').
    + rewrite C', C, R', E. repeat split; try reflexivity.
      constructor; [congruence|]. rewrite <- E. exact F'.
    + intros i Hi. rewrite C.
      replace (batch_idx + 1 + Z.of_nat i)%Z with (batch_idx + Z.of_nat (S i))%Z by lia.
      apply Hn. simpl. lia.
Qed.

(** A run of batches none of which fires the path block. *)
Lemma optimize_all_path_stale (data_loader : list images) :
  ∀ (batch_idx : Z) (s s' : State) (reports : list (list Q)),
    optimize_all batch_idx data_loader s = (Ok reports, s') →
    (∀ i : nat, (i < length data_loader)%nat →
       ((batch_idx + Z.of_nat i) mod g_reg_every (config s))%Z ≠ 0%Z) →
    config s' = config s ∧
    (path_loss s' = path_loss s ∧ path_lengths s' = path_lengths s ∧
     mean_path_length s' = mean_path_length s) ∧
    Forall (λ l, l !! 3%nat = Some (item (path_loss s)) ∧
                 l !! 4%nat = Some (Qmean (item (path_lengths s))) ∧
                 l !! 5%nat = Some (item (mean_path_length s))) reports.
Proof.
  induction data_loader as [|data rest IH]; intros batch_idx s s' reports H Hn.
  - simpl in H. unfold ret in H. injection H as <- <-. auto.
  - apply optimize_all_cons in H as (losses & more & s1 & H1 & H2 & ->).
    apply optimize_report in H1 as (C & _ & R3 & R4 & R5 & _ & Fr).
    destruct Fr as (E1 & E2 & E3).
    { specialize (Hn 0%nat). rewrite Z.add_0_r in Hn. apply Hn. simpl. lia. }
    apply IH in H2 as (C' & (P1 & P2 & P3) & F').
    + rewrite C', C, P1, P2, P3, E1, E2, E3. repeat split; try reflexivity.
      constructor; [rewrite <- E1, <- E2, <- E3; auto|].
      rewrite <- E1, <- E2, <- E3. exact F'.
    + intros i Hi. rewrite C.
      replace (batch_idx + 1 + Z.of_nat i)%Z with (batch_idx + Z.of_nat (S i))%Z by lia.
      apply Hn. simpl. lia.
Qed.

(** C2.  On a batch whose index is not a multiple of [d_reg_every] the
    stored [r1_loss] is left as it was and that stale value is what the
    report shows; likewise [path_loss], [path_lengths] and
    [mean_path_length] on a batch whose index is not a multiple of
    [g_reg_every].  Over the following batches, as long as none fires, every
    report repeats the values reported by the batch they follow, the last
    one where the block fired. *)
Theorem stale_values_are_reused (batch_idx : Z) (data : images) (rest : list images)
    (s s1 s' : State) (losses : list Q) (more : list (list Q)) :
  optimize batch_idx data s = (Ok losses, s1) →
  optimize_all (batch_idx + 1) rest s1 = (Ok more, s') →
  ((batch_idx mod d_reg_every (config s))%Z ≠ 0%Z →
     r1_loss s1 = r1_loss s ∧ losses !! 1%nat = Some (item (r1_loss s))) ∧
  ((batch_idx mod g_reg_every (config s))%Z ≠ 0%Z →
     path_loss s1 = path_loss s ∧ path_lengths s1 = path_lengths s ∧
     mean_path_length s1 = mean_path_length s ∧
     losses !! 3%nat = Some (item (path_loss s)) ∧
     losses !! 4%nat = Some (Qmean (item (path_lengths s))) ∧
     losses !! 5%nat = Some (item (mean_path_length s))) ∧
  ((∀ i : nat, (i < length rest)%nat →
      ((batch_idx + 1 + Z.of_nat i) mod d_reg_every (config s))%Z ≠ 0%Z) →
     r1_loss s' = r1_loss s1 ∧
     Forall (λ l, l !! 1%nat = losses !! 1%nat) more) ∧
  ((∀ i : nat, (i < length rest)%nat →
      ((batch_idx + 1 + Z.of_nat i) mod g_reg_every (config s))%Z ≠ 0%Z) →
     path_loss s' = path_loss s1 ∧ path_lengths s' = path_lengths s1 ∧
     mean_path_length s' = mean_path_length s1 ∧
     Forall (λ l, l !! 3%nat = losses !! 3%nat ∧ l !! 4%nat = losses !! 4%nat ∧
                  l !! 5%nat = losses !! 5%nat) more).
Proof.
  intros H1 H2.
  pose proof (optimize_report _ _ _ _ _ H1) as (C & R1 & R3 & R4 & R5 & Fd & Fg).
  split; [|split; [|split]].
  - intros Hd. specialize (Fd Hd). split; congruence.
  - intros Hg. destruct (Fg Hg) as (E1 & E2 & E3).
    repeat split; congruence.
  - intros Hn. rewrite <- C in Hn.
    destruct (optimize_all_r1_stale _ _ _ _ _ H2 Hn) as (_ & E & F).
    split; [exact E|]. rewrite R1. exact F.
  - intros Hn. rewrite <- C in Hn.
    destruct (optimize_all_path_stale _ _ _ _ _ H2 Hn) as (_ & (E1 & E2 & E3) & F).
    repeat split; try assumption. rewrite R3, R4, R5. exact F.
Qed.

(** ** The path-length pass *)

Lemma gets_Ok {A} (f : State → A) (s s' : State) (a : A) :
  gets f s = (Ok a, s') → a = f s ∧ s' = s.
Proof. unfold gets. intros H. injection H as <- <-. auto. Qed.

Lemma modify_Ok (f : State → State) (s s' : State) (u : unit) :
  modify f s = (Ok u, s') → s' = f s.
Proof. unfold modify. intros H. injection H as _ H. symmetry. exact H. Qed.

Lemma ret_Ok {A} (a b : A) (s s' : State) :
  ret a s = (Ok b, s') → b = a ∧ s' = s.
Proof. unfold ret. intros H. injection H as <- <-. auto. Qed.

Lemma zero_grad_report_frame (o : net) :
  preserves (λ s, (config s, latent_size s, r1_loss s, path_loss s,
                   path_lengths s, mean_path_length s, G s, D s)) (zero_grad o).
Proof. frame. Qed.

Lemma step_report_frame (o : net) :
  preserves (λ s, (config s, latent_size s, r1_loss s, path_loss s,
                   path_lengths s, mean_path_length s, G s, D s)) (step o).
Proof. frame. Qed.

(** What [backward_G_path] returns: the detached running mean, moved from
    the prior value towards the mean path length of this batch by
    [decay = 0.01]. *)
Lemma backward_G_path_Ok (batch_size latent_size : Z) (mixing : Q)
    (path_batch_shrink : Z) (prior : tensor Q) (path_regularize : Q) (g_reg_every : Z)
    (s s' : State) (r : tensor Q * tensor Q * tensor (list Q)) :
  backward_G_path batch_size latent_size mixing path_batch_shrink prior
    path_regularize g_reg_every s = (Ok r, s') →
  r.1.2 = detach (tadd prior (tscale 0.01 (tsub (tmean r.2) prior))) ∧
  r.1.1 = tmean (tzip (λ l m, map (λ x, Qsq (x - m)) l) r.2
                      (tadd prior (tscale 0.01 (tsub (tmean r.2) prior)))) ∧
  ∃ ps noise, item r.2 = path_lengths_of (G_grad ps noise).
Proof.
  unfold backward_G_path. intros H.
  apply bind_Ok in H as (n & s1 & _ & H).
  apply bind_Ok in H as (noise & s2 & _ & H).
  apply bind_Ok in H as (out & s3 & Hout & H).
  apply bind_Ok in H as ([] & s4 & _ & H).
  apply ret_Ok in H as [-> _]. simpl.
  split; [reflexivity|]. split; [reflexivity|].
  unfold call_G_dlatents in Hout.
  apply bind_Ok in Hout as ([] & s5 & _ & Hout).
  apply gets_Ok in Hout as [-> _]. simpl. eauto.
Qed.

(** The path block on a batch where it fires. *)
Lemma regularize_Generator_fire (batch_idx : Z) (s s' : State) (u : unit) :
  regularize_Generator batch_idx s = (Ok u, s') →
  (batch_idx mod g_reg_every (config s))%Z = 0%Z →
  mean_path_length s' =
    detach (tadd (mean_path_length s)
                 (tscale 0.01 (tsub (tmean (path_lengths s')) (mean_path_length s)))) ∧
  path_loss s' =
    tmean (tzip (λ l m, map (λ x, Qsq (x - m)) l) (path_lengths s')
                (tadd (mean_path_length s)
                      (tscale 0.01 (tsub (tmean (path_lengths s')) (mean_path_length s))))) ∧
  ∃ ps noise, item (path_lengths s') = path_lengths_of (G_grad ps noise).
Proof.
  unfold regularize_Generator. intros H Hm.
  apply bind_Ok in H as (c & s1 & Hc & H). apply gets_Ok in Hc as [-> ->].
  apply bind_Ok in H as (l & s1 & Hl & H). apply gets_Ok in Hl as [-> ->].
  apply bind_Ok in H as (m & s1 & Hmod & H).
  unfold lift, py_mod in Hmod.
  destruct (g_reg_every (config s) =? 0)%Z; [discriminate|].
  injection Hmod as <- <-. rewrite Hm in H. simpl in H.
  apply bind_Ok in H as ([] & s1 & Hz & H).
  apply bind_Ok in H as (prior & s2 & Hp & H). apply gets_Ok in Hp as [-> ->].
  apply bind_Ok in H as (r & s2 & Hb & H).
  apply bind_Ok in H as ([] & s3 & Hset & H). apply modify_Ok in Hset as ->.
  pose proof (preserves_run _ _ _ _ _ (zero_grad_report_frame NetG) Hz) as Fz.
  pose proof (preserves_run _ _ _ _ _ (step_report_frame NetG) H) as Fs.
  simpl in Fz, Fs.
  injection Fz as _ _ _ _ _ Mz _ _.
  injection Fs as _ _ _ Ps PLs Ms _ _.
  apply backward_G_path_Ok in Hb as (E1 & E2 & E3).
  rewrite Ms, Ps, PLs, <- Mz. auto.
Qed.

(** C1.  On a batch where the path-regularization block fires, the stored
    [mean_path_length] after the batch is the prior value moved by [0.01]
    of the way to the mean of this batch's path lengths, which is the
    convex combination [0.99 * prior + 0.01 * mean]; it is detached (its
    graph reaches no parameter) and it is the value the report shows. *)
Theorem mean_path_length_update (batch_idx : Z) (data : images) (s s' : State)
    (losses : list Q) :
  optimize batch_idx data s = (Ok losses, s') →
  (batch_idx mod g_reg_every (config s))%Z = 0%Z →
  let prior := item (mean_path_length s) in
  let mean := Qmean (item (path_lengths s')) in
  (item (mean_path_length s') == prior + 0.01 * (mean - prior))%Q ∧
  (item (mean_path_length s') == prior * 0.99 + mean * 0.01)%Q ∧
  leaves (mean_path_length s') = ∅ ∧
  losses !! 5%nat = Some (item (mean_path_length s')) ∧
  ∃ ps noise, item (path_lengths s') = path_lengths_of (G_grad ps noise).
Proof.
  intros H Hm. simpl.
  pose proof (optimize_report _ _ _ _ _ H) as (_ & _ & _ & _ & R5 & _ & _).
  apply optimize_Ok in H as (l1 & l3 & s1 & s2 & s3 & H1 & H2 & H3 & H4 & ->).
  pose proof (preserves_run _ _ _ _ _ (update_Discriminator_report_frame data) H1) as F1.
  pose proof (preserves_run _ _ _ _ _ (regularize_Discriminator_path_frame batch_idx data) H2) as F2.
  pose proof (preserves_run _ _ _ _ _ update_Generator_report_frame H3) as F3.
  simpl in F1, F2, F3.
  injection F1 as C1 _ _ _ _ M1.
  injection F2 as C2 _ _ _ M2.
  injection F3 as C3 _ _ _ _ M3.
  rewrite <- C1, <- C2, <- C3 in Hm.
  apply (regularize_Generator_fire _ _ _ _ H4) in Hm as (E & _ & Hp).
  rewrite M3, M2, M1 in E.
  split; [rewrite E; reflexivity|].
  split; [rewrite E; simpl; ring|].
  split; [rewrite E; reflexivity|].
  split; [exact R5|exact Hp].
Qed.

(** ** The ghost trace *)

Lemma count_backward_snoc (p : pass) (t : list event) (e : event) :
  count_backward p (t ++ [e]) =
  (count_backward p t + (if is_backward p e then 1 else 0))%nat.
Proof.
  induction t as [|e' t IH]; simpl.
  - destruct e; simpl; try reflexivity.
    unfold bool_decide. destruct (decide_rel eq p0 p); simpl; [|reflexivity].
    destruct (decide (p0 = p)); [reflexivity|contradiction].
  - destruct e'; rewrite IH; try reflexivity. lia.
Qed.

Lemma last_root_snoc (p : pass) (t : list event) (e : event) :
  last_root p (t ++ [e]) =
  match e with
  | EvBackward p' x => if bool_decide (p' = p) then Some x else last_root p t
  | _ => last_root p t
  end.
Proof.
  induction t as [|e' t IH]; simpl.
  - destruct e; try reflexivity.
    unfold bool_decide. destruct (decide_rel eq p0 p); simpl.
    + destruct (decide (p0 = p)); [reflexivity|contradiction].
    + destruct (decide (p0 = p)); [contradiction|reflexivity].
  - destruct e'; rewrite IH; try reflexivity; destruct e; try reflexivity.
    all: destruct (bool_decide _); try reflexivity.
    all: destruct (last_root p t); reflexivity.
Qed.

Lemma preserves_emit_pass (p : pass) (e : event) :
  is_backward p e = false →
  preserves (λ s, (count_backward p (trace s), last_root p (trace s))) (emit e).
Proof.
  intros He s. unfold emit, modify. simpl.
  rewrite count_backward_snoc, last_root_snoc, He.
  f_equal; [lia|]. destruct e; try reflexivity.
  simpl in He. rewrite He. reflexivity.
Qed.

Ltac unfold_method_keep_emit :=
  progress unfold optimize, update_Discriminator, regularize_Discriminator,
    update_Generator, regularize_Generator, backward_D_adv, backward_D_r1,
    backward_G_adv, backward_G_path, mixing_noise, call_G, call_G_dlatents,
    call_D, grad_wrt_input, first, backward, zero_grad, step,
    save, load, save_network, load_network, load_state_dict, requires_grad.

(** Preservation of the [backward()] calls of one pass recorded so far. *)
Ltac trace_frame :=
  repeat
    match goal with
    | |- preserves _ (emit _) => apply preserves_emit_pass; reflexivity
    | |- preserves _ (ret _) => apply preserves_ret
    | |- preserves _ (lift _) => apply preserves_lift
    | |- preserves _ (gets _) => apply preserves_gets
    | |- preserves _ (bind _ _) => apply preserves_bind; [ | intros ? ]
    | |- preserves _ (modify _) => apply preserves_modify; intros ?; reflexivity
    | |- preserves _ (randn _) => apply preserves_randn; intros ? ?; reflexivity
    | |- preserves _ random_random =>
        apply preserves_random_random; intros ? ?; reflexivity
    | |- preserves _ (if ?b then _ else _) => destruct b
    | |- preserves _ (match ?x with _ => _ end) => destruct x
    | |- preserves _ _ => unfold_method_keep_emit
    end.

Lemma update_Discriminator_r1_trace (real_imgs : images) :
  preserves (λ s, (count_backward D_r1 (trace s), last_root D_r1 (trace s)))
            (update_Discriminator real_imgs).
Proof. trace_frame. Qed.

Lemma update_Generator_r1_trace :
  preserves (λ s, (count_backward D_r1 (trace s), last_root D_r1 (trace s)))
            update_Generator.
Proof. trace_frame. Qed.

Lemma regularize_Generator_r1_trace (batch_idx : Z) :
  preserves (λ s, (count_backward D_r1 (trace s), last_root D_r1 (trace s)))
            (regularize_Generator batch_idx).
Proof. trace_frame. Qed.

(** ** The parameter heap *)

Lemma net_values_ext (h1 h2 : gmap nat Param) (handles : list nat) :
  (∀ k, k ∈ handles → p_data <$> h1 !! k = p_data <$> h2 !! k) →
  net_values h1 handles = net_values h2 handles.
Proof.
  intros H. unfold net_values. apply list_omap_ext.
  induction handles as [|k ks IH]; constructor.
  - apply H, list_elem_of_here.
  - apply IH. intros k' Hk'. apply H. by apply list_elem_of_further.
Qed.

Lemma alter_fold_lookup (f : Param → Param) (group : list nat) :
  (∀ p, f (f p) = f p) →
  ∀ (h : gmap nat Param) (k : nat),
    foldl (λ h k, alter f k h) h group !! k =
    (if bool_decide (k ∈ group) then f <$> h !! k else h !! k).
Proof.
  intros Hf. induction group as [|x xs IH]; intros h k; simpl.
  - reflexivity.
  - rewrite IH. destruct (decide (x = k)) as [->|Hne].
    + rewrite lookup_alter_eq.
      rewrite (bool_decide_eq_true_2 (k ∈ k :: xs)) by apply list_elem_of_here.
      destruct (bool_decide (k ∈ xs)); [|reflexivity].
      destruct (h !! k); simpl; [|reflexivity]. by rewrite Hf.
    + rewrite lookup_alter_ne by exact Hne.
      destruct (decide (k ∈ xs)) as [Hin|Hnin].
      * rewrite !bool_decide_eq_true_2; [reflexivity| |assumption].
        by apply list_elem_of_further.
      * rewrite !bool_decide_eq_false_2; [reflexivity| |assumption].
        intros Hc. apply elem_of_cons in Hc as [->|?]; contradiction.
Qed.

(** [zero_grad] resets the buffers of its own group and nothing else. *)
Lemma Adam_zero_grad_lookup (a : Adam) (h : gmap nat Param) (k : nat) :
  Adam_zero_grad a h !! k =
  (if bool_decide (k ∈ param_group a) then zero_param <$> h !! k else h !! k).
Proof. apply alter_fold_lookup. reflexivity. Qed.

Lemma Adam_zero_grad_data (a : Adam) (h : gmap nat Param) (k : nat) :
  p_data <$> Adam_zero_grad a h !! k = p_data <$> h !! k.
Proof.
  rewrite Adam_zero_grad_lookup.
  destruct (bool_decide _); [|reflexivity]. destruct (h !! k); reflexivity.
Qed.

Lemma Adam_step_fold_lookup (hy : AdamHyper) (group : list nat) :
  ∀ (st : gmap nat moments * gmap nat Param) (k : nat),
    k ∉ group →
    (foldl (Adam_step_param hy) st group).2 !! k = st.2 !! k.
Proof.
  induction group as [|x xs IH]; intros st k Hk; simpl; [reflexivity|].
  rewrite IH.
  - unfold Adam_step_param. destruct (st.2 !! x); [|reflexivity].
    simpl. apply lookup_insert_ne. intros ->. apply Hk, list_elem_of_here.
  - intros Hc. apply Hk. by apply list_elem_of_further.
Qed.

(** An optimizer step leaves every parameter outside its group as it is:
    value, gradient buffer and flag. *)
Lemma Adam_step_lookup_other (a : Adam) (h : gmap nat Param) (k : nat) :
  k ∉ param_group a → (Adam_step a h).2 !! k = h !! k.
Proof. intros Hk. unfold Adam_step. simpl. by apply Adam_step_fold_lookup. Qed.

Lemma Adam_step_group (a : Adam) (h : gmap nat Param) :
  param_group (Adam_step a h).1 = param_group a.
Proof. reflexivity. Qed.

(** [backward] appends to the buffers of the leaves and to no other. *)
Lemma backward_heap_lookup (p : pass) (loss : tensor Q) (s : State) (k : nat) :
  heap (final (backward p loss) s) !! k =
  (λ q, if bool_decide (k ∈ leaves loss)
        then {| p_data := p_data q;
                p_grad := p_grad q ++ [{| of_pass := p; root := item loss |}];
                p_requires_grad := p_requires_grad q |}
        else q) <$> heap s !! k.
Proof.
  unfold final, backward, bind, modify, emit. simpl.
  rewrite map_lookup_imap. destruct (heap s !! k); reflexivity.
Qed.

(** ** The R1 pass *)

Lemma zero_grad_run (o : net) (s : State) :
  zero_grad o s =
  (Ok tt, set_trace (trace s ++ [EvZeroGrad o])
            (set_heap (Adam_zero_grad (optimizer o s) (heap s)) s)).
Proof. reflexivity. Qed.

Lemma step_run (o : net) (s : State) :
  step o s =
  (Ok tt, set_trace (trace s ++ [EvStep o])
            (set_optimizer o (Adam_step (optimizer o s) (heap s)).1
               (set_heap (Adam_step (optimizer o s) (heap s)).2 s))).
Proof. reflexivity. Qed.

(** What [backward_D_r1] returns and backpropagates. *)
Lemma backward_D_r1_Ok (real_imgs : images) (r1 : Q) (d_reg_every : Z)
    (s s' : State) (l : tensor Q) :
  backward_D_r1 real_imgs r1 d_reg_every s = (Ok l, s') →
  item l = Qmean (map (λ row, Qsum (map Qsq row))
                      (D_input_grad (net_values (heap s) (D s)) real_imgs)) ∧
  config s' = config s ∧ G s' = G s ∧ D s' = D s ∧
  ∃ p0, head (D_scores (net_values (heap s) (D s)) real_imgs) = Some p0 ∧
        trace s' = trace s ++
          [EvBackward D_r1 (r1 / 2 * item l * inject_Z d_reg_every + 0 * p0)%Q].
Proof.
  unfold backward_D_r1. intros H.
  apply bind_Ok in H as (real_pred & s1 & Hp & H). apply gets_Ok in Hp as [-> ->].
  apply bind_Ok in H as (grad_real & s1 & Hg & H). apply gets_Ok in Hg as [-> ->].
  apply bind_Ok in H as (real_pred0 & s1 & H0 & H).
  unfold first in H0. simpl in H0.
  destruct (D_scores (net_values (heap s) (D s)) real_imgs) as [|p0 scores] eqn:E;
    [discriminate|].
  apply ret_Ok in H0 as [-> ->].
  apply bind_Ok in H as ([] & s2 & Hb & H). apply ret_Ok in H as [-> ->].
  unfold backward, bind, modify, emit in Hb. simpl in Hb.
  injection Hb as <-. simpl.
  repeat split; try reflexivity.
  exists p0. split; reflexivity.
Qed.

(** The R1 block on a batch where it fires. *)
Lemma regularize_Discriminator_fire (batch_idx : Z) (real_imgs : images)
    (s s' : State) (u : unit) :
  regularize_Discriminator batch_idx real_imgs s = (Ok u, s') →
  (batch_idx mod d_reg_every (config s))%Z = 0%Z →
  item (r1_loss s') =
    Qmean (map (λ row, Qsum (map Qsq row))
               (D_input_grad (net_values (heap s) (D s)) real_imgs)) ∧
  ∃ p0, head (D_scores (net_values (heap s) (D s)) real_imgs) = Some p0 ∧
        trace s' = trace s ++
          [EvZeroGrad NetD;
           EvBackward D_r1 (r1 (config s) / 2 * item (r1_loss s')
                            * inject_Z (d_reg_every (config s)) + 0 * p0)%Q;
           EvStep NetD].
Proof.
  unfold regularize_Discriminator. intros H Hm. destruct u.
  apply bind_Ok in H as (c & s1 & Hc & H). apply gets_Ok in Hc as [-> ->].
  apply bind_Ok in H as (m & s1 & Hmod & H).
  unfold lift, py_mod in Hmod.
  destruct (d_reg_every (config s) =? 0)%Z; [discriminate|].
  injection Hmod as <- <-. rewrite Hm in H. simpl in H.
  apply bind_Ok in H as ([] & s1 & Hz & H).
  rewrite zero_grad_run in Hz. injection Hz as <-.
  apply bind_Ok in H as (l & s2 & Hb & H).
  apply bind_Ok in H as ([] & s3 & Hset & H). apply modify_Ok in Hset as ->.
  rewrite step_run in H. injection H as <-.
  apply backward_D_r1_Ok in Hb as (El & _ & _ & _ & p0 & Hp0 & Ht).
  simpl in El, Hp0, Ht.
  assert (net_values (Adam_zero_grad (optimizer_D s) (heap s)) (D s) =
          net_values (heap s) (D s)) as Ev.
  { apply net_values_ext. intros k _. apply Adam_zero_grad_data. }
  rewrite Ev in El, Hp0. simpl.
  split; [exact El|]. exists p0. split; [exact Hp0|].
  rewrite Ht, <- !app_assoc. reflexivity.
Qed.

(** C4.  In one batch the R1 pass runs its [backward()] exactly when
    [batch_idx % d_reg_every == 0].  When it runs, the stored [r1_loss] is
    the batch mean of the per-sample sums of squares of the gradient of
    the summed real score with respect to the input images (taken at the
    discriminator parameters left by the adversarial step), and the scalar
    backpropagated is [r1 / 2 * r1_loss * d_reg_every] plus zero times the
    first real score. *)
Theorem r1_pass_cadence_and_loss (batch_idx : Z) (data : images) (s s' : State)
    (losses : list Q) :
  optimize batch_idx data s = (Ok losses, s') →
  ∃ d_adv_loss s1,
    update_Discriminator data s = (Ok d_adv_loss, s1) ∧
    count_backward D_r1 (trace s') =
      (count_backward D_r1 (trace s) +
       (if (batch_idx mod d_reg_every (config s) =? 0)%Z then 1 else 0))%nat ∧
    ((batch_idx mod d_reg_every (config s))%Z = 0%Z →
       item (r1_loss s') =
         Qmean (map (λ row, Qsum (map Qsq row))
                    (D_input_grad (net_values (heap s1) (D s1)) data)) ∧
       ∃ p0 x,
         head (D_scores (net_values (heap s1) (D s1)) data) = Some p0 ∧
         last_root D_r1 (trace s') = Some x ∧
         x = (r1 (config s) / 2 * item (r1_loss s')
              * inject_Z (d_reg_every (config s)) + 0 * p0)%Q ∧
         (x == r1 (config s) / 2 * item (r1_loss s')
               * inject_Z (d_reg_every (config s)))%Q).
Proof.
  intros H.
  apply optimize_Ok in H as (l1 & l3 & s1 & s2 & s3 & H1 & H2 & H3 & H4 & ->).
  exists l1, s1. split; [exact H1|].
  pose proof (preserves_run _ _ _ _ _ (update_Discriminator_report_frame data) H1) as F1.
  pose proof (preserves_run _ _ _ _ _ update_Generator_report_frame H3) as F3.
  pose proof (preserves_run _ _ _ _ _ (regularize_Generator_r1_frame batch_idx) H4) as F4.
  pose proof (preserves_run _ _ _ _ _ (update_Discriminator_r1_trace data) H1) as T1.
  pose proof (preserves_run _ _ _ _ _ update_Generator_r1_trace H3) as T3.
  pose proof (preserves_run _ _ _ _ _ (regularize_Generator_r1_trace batch_idx) H4) as T4.
  simpl in F1, F3, F4, T1, T3, T4.
  injection F1 as C1 _ _ _ _ _. injection F3 as _ _ R3 _ _ _. injection F4 as _ _ R4.
  injection T1 as N1 L1. injection T3 as N3 L3. injection T4 as N4 L4.
  rewrite <- C1.
  destruct (Z.eqb_spec (batch_idx mod d_reg_every (config s1)) 0) as [Hm|Hm].
  - pose proof (regularize_Discriminator_fire _ _ _ _ _ H2 Hm) as (El & p0 & Hp0 & Ht).
    split.
    + rewrite N4, N3, Ht, <- N1.
      change [EvZeroGrad NetD; ?e; EvStep NetD] with ([EvZeroGrad NetD; e] ++ [EvStep NetD]).
      rewrite app_assoc, count_backward_snoc. simpl.
      change [EvZeroGrad NetD; ?e] with ([EvZeroGrad NetD] ++ [e]).
      rewrite app_assoc, !count_backward_snoc. simpl. lia.
    + intros _. rewrite R4, R3. split; [exact El|].
      exists p0. eexists. split; [exact Hp0|].
      split; [|split; [reflexivity|ring]].
      rewrite L4, L3, Ht.
      change [EvZeroGrad NetD; ?e; EvStep NetD] with ([EvZeroGrad NetD; e] ++ [EvStep NetD]).
      rewrite app_assoc, last_root_snoc.
      change [EvZeroGrad NetD; ?e] with ([EvZeroGrad NetD] ++ [e]).
      rewrite app_assoc, last_root_snoc. reflexivity.
  - split; [|intros Hc; contradiction].
    pose proof (regularize_Discriminator_skip _ _ _ _ _ H2 Hm) as ->.
    rewrite N4, N3, N1. lia.
Qed.

(** ** The batch of the path-length pass *)

Lemma last_path_noise_snoc (t : list event) (e : event) :
  last_path_noise (t ++ [e]) =
  match e with
  | EvGenerate noise true => Some noise
  | _ => last_path_noise t
  end.
Proof.
  induction t as [|e' t IH]; simpl.
  - destruct e as [| noise [] | |]; reflexivity.
  - destruct e' as [| noise' [] | |]; rewrite IH; try reflexivity.
    destruct e as [| noise [] | |]; try reflexivity.
    all: destruct (last_path_noise t); reflexivity.
Qed.

Lemma randn_Ok (shape : list Z) (s : State) :
  Forall (λ d, 0 ≤ d)%Z shape →
  randn shape s =
  (Ok (torch_draws (rng s)),
   set_rng {| py_draws := py_draws (rng s);
              torch_draws := S (torch_draws (rng s)) |} s).
Proof.
  intros H. unfold randn.
  assert (forallb (λ d, 0 <=? d)%Z shape = true) as ->; [|reflexivity].
  induction H as [|d ds Hd _ IH]; simpl; [reflexivity|].
  rewrite IH. apply Z.leb_le in Hd. rewrite Hd. reflexivity.
Qed.

(** [mixing_noise] returns one or two latent batches of the requested
    shape, and touches the random generators only. *)
Lemma mixing_noise_Ok (batch_size latent_size : Z) (prob : Q) (s : State) :
  (0 ≤ batch_size)%Z → (0 ≤ latent_size)%Z →
  ∃ noise r,
    mixing_noise batch_size latent_size prob s = (Ok noise, set_rng r s) ∧
    noise ≠ [] ∧
    Forall (λ z, rows z = batch_size ∧ cols z = latent_size) noise.
Proof.
  intros Hb Hl. unfold mixing_noise.
  assert (Forall (λ d, 0 ≤ d)%Z [batch_size; latent_size]) as H1
    by (repeat constructor; assumption).
  assert (Forall (λ d, 0 ≤ d)%Z [2%Z; batch_size; latent_size]) as H2
    by (repeat constructor; [lia|assumption..]).
  assert (∃ noise r,
    bind (randn [batch_size; latent_size])
      (λ d, ret [{| rows := batch_size; cols := latent_size; draw := d;
                    unbound := None |}]) s = (Ok noise, set_rng r s) ∧
    noise ≠ [] ∧ Forall (λ z, rows z = batch_size ∧ cols z = latent_size) noise)
    as Hsingle.
  { unfold bind. rewrite (randn_Ok _ _ H1). unfold ret.
    eexists _, _. split; [reflexivity|]. split; [discriminate|].
    repeat constructor. }
  destruct (Qltb 0 prob); [|exact Hsingle].
  unfold bind at 1. unfold random_random.
  destruct (Qltb _ prob).
  - unfold bind. rewrite (randn_Ok _ _ H2). unfold ret. simpl.
    eexists _, _. split; [reflexivity|]. split; [discriminate|].
    repeat constructor.
  - unfold bind. rewrite (randn_Ok _ _ H1). unfold ret. simpl.
    eexists _, _. split; [reflexivity|]. split; [discriminate|].
    repeat constructor.
Qed.

Lemma path_batch_size_Ok (batch_size path_batch_shrink : Z) :
  path_batch_shrink ≠ 0%Z →
  path_batch_size batch_size path_batch_shrink =
  Ok (Z.max 1 (batch_size / path_batch_shrink)).
Proof.
  intros H. unfold path_batch_size, py_floordiv.
  apply Z.eqb_neq in H. rewrite H. reflexivity.
Qed.

(** C5.  For a batch size and a shrink factor that are at least one, the
    path-length pass returns, and the latent batches it hands to the
    generator all have [max(1, batch_size // path_batch_shrink)] rows, a
    number that is at least one. *)
Theorem path_pass_batch_size (batch_size latent_size : Z) (mixing : Q)
    (path_batch_shrink : Z) (prior : tensor Q) (path_regularize : Q)
    (g_reg_every : Z) (s : State) :
  (1 ≤ batch_size)%Z → (1 ≤ path_batch_shrink)%Z → (0 ≤ latent_size)%Z →
  path_batch_size batch_size path_batch_shrink =
    Ok (Z.max 1 (batch_size / path_batch_shrink)) ∧
  (1 ≤ Z.max 1 (batch_size / path_batch_shrink))%Z ∧
  ∃ r s' noise,
    backward_G_path batch_size latent_size mixing path_batch_shrink prior
      path_regularize g_reg_every s = (Ok r, s') ∧
    last_path_noise (trace s') = Some noise ∧
    noise ≠ [] ∧
    Forall (λ z, rows z = Z.max 1 (batch_size / path_batch_shrink)) noise.
Proof.
  intros Hb Hk Hl.
  assert (path_batch_shrink ≠ 0%Z) as Hk0 by lia.
  split; [by apply path_batch_size_Ok|]. split; [lia|].
  unfold backward_G_path.
  unfold bind at 1. unfold lift. rewrite (path_batch_size_Ok _ _ Hk0).
  destruct (mixing_noise_Ok (Z.max 1 (batch_size / path_batch_shrink)) latent_size
              mixing s) as (noise & r & Hn & Hne & Hall); [lia|assumption|].
  unfold bind at 1. rewrite Hn.
  eexists _, _, noise. split; [reflexivity|]. simpl.
  split; [|split; [exact Hne|]].
  - rewrite last_path_noise_snoc.
    destruct (path_batch_shrink =? 0)%Z; simpl;
      rewrite last_path_noise_snoc; reflexivity.
  - eapply Forall_impl; [exact Hall|]. intros z [Hz _]. exact Hz.
Qed.

(** ** Which parameters an optimizer step can change *)

Lemma preserves_step_outside (o : net) (k : nat) :
  preserves (data_outside o k) (step o).
Proof.
  intros s. rewrite step_run. unfold data_outside.
  destruct o; simpl.
  - destruct (decide (k ∈ param_group (optimizer_G s))) as [Hin|Hnin].
    + rewrite !bool_decide_eq_true_2 by assumption. reflexivity.
    + rewrite !bool_decide_eq_false_2 by assumption.
      pose proof (Adam_step_lookup_other (optimizer_G s) (heap s) k Hnin) as E.
      unfold Adam_step in E. simpl in E. rewrite E. reflexivity.
  - destruct (decide (k ∈ param_group (optimizer_D s))) as [Hin|Hnin].
    + rewrite !bool_decide_eq_true_2 by assumption. reflexivity.
    + rewrite !bool_decide_eq_false_2 by assumption.
      pose proof (Adam_step_lookup_other (optimizer_D s) (heap s) k Hnin) as E.
      unfold Adam_step in E. simpl in E. rewrite E. reflexivity.
Qed.

Lemma preserves_zero_grad_data (o o' : net) (k : nat) :
  preserves (data_outside o k) (zero_grad o').
Proof.
  intros s. rewrite zero_grad_run. unfold data_outside.
  replace (param_group (optimizer o (set_trace (trace s ++ [EvZeroGrad o'])
             (set_heap (Adam_zero_grad (optimizer o' s) (heap s)) s))))
    with (param_group (optimizer o s)) by (destruct o; reflexivity).
  destruct (bool_decide _); [reflexivity|]. simpl.
  rewrite Adam_zero_grad_data. reflexivity.
Qed.

Lemma preserves_backward_data (o : net) (k : nat) (p : pass) (loss : tensor Q) :
  preserves (data_outside o k) (backward p loss).
Proof.
  intros s. unfold data_outside.
  replace (param_group (optimizer o (backward p loss s).2))
    with (param_group (optimizer o s)) by (destruct o; reflexivity).
  destruct (bool_decide _); [reflexivity|].
  pose proof (backward_heap_lookup p loss s k) as E. unfold final in E.
  rewrite E. destruct (heap s !! k); simpl; [|reflexivity].
  destruct (bool_decide _); reflexivity.
Qed.

Ltac unfold_block :=
  progress unfold optimize, update_Discriminator, regularize_Discriminator,
    update_Generator, regularize_Generator, backward_D_adv, backward_D_r1,
    backward_G_adv, backward_G_path, mixing_noise, call_G, call_G_dlatents,
    call_D, grad_wrt_input, first, emit.

(** Preservation of the value of a parameter outside the stepping group. *)
Ltac data_frame :=
  repeat
    match goal with
    | |- preserves _ (step _) => apply preserves_step_outside
    | |- preserves _ (zero_grad _) => apply preserves_zero_grad_data
    | |- preserves _ (backward _ _) => apply preserves_backward_data
    | |- preserves _ (ret _) => apply preserves_ret
    | |- preserves _ (lift _) => apply preserves_lift
    | |- preserves _ (gets _) => apply preserves_gets
    | |- preserves _ (bind _ _) => apply preserves_bind; [ | intros ? ]
    | |- preserves _ (modify _) => apply preserves_modify; intros ?; reflexivity
    | |- preserves _ (randn _) => apply preserves_randn; intros ? ?; reflexivity
    | |- preserves _ random_random =>
        apply preserves_random_random; intros ? ?; reflexivity
    | |- preserves _ (if ?b then _ else _) => destruct b
    | |- preserves _ (match ?x with _ => _ end) => destruct x
    | |- preserves _ _ => unfold_block
    end.

Lemma update_Discriminator_data (real_imgs : images) (k : nat) :
  preserves (data_outside NetD k) (update_Discriminator real_imgs).
Proof. data_frame. Qed.

Lemma regularize_Discriminator_data (batch_idx : Z) (real_imgs : images) (k : nat) :
  preserves (data_outside NetD k) (regularize_Discriminator batch_idx real_imgs).
Proof. data_frame. Qed.

Lemma update_Generator_data (k : nat) :
  preserves (data_outside NetG k) update_Generator.
Proof. data_frame. Qed.

Lemma regularize_Generator_data (batch_idx : Z) (k : nat) :
  preserves (data_outside NetG k) (regularize_Generator batch_idx).
Proof. data_frame. Qed.

Lemma data_outside_Some (o : net) (k : nat) (s : State) :
  k ∉ param_group (optimizer o s) →
  data_outside o k s = Some (p_data <$> heap s !! k).
Proof. intros H. unfold data_outside. by rewrite bool_decide_eq_false_2. Qed.

(** The handles of the networks and of the parameter groups never change
    during training. *)
Definition handles (s : State) : list nat * list nat * list nat * list nat :=
  (G s, D s, param_group (optimizer_G s), param_group (optimizer_D s)).

Lemma wf_handles (s s' : State) : handles s' = handles s → wf s → wf s'.
Proof.
  unfold handles, wf. intros H. injection H as -> -> -> ->. auto.
Qed.

Lemma optimize_handles (batch_idx : Z) (data : images) :
  preserves handles (optimize batch_idx data).
Proof. frame. Qed.

Lemma save_handles (epoch_label : string) : preserves handles (save epoch_label).
Proof. frame. Qed.

Lemma load_handles (epoch_label : string) : preserves handles (load epoch_label).
Proof. frame. Qed.

(** The invariant holds after construction and is kept by every batch. *)
Lemma optimize_wf (batch_idx : Z) (data : images) (s : State) :
  wf s → wf (final (optimize batch_idx data) s).
Proof. apply wf_handles, optimize_handles. Qed.

Lemma data_outside_eq (o : net) (k : nat) (s s' : State) :
  data_outside o k s' = data_outside o k s →
  k ∉ param_group (optimizer o s) →
  p_data <$> heap s' !! k = p_data <$> heap s !! k.
Proof.
  intros E Hk. rewrite (data_outside_Some o k s Hk) in E.
  unfold data_outside in E. destruct (bool_decide _); [discriminate|].
  injection E as E. exact E.
Qed.

(** C9.  In a state where each optimizer holds the parameters of its own
    network and the two networks share none, a step of the discriminator's
    optimizer leaves every generator parameter exactly as it was, and a
    step of the generator's optimizer leaves every discriminator parameter
    exactly as it was.  The same holds for the values across the blocks of
    a batch: both discriminator blocks leave the generator's parameter
    values unchanged, both generator blocks leave the discriminator's. *)
Theorem optimizer_steps_are_restricted (s : State) (batch_idx : Z) (data : images) :
  wf s →
  (∀ k, k ∈ G s → heap (final (step NetD) s) !! k = heap s !! k) ∧
  (∀ k, k ∈ D s → heap (final (step NetG) s) !! k = heap s !! k) ∧
  (∀ k, k ∈ G s →
     p_data <$> heap (final (update_Discriminator data) s) !! k
       = p_data <$> heap s !! k ∧
     p_data <$> heap (final (regularize_Discriminator batch_idx data) s) !! k
       = p_data <$> heap s !! k) ∧
  (∀ k, k ∈ D s →
     p_data <$> heap (final update_Generator s) !! k = p_data <$> heap s !! k ∧
     p_data <$> heap (final (regularize_Generator batch_idx) s) !! k
       = p_data <$> heap s !! k).
Proof.
  intros (HG & HD & Hdisj).
  assert (∀ k, k ∈ G s → k ∉ param_group (optimizer NetD s)) as HGD.
  { intros k Hk. simpl. rewrite HD. by apply Hdisj. }
  assert (∀ k, k ∈ D s → k ∉ param_group (optimizer NetG s)) as HDG.
  { intros k Hk. simpl. rewrite HG. intros Hc. by apply (Hdisj k). }
  split; [|split; [|split]].
  - intros k Hk. unfold final. rewrite step_run. simpl.
    apply (Adam_step_lookup_other (optimizer_D s)). by apply HGD.
  - intros k Hk. unfold final. rewrite step_run. simpl.
    apply (Adam_step_lookup_other (optimizer_G s)). by apply HDG.
  - intros k Hk. split.
    + apply (data_outside_eq NetD); [apply update_Discriminator_data|by apply HGD].
    + apply (data_outside_eq NetD); [apply regularize_Discriminator_data|by apply HGD].
  - intros k Hk. split.
    + apply (data_outside_eq NetG); [apply update_Generator_data|by apply HDG].
    + apply (data_outside_eq NetG); [apply regularize_Generator_data|by apply HDG].
Qed.

(** ** The constructor *)

Lemma Qeqb_true (x y : Q) : Qeqb x y = true ↔ (x == y)%Q.
Proof. unfold Qeqb, Qeq. apply Z.eqb_eq. Qed.

Lemma Qltb_true (x y : Q) : Qltb x y = true ↔ (x < y)%Q.
Proof. unfold Qltb, Qlt. apply Z.ltb_lt. Qed.

Lemma Qeqb_false (x y : Q) : Qeqb x y = false ↔ ¬ (x == y)%Q.
Proof. rewrite <- Qeqb_true. destruct (Qeqb x y); split; congruence. Qed.

Lemma Qltb_false (x y : Q) : Qltb x y = false ↔ ¬ (x < y)%Q.
Proof. rewrite <- Qltb_true. destruct (Qltb x y); split; congruence. Qed.

(** [n / (n + 1)] for a cadence [n >= 1] is positive. *)
Lemma reg_ratio_pos (n : Z) : (1 ≤ n)%Z → (0 < inject_Z n / inject_Z (n + 1))%Q.
Proof.
  intros H. unfold Qdiv. apply Qmult_lt_0_compat.
  - change 0%Q with (inject_Z 0). rewrite <- Zlt_Qlt. lia.
  - apply Qinv_lt_0_compat. change 0%Q with (inject_Z 0). rewrite <- Zlt_Qlt. lia.
Qed.

(** [n / (n + 1)] is never one. *)
Lemma reg_ratio_not_one (n : Z) :
  (n + 1)%Z ≠ 0%Z → ¬ (inject_Z n / inject_Z (n + 1) == 1)%Q.
Proof.
  intros Hn H.
  assert (¬ (inject_Z (n + 1) == 0)%Q) as Hd.
  { change 0%Q with (inject_Z 0). rewrite inject_Z_injective. exact Hn. }
  pose proof (Qmult_div_r (inject_Z n) (inject_Z (n + 1)) Hd) as E.
  rewrite H, Qmult_1_r in E.
  apply (proj1 (inject_Z_injective (n + 1) n)) in E. lia.
Qed.

Lemma py_pow_pos_exponent (base r : Q) :
  (0 < r)%Q →
  py_pow base r = Ok (if Qeqb base 0 then Exact 0 else Pow base r).
Proof.
  intros Hr. unfold py_pow.
  assert (Qltb r 0 = false) as ->.
  { apply Qltb_false. intros Hc. apply (Qlt_irrefl 0).
    eapply Qlt_trans; eassumption. }
  assert (Qeqb r 0 = false) as ->.
  { apply Qeqb_false. intros Hc. rewrite Hc in Hr. apply (Qlt_irrefl _ Hr). }
  destruct (Qeqb base 0); reflexivity.
Qed.

(** What a construction that returned has built. *)
Lemma init_Ok (c : Config) (r : Rng) (f : gmap string (list pval)) (s : State) :
  __init__ c r f = Ok s →
  (g_reg_every c + 1)%Z ≠ 0%Z ∧ (d_reg_every c + 1)%Z ≠ 0%Z ∧
  ∃ g_beta1 g_beta2 d_beta1 d_beta2,
    py_pow 0 (inject_Z (g_reg_every c) / inject_Z (g_reg_every c + 1)) = Ok g_beta1 ∧
    py_pow 0.99 (inject_Z (g_reg_every c) / inject_Z (g_reg_every c + 1)) = Ok g_beta2 ∧
    py_pow 0 (inject_Z (d_reg_every c) / inject_Z (d_reg_every c + 1)) = Ok d_beta1 ∧
    py_pow 0.99 (inject_Z (d_reg_every c) / inject_Z (d_reg_every c + 1)) = Ok d_beta2 ∧
    config s = c ∧
    G s = seq 0 (length (Generator (img_size c) 512)) ∧
    D s = seq (length (Generator (img_size c) 512))
              (length (Discriminator (img_size c))) ∧
    optimizer_G s =
      Adam_new (G s)
        (lr c * (inject_Z (g_reg_every c) / inject_Z (g_reg_every c + 1)))
        (g_beta1, g_beta2) ∧
    optimizer_D s =
      Adam_new (D s)
        (lr c * (inject_Z (d_reg_every c) / inject_Z (d_reg_every c + 1)))
        (d_beta1, d_beta2) ∧
    heap s = alloc (length (Generator (img_size c) 512)) (Discriminator (img_size c))
               (alloc 0 (Generator (img_size c) 512) ∅) ∧
    mean_path_length s = constant 0%Q ∧ r1_loss s = constant 0%Q ∧
    path_loss s = constant 0%Q ∧ path_lengths s = constant [0%Q] ∧
    files s = f ∧ trace s = [].
Proof.
  unfold __init__, py_truediv. intros H.
  destruct (negb _); [discriminate|].
  destruct (g_reg_every c + 1 =? 0)%Z eqn:Eg; [discriminate|].
  destruct (d_reg_every c + 1 =? 0)%Z eqn:Ed; [discriminate|].
  apply Z.eqb_neq in Eg, Ed. simpl in H.
  destruct (py_pow 0 _) as [g1|] eqn:P1 in H; [|discriminate]. simpl in H.
  destruct (py_pow 0.99 _) as [g2|] eqn:P2 in H; [|discriminate]. simpl in H.
  destruct (py_pow 0 _) as [d1|] eqn:P3 in H; [|discriminate]. simpl in H.
  destruct (py_pow 0.99 _) as [d2|] eqn:P4 in H; [|discriminate]. simpl in H.
  injection H as <-.
  split; [exact Eg|]. split; [exact Ed|].
  exists g1, g2, d1, d2. simpl. repeat split; assumption.
Qed.

(** The handles the constructor hands out are distinct, so the state it
    builds satisfies the invariant. *)
Lemma init_wf (c : Config) (r : Rng) (f : gmap string (list pval)) (s : State) :
  __init__ c r f = Ok s → wf s.
Proof.
  intros H. apply init_Ok in H
    as (_ & _ & g1 & g2 & d1 & d2 & _ & _ & _ & _ & _ & EG & ED & OG & OD & _).
  unfold wf. rewrite OG, OD. simpl. repeat split.
  rewrite EG, ED. intros k Hg Hd.
  apply elem_of_seq in Hg, Hd. lia.
Qed.

Lemma scaled_lr_differs (x : Q) (n : Z) :
  (n + 1)%Z ≠ 0%Z → ¬ (x == 0)%Q →
  ¬ (x * (inject_Z n / inject_Z (n + 1)) == x)%Q.
Proof.
  intros Hn Hx H. apply (reg_ratio_not_one n Hn).
  apply (Qmult_inj_l _ _ x Hx). rewrite H. ring.
Qed.

(** C10.  A construction that returns has built two Adam optimizers, one
    over the generator's parameters and one over the discriminator's.  With
    [r = n / (n + 1)] for the network's own cadence [n], the learning rate
    is [lr * r] and the betas are [(0 ** r, 0.99 ** r)]; for a cadence of at
    least one these are [0] and the power [0.99 ** r].  Unless [lr] is zero,
    neither optimizer runs at the configured [lr] itself. *)
Theorem adam_hyperparameters (c : Config) (r : Rng) (f : gmap string (list pval))
    (s : State) :
  __init__ c r f = Ok s →
  let g_reg_ratio := (inject_Z (g_reg_every c) / inject_Z (g_reg_every c + 1))%Q in
  let d_reg_ratio := (inject_Z (d_reg_every c) / inject_Z (d_reg_every c + 1))%Q in
  param_group (optimizer_G s) = G s ∧
  param_group (optimizer_D s) = D s ∧
  adam_lr (hyper (optimizer_G s)) = (lr c * g_reg_ratio)%Q ∧
  adam_lr (hyper (optimizer_D s)) = (lr c * d_reg_ratio)%Q ∧
  py_pow 0 g_reg_ratio = Ok (adam_betas (hyper (optimizer_G s))).1 ∧
  py_pow 0.99 g_reg_ratio = Ok (adam_betas (hyper (optimizer_G s))).2 ∧
  py_pow 0 d_reg_ratio = Ok (adam_betas (hyper (optimizer_D s))).1 ∧
  py_pow 0.99 d_reg_ratio = Ok (adam_betas (hyper (optimizer_D s))).2 ∧
  ((1 ≤ g_reg_every c)%Z →
     adam_betas (hyper (optimizer_G s)) = (Exact 0, Pow 0.99 g_reg_ratio)) ∧
  ((1 ≤ d_reg_every c)%Z →
     adam_betas (hyper (optimizer_D s)) = (Exact 0, Pow 0.99 d_reg_ratio)) ∧
  (¬ (lr c == 0)%Q →
     ¬ (adam_lr (hyper (optimizer_G s)) == lr c)%Q ∧
     ¬ (adam_lr (hyper (optimizer_D s)) == lr c)%Q).
Proof.
  intros H. simpl.
  apply init_Ok in H
    as (Hg & Hd & g1 & g2 & d1 & d2 & P1 & P2 & P3 & P4 & _ & _ & _ & OG & OD & _).
  rewrite OG, OD. simpl.
  repeat split; try assumption.
  - intros Hge. pose proof (reg_ratio_pos _ Hge) as Hpos.
    rewrite (py_pow_pos_exponent 0 _ Hpos) in P1.
    rewrite (py_pow_pos_exponent 0.99 _ Hpos) in P2.
    simpl in P1, P2. congruence.
  - intros Hge. pose proof (reg_ratio_pos _ Hge) as Hpos.
    rewrite (py_pow_pos_exponent 0 _ Hpos) in P3.
    rewrite (py_pow_pos_exponent 0.99 _ Hpos) in P4.
    simpl in P3, P4. congruence.
  - by apply scaled_lr_differs.
  - by apply scaled_lr_differs.
Qed.

(** C7, as the constructor behaves.  The constructor checks neither the
    batch size nor the cadences.  Given a sample count [torch.randn]
    accepts and a learning rate that is not negative: with both cadences at
    least one it returns for every batch size, zero and negative ones
    included, and stores the configuration as given; a cadence of [-1]
    makes it raise [ZeroDivisionError], from [n / (n + 1)]. *)
Theorem construction_does_not_validate (c : Config) (r : Rng)
    (f : gmap string (list pval)) :
  (0 ≤ n_sample c)%Z → (0 <= lr c)%Q →
  ((1 ≤ g_reg_every c)%Z → (1 ≤ d_reg_every c)%Z →
     ∃ s, __init__ c r f = Ok s ∧ config s = c) ∧
  (g_reg_every c = (-1)%Z ∨ d_reg_every c = (-1)%Z →
     __init__ c r f = Raise ZeroDivisionError).
Proof.
  intros Hn _.
  assert (negb (forallb (λ d, 0 <=? d)%Z [n_sample c; 512%Z]) = false) as Hshape.
  { simpl. apply Z.leb_le in Hn. rewrite Hn. reflexivity. }
  split.
  - intros Hg Hd. unfold __init__, py_truediv. rewrite Hshape.
    assert ((g_reg_every c + 1 =? 0)%Z = false) as -> by (apply Z.eqb_neq; lia).
    assert ((d_reg_every c + 1 =? 0)%Z = false) as -> by (apply Z.eqb_neq; lia).
    simpl.
    rewrite (py_pow_pos_exponent 0 _ (reg_ratio_pos _ Hg)).
    rewrite (py_pow_pos_exponent 0.99 _ (reg_ratio_pos _ Hg)).
    rewrite (py_pow_pos_exponent 0 _ (reg_ratio_pos _ Hd)).
    rewrite (py_pow_pos_exponent 0.99 _ (reg_ratio_pos _ Hd)).
    simpl. eexists. split; reflexivity.
  - intros Hc. unfold __init__, py_truediv. rewrite Hshape.
    destruct (g_reg_every c + 1 =? 0)%Z eqn:Eg; [reflexivity|].
    destruct (d_reg_every c + 1 =? 0)%Z eqn:Ed; [reflexivity|].
    apply Z.eqb_neq in Eg, Ed. lia.
Qed.

(** ** The epoch loop *)

(** The loop of [train] adds up the reports of [optimize] on the
    consecutive batches. *)
Lemma train_loop_optimize_all (data_loader : list images) :
  ∀ (batch_idx : Z) (running_loss : list Q) (s : State),
    train_loop batch_idx data_loader running_loss s =
    bind (optimize_all batch_idx data_loader)
         (λ reports, ret (foldl (zip_with Qplus) running_loss reports)) s.
Proof.
  induction data_loader as [|data rest IH]; intros batch_idx running_loss s.
  - reflexivity.
  - simpl. unfold bind.
    destruct (optimize batch_idx data s) as [[losses|e] s1]; [|reflexivity].
    rewrite IH. unfold bind.
    destruct (optimize_all (batch_idx + 1) rest s1) as [[more|e] s2]; reflexivity.
Qed.

(** C8, as [train] behaves.  On an empty data source the loop body never
    runs, nothing is raised, the state is untouched, and the sum of zeros
    is divided by the length zero: every entry of the report is [nan]. *)
Theorem train_empty (s : State) :
  train [] s = (Ok [np_nan; np_nan; np_nan; np_nan; np_nan; np_nan], s).
Proof. reflexivity. Qed.

(** ** Where the discriminator's adversarial gradient goes *)

Lemma mixing_noise_frame (batch_size latent_size : Z) (prob : Q) :
  preserves (λ s, (heap s, G s, D s, trace s, optimizer_G s, optimizer_D s))
            (mixing_noise batch_size latent_size prob).
Proof. frame. Qed.

Lemma elem_of_net_leaves (h : gmap nat Param) (handles : list nat) (k : nat) :
  k ∈ net_leaves h handles ↔
  k ∈ handles ∧ p_requires_grad <$> h !! k = Some true.
Proof.
  unfold net_leaves. rewrite elem_of_list_to_set, list_elem_of_filter. tauto.
Qed.

(** The state [backward_D_adv] ends in: the loss is backpropagated through
    a graph that reaches the parameters of both networks that require
    grad. *)
Lemma backward_D_adv_Ok (real_imgs : images) (batch_size latent_size : Z)
    (mixing : Q) (s s' : State) (loss : tensor Q) :
  backward_D_adv real_imgs batch_size latent_size mixing s = (Ok loss, s') →
  leaves loss = net_leaves (heap s) (D s) ∪ ∅ ∪
                (net_leaves (heap s) (D s) ∪ net_leaves (heap s) (G s)) ∧
  ∀ k, heap s' !! k =
       (λ q, if bool_decide (k ∈ leaves loss)
             then {| p_data := p_data q;
                     p_grad := p_grad q ++ [{| of_pass := D_adv; root := item loss |}];
                     p_requires_grad := p_requires_grad q |}
             else q) <$> heap s !! k.
Proof.
  unfold backward_D_adv. intros H.
  apply bind_Ok in H as (noise & s1 & Hn & H).
  pose proof (preserves_run _ _ _ _ _ (mixing_noise_frame _ _ _) Hn) as F.
  simpl in F. injection F as Eh EG ED _ _ _.
  apply bind_Ok in H as (fake_imgs & s2 & Hf & H).
  unfold call_G in Hf. apply bind_Ok in Hf as ([] & s3 & He & Hf).
  unfold emit in He. apply modify_Ok in He as ->.
  apply gets_Ok in Hf as [-> ->]. simpl in H.
  apply bind_Ok in H as (fake_pred & s2 & Hp & H). apply gets_Ok in Hp as [-> ->].
  apply bind_Ok in H as (real_pred & s2 & Hp & H). apply gets_Ok in Hp as [-> ->].
  apply bind_Ok in H as ([] & s2 & Hb & H). apply ret_Ok in H as [-> ->].
  simpl in *. rewrite Eh, EG, ED. split; [reflexivity|].
  intros k.
  match type of Hb with backward ?p ?l ?st = _ =>
    pose proof (backward_heap_lookup p l st k) as E;
    unfold final in E; rewrite Hb in E end.
  simpl in E. rewrite Eh, EG, ED in E. exact E.
Qed.

(** With the generator's parameters requiring grad, as they do from
    construction on, the discriminator's adversarial [backward()] adds its
    gradient to the [.grad] buffer of every generator parameter. *)
Lemma backward_D_adv_reaches_G (real_imgs : images) (batch_size latent_size : Z)
    (mixing : Q) (s s' : State) (loss : tensor Q) (k : nat) (p : Param) :
  backward_D_adv real_imgs batch_size latent_size mixing s = (Ok loss, s') →
  k ∈ G s → heap s !! k = Some p → p_requires_grad p = true →
  heap s' !! k =
    Some {| p_data := p_data p;
            p_grad := p_grad p ++ [{| of_pass := D_adv; root := item loss |}];
            p_requires_grad := true |}.
Proof.
  intros H Hk Hp Hr. apply backward_D_adv_Ok in H as (El & Eh).
  rewrite Eh, Hp. simpl.
  rewrite bool_decide_eq_true_2; [by rewrite Hr|].
  rewrite El. apply elem_of_union_r, elem_of_union_r.
  apply elem_of_net_leaves. split; [exact Hk|]. rewrite Hp. simpl. by rewrite Hr.
Qed.

Lemma requires_grad_lookup (model : net) (flag : bool) (s : State) (k : nat) :
  heap (final (requires_grad model flag) s) !! k =
  (if bool_decide (k ∈ parameters model s)
   then set_requires_grad flag <$> heap s !! k else heap s !! k).
Proof.
  unfold final, requires_grad, modify. simpl.
  apply alter_fold_lookup. reflexivity.
Qed.

(** Had [requires_grad(self.G, False)] been called first (the helper the
    class defines and never calls), the same pass would leave every
    generator parameter, buffer included, as it was. *)
Lemma backward_D_adv_with_frozen_G (real_imgs : images) (batch_size latent_size : Z)
    (mixing : Q) (s s' : State) (loss : tensor Q) (k : nat) :
  backward_D_adv real_imgs batch_size latent_size mixing
    (final (requires_grad NetG false) s) = (Ok loss, s') →
  k ∈ G s →
  heap s' !! k = heap (final (requires_grad NetG false) s) !! k.
Proof.
  intros H Hk. apply backward_D_adv_Ok in H as (El & Eh).
  rewrite Eh. rewrite bool_decide_eq_false_2.
  { destruct (heap _ !! k); reflexivity. }
  rewrite El. intros Hc.
  assert (∀ ks, k ∈ net_leaves (heap (final (requires_grad NetG false) s)) ks → False)
    as Hno.
  { intros ks Hin. apply elem_of_net_leaves in Hin as [_ Hin].
    rewrite requires_grad_lookup in Hin. simpl in Hin.
    rewrite bool_decide_eq_true_2 in Hin by exact Hk.
    destruct (heap s !! k); discriminate. }
  repeat (apply elem_of_union in Hc as [Hc|Hc]);
    try (by apply Hno in Hc); by apply not_elem_of_empty in Hc.
Qed.

(** ** Checkpoints *)

Lemma append_inv_head (a x y : string) : a +:+ x = a +:+ y → x = y.
Proof.
  induction a as [|c a IH]; simpl; intros H; [exact H|].
  injection H as H. by apply IH.
Qed.

(** The two artifacts of one epoch label never coincide. *)
Lemma checkpoint_paths_differ (dir epoch_label : string) :
  checkpoint_path dir "Generator" epoch_label ≠
  checkpoint_path dir "Discriminator" epoch_label.
Proof.
  unfold checkpoint_path, os_path_join. simpl.
  destruct (String.eqb dir ""); [discriminate|].
  destruct (String.eqb _ "/"); intros H; apply append_inv_head in H; discriminate.
Qed.

Lemma save_run (epoch_label : string) (s : State) :
  save epoch_label s =
  (Ok tt,
   set_files
     (<[checkpoint_path (log_dir (config s)) "Discriminator" epoch_label :=
          net_values (heap s) (D s)]>
        (<[checkpoint_path (log_dir (config s)) "Generator" epoch_label :=
             net_values (heap s) (G s)]> (files s))) s).
Proof. reflexivity. Qed.

Lemma load_frame (epoch_label : string) :
  preserves (λ s, (config s, G s, D s, optimizer_G s, optimizer_D s,
                   mean_path_length s, r1_loss s, path_loss s, path_lengths s,
                   files s, rng s, trace s))
            (load epoch_label).
Proof. frame. Qed.

Lemma net_values_cons (h : gmap nat Param) (k : nat) (ks : list nat) :
  net_values h (k :: ks) =
  match p_data <$> h !! k with
  | Some v => v :: net_values h ks
  | None => net_values h ks
  end.
Proof. reflexivity. Qed.

Lemma load_fold_other (ks : list nat) :
  ∀ (d : list pval) (h : gmap nat Param) (k : nat),
    k ∉ ks →
    foldl (λ h kv, alter (set_data kv.2) kv.1 h) h (zip ks d) !! k = h !! k.
Proof.
  induction ks as [|k0 ks IH]; intros d h k Hk; [reflexivity|].
  destruct d as [|v0 d]; [reflexivity|]. simpl.
  apply not_elem_of_cons in Hk as [Hne Hk].
  rewrite IH by exact Hk. apply lookup_alter_ne. congruence.
Qed.

(** [load_state_dict] on distinct, allocated parameters: afterwards they
    hold exactly the loaded values. *)
Lemma load_fold_values (ks : list nat) :
  ∀ (d : list pval) (h : gmap nat Param),
    NoDup ks → length d = length ks →
    Forall (λ k, is_Some (h !! k)) ks →
    net_values (foldl (λ h kv, alter (set_data kv.2) kv.1 h) h (zip ks d)) ks = d.
Proof.
  induction ks as [|k0 ks IH]; intros d h Hnd Hlen Hall.
  - destruct d; [reflexivity|discriminate].
  - destruct d as [|v0 d]; [discriminate|]. simpl in Hlen.
    apply NoDup_cons in Hnd as [Hk0 Hnd].
    apply Forall_cons in Hall as [[p0 Hp0] Hall].
    rewrite net_values_cons.
    assert (foldl (λ h kv, alter (set_data kv.2) kv.1 h) h (zip (k0 :: ks) (v0 :: d))
            = foldl (λ h kv, alter (set_data kv.2) kv.1 h)
                    (alter (set_data v0) k0 h) (zip ks d)) as -> by reflexivity.
    rewrite load_fold_other by exact Hk0.
    rewrite lookup_alter_eq, Hp0. simpl. f_equal.
    apply IH; [exact Hnd|lia|].
    eapply Forall_impl; [exact Hall|]. intros k [p Hp]. simpl.
    destruct (decide (k0 = k)) as [->|Hne].
    + rewrite lookup_alter_eq, Hp0. eauto.
    + rewrite lookup_alter_ne by exact Hne. eauto.
Qed.

Lemma load_network_run (network : net) (network_label epoch_label : string)
    (s : State) (d : list pval) :
  files s !! checkpoint_path (log_dir (config s)) network_label epoch_label = Some d →
  length d = length (parameters network s) →
  load_network network network_label epoch_label s =
  (Ok tt, set_heap (foldl (λ h kv, alter (set_data kv.2) kv.1 h) (heap s)
                          (zip (parameters network s) d)) s).
Proof.
  intros Hf Hlen. unfold load_network, bind, gets. simpl. rewrite Hf.
  unfold load_state_dict, bind, gets. simpl.
  apply Nat.eqb_eq in Hlen. rewrite Hlen. reflexivity.
Qed.

(** C6, as the checkpoint functions behave.  [save] writes two artifacts,
    the generator's and the discriminator's parameter values, and changes
    nothing else.  [load], in an object of the same architecture whose log
    directory holds them, returns and gives both networks exactly the saved
    values; the optimizers and [mean_path_length], [r1_loss], [path_loss]
    and [path_lengths] are not part of the checkpoint: after [load] they are
    those of the loading object. *)
Theorem checkpoint_roundtrip (epoch_label : string) (s s0 : State) :
  NoDup (G s0 ++ D s0) →
  Forall (λ k, is_Some (heap s0 !! k)) (G s0 ++ D s0) →
  log_dir (config s0) = log_dir (config s) →
  files s0 = files (final (save epoch_label) s) →
  length (net_values (heap s) (G s)) = length (G s0) →
  length (net_values (heap s) (D s)) = length (D s0) →
  save epoch_label s =
    (Ok tt,
     set_files
       (<[checkpoint_path (log_dir (config s)) "Discriminator" epoch_label :=
            net_values (heap s) (D s)]>
          (<[checkpoint_path (log_dir (config s)) "Generator" epoch_label :=
               net_values (heap s) (G s)]> (files s))) s) ∧
  ∃ s', load epoch_label s0 = (Ok tt, s') ∧
        net_values (heap s') (G s') = net_values (heap s) (G s) ∧
        net_values (heap s') (D s') = net_values (heap s) (D s) ∧
        optimizer_G s' = optimizer_G s0 ∧ optimizer_D s' = optimizer_D s0 ∧
        mean_path_length s' = mean_path_length s0 ∧
        r1_loss s' = r1_loss s0 ∧ path_loss s' = path_loss s0 ∧
        path_lengths s' = path_lengths s0.
Proof.
  intros Hnd Hall Hdir Hfiles HlG HlD.
  split; [apply save_run|].
  apply NoDup_app in Hnd as (HndG & Hdisj & HndD).
  apply Forall_app in Hall as [HallG HallD].
  unfold final in Hfiles. rewrite save_run in Hfiles. simpl in Hfiles.
  pose proof (checkpoint_paths_differ (log_dir (config s)) epoch_label) as Hne.
  assert (files s0 !! checkpoint_path (log_dir (config s0)) "Generator" epoch_label
          = Some (net_values (heap s) (G s))) as HfG.
  { rewrite Hfiles, Hdir. rewrite lookup_insert_ne by congruence.
    apply lookup_insert_eq. }
  assert (files s0 !! checkpoint_path (log_dir (config s0)) "Discriminator" epoch_label
          = Some (net_values (heap s) (D s))) as HfD.
  { rewrite Hfiles, Hdir. apply lookup_insert_eq. }
  pose proof (load_network_run NetG "Generator" epoch_label s0 _ HfG HlG) as RG.
  set (s1 := set_heap (foldl (λ h kv, alter (set_data kv.2) kv.1 h) (heap s0)
                             (zip (G s0) (net_values (heap s) (G s)))) s0) in *.
  pose proof (load_network_run NetD "Discriminator" epoch_label s1 _ HfD HlD) as RD.
  eexists. split.
  { unfold load. erewrite final_bind_Ok by exact RG. exact RD. }
  simpl. repeat split; try reflexivity.
  - etransitivity;
      [|apply (load_fold_values (G s0) (net_values (heap s) (G s)) (heap s0));
        auto].
    apply net_values_ext. intros k Hk.
    rewrite load_fold_other; [reflexivity|]. by apply Hdisj.
  - apply load_fold_values; auto.
    apply Forall_forall. intros k Hk.
    rewrite load_fold_other.
    + by apply (proj1 (Forall_forall _ _) HallD).
    + intros Hin. by apply (Hdisj k).
Qed.

(** ** What an optimizer step finds in the gradient buffers *)

Lemma Adam_step_fold_meta (hy : AdamHyper) (group : list nat) :
  ∀ (st : gmap nat moments * gmap nat Param) (k : nat),
    (λ p, (p_grad p, p_requires_grad p)) <$> (foldl (Adam_step_param hy) st group).2 !! k
    = (λ p, (p_grad p, p_requires_grad p)) <$> st.2 !! k.
Proof.
  induction group as [|x xs IH]; intros st k; simpl; [reflexivity|].
  rewrite IH. unfold Adam_step_param.
  destruct (st.2 !! x) as [p|] eqn:E; [|reflexivity]. simpl.
  destruct (decide (x = k)) as [->|Hne].
  - rewrite lookup_insert_eq, E. reflexivity.
  - by rewrite lookup_insert_ne.
Qed.

(** [step] rewrites values only: buffers and flags stay, and no parameter
    appears or disappears. *)
Lemma step_meta (o : net) (s : State) (k : nat) :
  (λ p, (p_grad p, p_requires_grad p)) <$> heap (final (step o) s) !! k
  = (λ p, (p_grad p, p_requires_grad p)) <$> heap s !! k.
Proof.
  unfold final. rewrite step_run. simpl. apply Adam_step_fold_meta.
Qed.

Lemma backward_D_adv_trace (real_imgs : images) (batch_size latent_size : Z)
    (mixing : Q) (s s' : State) (loss : tensor Q) :
  backward_D_adv real_imgs batch_size latent_size mixing s = (Ok loss, s') →
  ∃ noise, trace s' =
           trace s ++ [EvGenerate noise false; EvBackward D_adv (item loss)].
Proof.
  unfold backward_D_adv. intros H.
  apply bind_Ok in H as (noise & s1 & Hn & H).
  pose proof (preserves_run _ _ _ _ _ (mixing_noise_frame _ _ _) Hn) as F.
  simpl in F. injection F as _ _ _ Et _ _.
  apply bind_Ok in H as (fake_imgs & s2 & Hf & H).
  unfold call_G in Hf. apply bind_Ok in Hf as ([] & s3 & He & Hf).
  unfold emit in He. apply modify_Ok in He as ->.
  apply gets_Ok in Hf as [-> ->].
  apply bind_Ok in H as (fake_pred & s2 & Hp & H). apply gets_Ok in Hp as [-> ->].
  apply bind_Ok in H as (real_pred & s2 & Hp & H). apply gets_Ok in Hp as [-> ->].
  apply bind_Ok in H as ([] & s2 & Hb & H). apply ret_Ok in H as [-> ->].
  unfold backward, bind, modify, emit in Hb. simpl in Hb.
  injection Hb as <-. simpl. exists noise.
  rewrite Et, <- app_assoc. reflexivity.
Qed.

(** The state [backward_G_adv] ends in: the generator's adversarial loss is
    backpropagated through the discriminator into the generator, and
    reaches the parameters of both networks that require grad. *)
Lemma backward_G_adv_Ok (batch_size latent_size : Z) (mixing : Q)
    (s s' : State) (loss : tensor Q) :
  backward_G_adv batch_size latent_size mixing s = (Ok loss, s') →
  leaves loss = net_leaves (heap s) (D s) ∪ net_leaves (heap s) (G s) ∧
  (∃ noise, trace s' =
            trace s ++ [EvGenerate noise false; EvBackward G_adv (item loss)]) ∧
  ∀ k, heap s' !! k =
       (λ q, if bool_decide (k ∈ leaves loss)
             then {| p_data := p_data q;
                     p_grad := p_grad q ++ [{| of_pass := G_adv; root := item loss |}];
                     p_requires_grad := p_requires_grad q |}
             else q) <$> heap s !! k.
Proof.
  unfold backward_G_adv. intros H.
  apply bind_Ok in H as (noise & s1 & Hn & H).
  pose proof (preserves_run _ _ _ _ _ (mixing_noise_frame _ _ _) Hn) as F.
  simpl in F. injection F as Eh EG ED Et _ _.
  apply bind_Ok in H as (fake_imgs & s2 & Hf & H).
  unfold call_G in Hf. apply bind_Ok in Hf as ([] & s3 & He & Hf).
  unfold emit in He. apply modify_Ok in He as ->.
  apply gets_Ok in Hf as [-> ->]. simpl in H.
  apply bind_Ok in H as (fake_pred & s2 & Hp & H). apply gets_Ok in Hp as [-> ->].
  apply bind_Ok in H as ([] & s2 & Hb & H). apply ret_Ok in H as [-> ->].
  simpl in *. rewrite Eh, EG, ED. split; [reflexivity|]. split.
  - unfold backward, bind, modify, emit in Hb. simpl in Hb.
    injection Hb as <-. simpl. exists noise.
    rewrite Et, <- app_assoc, Eh, EG, ED. reflexivity.
  - intros k.
    match type of Hb with backward ?p ?l ?st = _ =>
      pose proof (backward_heap_lookup p l st k) as E;
      unfold final in E; rewrite Hb in E end.
    simpl in E. rewrite Eh, EG, ED in E. exact E.
Qed.

(** X1.  The generator's adversarial [backward()] also writes into the
    discriminator.  Every discriminator parameter that requires grad gets
    the gradient of the generator's loss appended to its [.grad] buffer. *)
Theorem backward_G_adv_reaches_D (batch_size latent_size : Z) (mixing : Q)
    (s s' : State) (loss : tensor Q) (k : nat) (p : Param) :
  backward_G_adv batch_size latent_size mixing s = (Ok loss, s') →
  k ∈ D s → heap s !! k = Some p → p_requires_grad p = true →
  heap s' !! k =
    Some {| p_data := p_data p;
            p_grad := p_grad p ++ [{| of_pass := G_adv; root := item loss |}];
            p_requires_grad := true |}.
Proof.
  intros H Hk Hp Hr. apply backward_G_adv_Ok in H as (El & _ & Eh).
  rewrite Eh, Hp. simpl.
  rewrite bool_decide_eq_true_2; [by rewrite Hr|].
  rewrite El. apply elem_of_union_l.
  apply elem_of_net_leaves. split; [exact Hk|]. rewrite Hp. simpl. by rewrite Hr.
Qed.

Lemma zero_grad_lookup_own (o : net) (s : State) (k : nat) :
  k ∈ param_group (optimizer o s) →
  heap (final (zero_grad o) s) !! k = zero_param <$> heap s !! k.
Proof.
  intros Hk. unfold final. rewrite zero_grad_run. simpl.
  rewrite Adam_zero_grad_lookup. by rewrite bool_decide_eq_true_2.
Qed.

Lemma zero_grad_handles (o : net) : preserves handles (zero_grad o).
Proof. frame. Qed.

(** X2.  The discriminator's step uses its adversarial gradient and nothing
    else.  Whatever earlier passes have left in the buffers (the generator's
    passes write there too), after [# update Discriminator] the buffer of
    every discriminator parameter that requires grad holds exactly the one
    contribution of [d_adv_loss]; [step] leaves buffers as it finds them, so
    this is what the step has consumed. *)
Theorem update_Discriminator_own_gradient (real_imgs : images) (s s' : State)
    (d_adv_loss : tensor Q) (k : nat) (p : Param) :
  wf s →
  update_Discriminator real_imgs s = (Ok d_adv_loss, s') →
  k ∈ D s → heap s !! k = Some p → p_requires_grad p = true →
  p_grad <$> heap s' !! k =
    Some [{| of_pass := D_adv; root := item d_adv_loss |}].
Proof.
  intros (_ & HD & _) H Hk Hp Hr. unfold update_Discriminator in H.
  apply bind_Ok in H as (c & s0 & Hc & H). apply gets_Ok in Hc as [-> ->].
  apply bind_Ok in H as (l & s0 & Hl & H). apply gets_Ok in Hl as [-> ->].
  apply bind_Ok in H as ([] & s1 & Hz & H).
  apply bind_Ok in H as (loss & s2 & Hb & H).
  apply bind_Ok in H as ([] & s3 & Hs & H). apply ret_Ok in H as [-> ->].
  assert (heap s1 !! k = Some (zero_param p)) as Hp1.
  { pose proof (zero_grad_lookup_own NetD s k) as E. unfold final in E.
    rewrite Hz in E. simpl in E. rewrite E, Hp; [reflexivity|].
    by rewrite HD. }
  pose proof (preserves_run _ _ _ _ _ (zero_grad_handles NetD) Hz) as Fh.
  unfold handles in Fh. injection Fh as _ ED _ _.
  apply backward_D_adv_Ok in Hb as (El & Eh).
  assert (heap s2 !! k =
          Some {| p_data := p_data p;
                  p_grad := [{| of_pass := D_adv; root := item loss |}];
                  p_requires_grad := p_requires_grad p |}) as Hp2.
  { rewrite Eh, Hp1. simpl. rewrite bool_decide_eq_true_2; [reflexivity|].
    rewrite El. apply elem_of_union_l, elem_of_union_l.
    apply elem_of_net_leaves. rewrite ED, Hp1. simpl. by rewrite Hr. }
  pose proof (step_meta NetD s2 k) as E. unfold final in E.
  rewrite Hs, Hp2 in E. simpl in E.
  destruct (heap s3 !! k) as [q|]; [|discriminate].
  simpl in *. congruence.
Qed.

(** X3.  Likewise for the generator.  After [# update Generator] the buffer
    of every generator parameter that requires grad holds exactly the one
    contribution of [g_adv_loss]: what the discriminator's passes had
    written there has been zeroed before the generator's own pass. *)
Theorem update_Generator_own_gradient (s s' : State) (g_adv_loss : tensor Q)
    (k : nat) (p : Param) :
  wf s →
  update_Generator s = (Ok g_adv_loss, s') →
  k ∈ G s → heap s !! k = Some p → p_requires_grad p = true →
  p_grad <$> heap s' !! k =
    Some [{| of_pass := G_adv; root := item g_adv_loss |}].
Proof.
  intros (HG & _ & _) H Hk Hp Hr. unfold update_Generator in H.
  apply bind_Ok in H as (c & s0 & Hc & H). apply gets_Ok in Hc as [-> ->].
  apply bind_Ok in H as (l & s0 & Hl & H). apply gets_Ok in Hl as [-> ->].
  apply bind_Ok in H as ([] & s1 & Hz & H).
  apply bind_Ok in H as (loss & s2 & Hb & H).
  apply bind_Ok in H as ([] & s3 & Hs & H). apply ret_Ok in H as [-> ->].
  assert (heap s1 !! k = Some (zero_param p)) as Hp1.
  { pose proof (zero_grad_lookup_own NetG s k) as E. unfold final in E.
    rewrite Hz in E. simpl in E. rewrite E, Hp; [reflexivity|].
    by rewrite HG. }
  pose proof (preserves_run _ _ _ _ _ (zero_grad_handles NetG) Hz) as Fh.
  unfold handles in Fh. injection Fh as EG _ _ _.
  apply backward_G_adv_Ok in Hb as (El & _ & Eh).
  assert (heap s2 !! k =
          Some {| p_data := p_data p;
                  p_grad := [{| of_pass := G_adv; root := item loss |}];
                  p_requires_grad := p_requires_grad p |}) as Hp2.
  { rewrite Eh, Hp1. simpl. rewrite bool_decide_eq_true_2; [reflexivity|].
    rewrite El. apply elem_of_union_r.
    apply elem_of_net_leaves. rewrite EG, Hp1. simpl. by rewrite Hr. }
  pose proof (step_meta NetG s2 k) as E. unfold final in E.
  rewrite Hs, Hp2 in E. simpl in E.
  destruct (heap s3 !! k) as [q|]; [|discriminate].
  simpl in *. congruence.
Qed.

(** ** The order of the calls in one batch *)

Lemma count_backward_app (p : pass) (t u : list event) :
  count_backward p (t ++ u) = (count_backward p t + count_backward p u)%nat.
Proof.
  induction t as [|e t IH]; simpl; [reflexivity|].
  destruct e; rewrite IH; lia.
Qed.

Lemma last_root_app (p : pass) (t u : list event) :
  last_root p (t ++ u) =
  match last_root p u with Some x => Some x | None => last_root p t end.
Proof.
  induction t as [|e t IH]; simpl.
  - destruct (last_root p u); reflexivity.
  - destruct e; rewrite IH; try reflexivity.
    destruct (last_root p u); [reflexivity|]. reflexivity.
Qed.

Lemma update_Discriminator_trace (real_imgs : images) (s s' : State)
    (d_adv_loss : tensor Q) :
  update_Discriminator real_imgs s = (Ok d_adv_loss, s') →
  ∃ noise, trace s' = trace s ++
    [EvZeroGrad NetD; EvGenerate noise false;
     EvBackward D_adv (item d_adv_loss); EvStep NetD].
Proof.
  unfold update_Discriminator. intros H.
  apply bind_Ok in H as (c & s0 & Hc & H). apply gets_Ok in Hc as [-> ->].
  apply bind_Ok in H as (l & s0 & Hl & H). apply gets_Ok in Hl as [-> ->].
  apply bind_Ok in H as ([] & s1 & Hz & H).
  rewrite zero_grad_run in Hz. injection Hz as <-.
  apply bind_Ok in H as (loss & s2 & Hb & H).
  apply bind_Ok in H as ([] & s3 & Hs & H). apply ret_Ok in H as [-> ->].
  rewrite step_run in Hs. injection Hs as <-.
  apply backward_D_adv_trace in Hb as (noise & Ht). simpl in Ht.
  exists noise. simpl. rewrite Ht, <- !app_assoc. reflexivity.
Qed.

Lemma update_Generator_trace (s s' : State) (g_adv_loss : tensor Q) :
  update_Generator s = (Ok g_adv_loss, s') →
  ∃ noise, trace s' = trace s ++
    [EvZeroGrad NetG; EvGenerate noise false;
     EvBackward G_adv (item g_adv_loss); EvStep NetG].
Proof.
  unfold update_Generator. intros H.
  apply bind_Ok in H as (c & s0 & Hc & H). apply gets_Ok in Hc as [-> ->].
  apply bind_Ok in H as (l & s0 & Hl & H). apply gets_Ok in Hl as [-> ->].
  apply bind_Ok in H as ([] & s1 & Hz & H).
  rewrite zero_grad_run in Hz. injection Hz as <-.
  apply bind_Ok in H as (loss & s2 & Hb & H).
  apply bind_Ok in H as ([] & s3 & Hs & H). apply ret_Ok in H as [-> ->].
  rewrite step_run in Hs. injection Hs as <-.
  apply backward_G_adv_Ok in Hb as (_ & (noise & Ht) & _). simpl in Ht.
  exists noise. simpl. rewrite Ht, <- !app_assoc. reflexivity.
Qed.

(** What [backward_G_path] backpropagates: reaching the [backward()] call
    means the floor division went through, so the shrink factor is not
    zero and the zero-valued pixel term is always part of the root. *)
Lemma backward_G_path_trace (batch_size latent_size : Z) (mixing : Q)
    (path_batch_shrink : Z) (prior : tensor Q) (path_regularize : Q) (g_reg_every : Z)
    (s s' : State) (r : tensor Q * tensor Q * tensor (list Q)) :
  backward_G_path batch_size latent_size mixing path_batch_shrink prior
    path_regularize g_reg_every s = (Ok r, s') →
  path_batch_shrink ≠ 0%Z ∧
  ∃ noise pixel, trace s' = trace s ++
    [EvGenerate noise true;
     EvBackward G_path (path_regularize * inject_Z g_reg_every * item r.1.1
                        + 0 * pixel)%Q].
Proof.
  unfold backward_G_path. intros H.
  apply bind_Ok in H as (n & s1 & Hq & H).
  unfold lift, path_batch_size, py_floordiv in Hq.
  destruct (path_batch_shrink =? 0)%Z eqn:Ek; [discriminate|].
  injection Hq as <- <-.
  apply bind_Ok in H as (noise & s2 & Hn & H).
  pose proof (preserves_run _ _ _ _ _ (mixing_noise_frame _ _ _) Hn) as F.
  simpl in F. injection F as _ _ _ Et _ _.
  apply bind_Ok in H as (out & s3 & Hout & H).
  unfold call_G_dlatents in Hout.
  apply bind_Ok in Hout as ([] & s4 & He & Hout).
  unfold emit in He. apply modify_Ok in He as ->.
  apply gets_Ok in Hout as [-> ->].
  apply bind_Ok in H as ([] & s5 & Hb & H). apply ret_Ok in H as [-> ->].
  unfold backward, bind, modify, emit in Hb. simpl in Hb.
  injection Hb as <-. simpl.
  split; [by apply Z.eqb_neq|].
  eexists noise, _. rewrite Et, <- app_assoc. reflexivity.
Qed.

(** The path block on a batch where it fires, with its calls. *)
Lemma regularize_Generator_fire_trace (batch_idx : Z) (s s' : State) (u : unit) :
  regularize_Generator batch_idx s = (Ok u, s') →
  (batch_idx mod g_reg_every (config s))%Z = 0%Z →
  path_batch_shrink (config s) ≠ 0%Z ∧
  ∃ noise pixel, trace s' = trace s ++
    [EvZeroGrad NetG; EvGenerate noise true;
     EvBackward G_path (path_regularize (config s)
                        * inject_Z (g_reg_every (config s)) * item (path_loss s')
                        + 0 * pixel)%Q;
     EvStep NetG].
Proof.
  unfold regularize_Generator. intros H Hm. destruct u.
  apply bind_Ok in H as (c & s1 & Hc & H). apply gets_Ok in Hc as [-> ->].
  apply bind_Ok in H as (l & s1 & Hl & H). apply gets_Ok in Hl as [-> ->].
  apply bind_Ok in H as (m & s1 & Hmod & H).
  unfold lift, py_mod in Hmod.
  destruct (g_reg_every (config s) =? 0)%Z; [discriminate|].
  injection Hmod as <- <-. rewrite Hm in H. simpl in H.
  apply bind_Ok in H as ([] & s1 & Hz & H).
  rewrite zero_grad_run in Hz. injection Hz as <-.
  apply bind_Ok in H as (prior & s2 & Hp & H). apply gets_Ok in Hp as [-> ->].
  apply bind_Ok in H as (r & s2 & Hb & H).
  apply bind_Ok in H as ([] & s3 & Hset & H). apply modify_Ok in Hset as ->.
  rewrite step_run in H. injection H as <-.
  apply backward_G_path_trace in Hb as (Hk & noise & pixel & Ht).
  simpl in Hk, Ht. split; [exact Hk|].
  exists noise, pixel. simpl. rewrite Ht, <- !app_assoc. reflexivity.
Qed.

(** The calls of one batch that returned, with their payloads. *)
Lemma optimize_trace (batch_idx : Z) (data : images) (s s' : State)
    (losses : list Q) :
  optimize batch_idx data s = (Ok losses, s') →
  ∃ n1 x1 n3 x3 tail_d tail_g,
    trace s' = trace s ++
      [EvZeroGrad NetD; EvGenerate n1 false; EvBackward D_adv x1; EvStep NetD] ++
      tail_d ++
      [EvZeroGrad NetG; EvGenerate n3 false; EvBackward G_adv x3; EvStep NetG] ++
      tail_g ∧
    (if (batch_idx mod d_reg_every (config s) =? 0)%Z
     then ∃ x, tail_d = [EvZeroGrad NetD; EvBackward D_r1 x; EvStep NetD]
     else tail_d = []) ∧
    (if (batch_idx mod g_reg_every (config s) =? 0)%Z
     then ∃ n pixel,
       tail_g = [EvZeroGrad NetG; EvGenerate n true;
                 EvBackward G_path
                   (path_regularize (config s) * inject_Z (g_reg_every (config s))
                    * item (path_loss s') + 0 * pixel)%Q;
                 EvStep NetG]
     else tail_g = []).
Proof.
  intros H.
  apply optimize_Ok in H as (l1 & l3 & s1 & s2 & s3 & H1 & H2 & H3 & H4 & ->).
  pose proof (preserves_run _ _ _ _ _ (update_Discriminator_report_frame data) H1) as F1.
  pose proof (preserves_run _ _ _ _ _ (regularize_Discriminator_path_frame batch_idx data) H2) as F2.
  pose proof (preserves_run _ _ _ _ _ update_Generator_report_frame H3) as F3.
  simpl in F1, F2, F3.
  injection F1 as C1 _ _ _ _ _. injection F2 as C2 _ _ _ _.
  injection F3 as C3 _ _ _ _ _.
  apply update_Discriminator_trace in H1 as (n1 & T1).
  apply update_Generator_trace in H3 as (n3 & T3).
  assert (∃ tail_d, trace s2 = trace s1 ++ tail_d ∧
            if (batch_idx mod d_reg_every (config s) =? 0)%Z
            then ∃ x, tail_d = [EvZeroGrad NetD; EvBackward D_r1 x; EvStep NetD]
            else tail_d = []) as (tail_d & T2 & Hd).
  { rewrite <- C1.
    destruct (Z.eqb_spec (batch_idx mod d_reg_every (config s1)) 0) as [Hm|Hm].
    - pose proof (regularize_Discriminator_fire _ _ _ _ _ H2 Hm) as (_ & p0 & _ & Ht).
      eexists. split; [exact Ht|]. eauto.
    - pose proof (regularize_Discriminator_skip _ _ _ _ _ H2 Hm) as ->.
      exists []. split; [by rewrite app_nil_r|reflexivity]. }
  assert (∃ tail_g, trace s' = trace s3 ++ tail_g ∧
            if (batch_idx mod g_reg_every (config s) =? 0)%Z
            then ∃ n pixel,
              tail_g = [EvZeroGrad NetG; EvGenerate n true;
                        EvBackward G_path
                          (path_regularize (config s)
                           * inject_Z (g_reg_every (config s))
                           * item (path_loss s') + 0 * pixel)%Q;
                        EvStep NetG]
            else tail_g = []) as (tail_g & T4 & Hg).
  { rewrite <- C1, <- C2, <- C3.
    destruct (Z.eqb_spec (batch_idx mod g_reg_every (config s3)) 0) as [Hm|Hm].
    - pose proof (regularize_Generator_fire_trace _ _ _ _ H4 Hm)
        as (_ & n & pixel & Ht).
      eexists. split; [exact Ht|]. eauto.
    - pose proof (regularize_Generator_skip _ _ _ _ H4 Hm) as ->.
      exists []. split; [by rewrite app_nil_r|reflexivity]. }
  exists n1, (item l1), n3, (item l3), tail_d, tail_g.
  split; [|split; assumption].
  rewrite T4, T3, T2, T1, <- !app_assoc. reflexivity.
Qed.

(** X4.  The order of the calls in a batch.  A batch that returns appends to
    the trace exactly the calls of [protocol]: zero the discriminator's
    gradients, generate, backward, step; the R1 triple when its cadence
    fires; the same four calls for the generator; the path-length calls
    when its cadence fires.  Nothing else is called and nothing is
    reordered. *)
Theorem optimize_follows_protocol (batch_idx : Z) (data : images) (s s' : State)
    (losses : list Q) :
  optimize batch_idx data s = (Ok losses, s') →
  ∃ evs, trace s' = trace s ++ evs ∧
         map kind evs =
           protocol (batch_idx mod d_reg_every (config s) =? 0)%Z
                    (batch_idx mod g_reg_every (config s) =? 0)%Z.
Proof.
  intros H.
  apply optimize_trace in H
    as (n1 & x1 & n3 & x3 & tail_d & tail_g & Ht & Hd & Hg).
  eexists. split; [exact Ht|]. unfold protocol.
  destruct (batch_idx mod d_reg_every (config s) =? 0)%Z;
    destruct (batch_idx mod g_reg_every (config s) =? 0)%Z.
  - destruct Hd as (x & ->). destruct Hg as (n & px & ->). reflexivity.
  - destruct Hd as (x & ->). subst tail_g. reflexivity.
  - subst tail_d. destruct Hg as (n & px & ->). reflexivity.
  - subst tail_d tail_g. reflexivity.
Qed.

(** X5.  The path-length pass, its cadence and its loss.  In a batch that
    returns, the path pass runs its [backward()] exactly when
    [batch_idx % g_reg_every == 0].  When it runs, the stored [path_loss] is
    the mean squared distance of this batch's path lengths from the updated
    running mean, and the scalar backpropagated is
    [path_regularize * g_reg_every * path_loss] plus zero times a generated
    pixel; the shrink factor is then not zero. *)
Theorem path_pass_cadence_and_loss (batch_idx : Z) (data : images) (s s' : State)
    (losses : list Q) :
  optimize batch_idx data s = (Ok losses, s') →
  count_backward G_path (trace s') =
    (count_backward G_path (trace s) +
     (if (batch_idx mod g_reg_every (config s) =? 0)%Z then 1 else 0))%nat ∧
  ((batch_idx mod g_reg_every (config s))%Z = 0%Z →
     path_batch_shrink (config s) ≠ 0%Z ∧
     item (path_loss s') =
       Qmean (map (λ x, Qsq (x - item (mean_path_length s')))
                  (item (path_lengths s'))) ∧
     ∃ pixel x,
       last_root G_path (trace s') = Some x ∧
       x = (path_regularize (config s) * inject_Z (g_reg_every (config s))
            * item (path_loss s') + 0 * pixel)%Q ∧
       (x == path_regularize (config s) * inject_Z (g_reg_every (config s))
             * item (path_loss s'))%Q).
Proof.
  intros H.
  pose proof (optimize_trace _ _ _ _ _ H)
    as (n1 & x1 & n3 & x3 & tail_d & tail_g & Ht & Hd & Hg).
  apply optimize_Ok in H as (l1 & l3 & s1 & s2 & s3 & H1 & H2 & H3 & H4 & ->).
  pose proof (preserves_run _ _ _ _ _ (update_Discriminator_report_frame data) H1) as F1.
  pose proof (preserves_run _ _ _ _ _ (regularize_Discriminator_path_frame batch_idx data) H2) as F2.
  pose proof (preserves_run _ _ _ _ _ update_Generator_report_frame H3) as F3.
  simpl in F1, F2, F3.
  injection F1 as C1 _ _ _ _ _. injection F2 as C2 _ _ _ _.
  injection F3 as C3 _ _ _ _ _.
  assert (count_backward G_path tail_d = 0%nat ∧ last_root G_path tail_d = None)
    as [Cd Ld].
  { destruct (batch_idx mod d_reg_every (config s) =? 0)%Z.
    - destruct Hd as (x & ->). split; reflexivity.
    - subst tail_d. split; reflexivity. }
  rewrite Ht. rewrite !count_backward_app, !last_root_app, Cd, Ld. simpl.
  destruct (Z.eqb_spec (batch_idx mod g_reg_every (config s)) 0) as [Hm|Hm].
  - destruct Hg as (n & pixel & ->). simpl. split; [lia|]. intros _.
    assert ((batch_idx mod g_reg_every (config s3))%Z = 0%Z) as Hm3
      by (rewrite C3, C2, C1; exact Hm).
    pose proof (regularize_Generator_fire_trace _ _ _ _ H4 Hm3) as (Hk & _).
    pose proof (regularize_Generator_fire _ _ _ _ H4 Hm3) as (Em & El & _).
    rewrite C3, C2, C1 in Hk. split; [exact Hk|]. split.
    + rewrite El, Em. reflexivity.
    + exists pixel. eexists. split; [reflexivity|]. split; [reflexivity|ring].
  - subst tail_g. simpl. split; [lia|]. intros Hc. contradiction.
Qed.

(** X6.  A shrink factor of zero.  With [path_batch_shrink = 0], which the
    constructor does not refuse, the path pass raises [ZeroDivisionError]
    at [batch_size // path_batch_shrink], before any random number is
    drawn, and on a batch where the path block fires the block stops right
    after zeroing the generator's gradients: the stored path statistics are
    untouched and no generator step is taken. *)
Theorem zero_shrink_raises (batch_idx : Z) (s : State) :
  path_batch_shrink (config s) = 0%Z →
  g_reg_every (config s) ≠ 0%Z →
  (batch_idx mod g_reg_every (config s))%Z = 0%Z →
  (∀ batch_size latent_size mixing prior path_regularize g_reg_every s0,
     backward_G_path batch_size latent_size mixing 0 prior path_regularize
       g_reg_every s0 = (Raise ZeroDivisionError, s0)) ∧
  regularize_Generator batch_idx s
    = (Raise ZeroDivisionError, final (zero_grad NetG) s).
Proof.
  intros Hk Hg Hm. split; [reflexivity|].
  unfold regularize_Generator, bind, gets, lift, py_mod. simpl.
  apply Z.eqb_neq in Hg. rewrite Hg, Hm. simpl. rewrite Hk. reflexivity.
Qed.

(** ** When a batch returns *)

Lemma backward_D_adv_returns (real_imgs : images) (batch_size latent_size : Z)
    (mixing : Q) (s : State) :
  (0 ≤ batch_size)%Z → (0 ≤ latent_size)%Z →
  ∃ loss s', backward_D_adv real_imgs batch_size latent_size mixing s = (Ok loss, s').
Proof.
  intros Hb Hl.
  destruct (mixing_noise_Ok batch_size latent_size mixing s Hb Hl)
    as (noise & r & Hn & _).
  unfold backward_D_adv. unfold bind at 1. rewrite Hn.
  eexists _, _. reflexivity.
Qed.

Lemma backward_G_adv_returns (batch_size latent_size : Z) (mixing : Q) (s : State) :
  (0 ≤ batch_size)%Z → (0 ≤ latent_size)%Z →
  ∃ loss s', backward_G_adv batch_size latent_size mixing s = (Ok loss, s').
Proof.
  intros Hb Hl.
  destruct (mixing_noise_Ok batch_size latent_size mixing s Hb Hl)
    as (noise & r & Hn & _).
  unfold backward_G_adv. unfold bind at 1. rewrite Hn.
  eexists _, _. reflexivity.
Qed.

Lemma backward_D_r1_returns (real_imgs : images) (r1 : Q) (d_reg_every : Z)
    (s : State) :
  D_scores (net_values (heap s) (D s)) real_imgs ≠ [] →
  ∃ l s', backward_D_r1 real_imgs r1 d_reg_every s = (Ok l, s').
Proof.
  intros Hne. unfold backward_D_r1, call_D, grad_wrt_input, first, bind, gets.
  simpl. destruct (D_scores _ real_imgs) as [|p0 scores]; [contradiction|].
  eexists _, _. reflexivity.
Qed.

Lemma backward_G_path_returns (batch_size latent_size : Z) (mixing : Q)
    (path_batch_shrink : Z) (prior : tensor Q) (path_regularize : Q)
    (g_reg_every : Z) (s : State) :
  path_batch_shrink ≠ 0%Z → (0 ≤ latent_size)%Z →
  ∃ r s', backward_G_path batch_size latent_size mixing path_batch_shrink prior
            path_regularize g_reg_every s = (Ok r, s').
Proof.
  intros Hk Hl. unfold backward_G_path.
  unfold bind at 1. unfold lift. rewrite (path_batch_size_Ok _ _ Hk).
  destruct (mixing_noise_Ok (Z.max 1 (batch_size / path_batch_shrink)) latent_size
              mixing s) as (noise & r & Hn & _); [lia|assumption|].
  unfold bind at 1. rewrite Hn.
  eexists _, _. reflexivity.
Qed.

Lemma update_Discriminator_returns (real_imgs : images) (s : State) :
  (0 ≤ batch_size (config s))%Z → (0 ≤ latent_size s)%Z →
  ∃ l s', update_Discriminator real_imgs s = (Ok l, s').
Proof.
  intros Hb Hl. unfold update_Discriminator.
  unfold bind at 1, gets at 1. unfold bind at 1, gets at 1.
  unfold bind at 1. rewrite zero_grad_run.
  match goal with |- context [backward_D_adv ?a ?b ?c ?d] =>
    destruct (backward_D_adv_returns a b c d
      (set_trace (trace s ++ [EvZeroGrad NetD])
         (set_heap (Adam_zero_grad (optimizer NetD s) (heap s)) s)) Hb Hl)
      as (loss & s2 & Hr) end.
  unfold bind at 1. rewrite Hr.
  eexists _, _. reflexivity.
Qed.

Lemma update_Generator_returns (s : State) :
  (0 ≤ batch_size (config s))%Z → (0 ≤ latent_size s)%Z →
  ∃ l s', update_Generator s = (Ok l, s').
Proof.
  intros Hb Hl. unfold update_Generator.
  unfold bind at 1, gets at 1. unfold bind at 1, gets at 1.
  unfold bind at 1. rewrite zero_grad_run.
  match goal with |- context [backward_G_adv ?b ?c ?d] =>
    destruct (backward_G_adv_returns b c d
      (set_trace (trace s ++ [EvZeroGrad NetG])
         (set_heap (Adam_zero_grad (optimizer NetG s) (heap s)) s)) Hb Hl)
      as (loss & s2 & Hr) end.
  unfold bind at 1. rewrite Hr.
  eexists _, _. reflexivity.
Qed.

Lemma regularize_Discriminator_returns (batch_idx : Z) (real_imgs : images)
    (s : State) :
  d_reg_every (config s) ≠ 0%Z →
  (∀ ps, D_scores ps real_imgs ≠ []) →
  ∃ s', regularize_Discriminator batch_idx real_imgs s = (Ok tt, s').
Proof.
  intros Hd Hne. unfold regularize_Discriminator.
  unfold bind at 1, gets at 1. unfold bind at 1, lift, py_mod.
  apply Z.eqb_neq in Hd. rewrite Hd.
  destruct (batch_idx mod d_reg_every (config s) =? 0)%Z; [|eexists; reflexivity].
  unfold bind at 1. rewrite zero_grad_run.
  match goal with |- context [backward_D_r1 ?a ?b ?c] =>
    destruct (backward_D_r1_returns a b c
      (set_trace (trace s ++ [EvZeroGrad NetD])
         (set_heap (Adam_zero_grad (optimizer NetD s) (heap s)) s)) (Hne _))
      as (l & s2 & Hr) end.
  unfold bind at 1. rewrite Hr.
  eexists. reflexivity.
Qed.

Lemma regularize_Generator_returns (batch_idx : Z) (s : State) :
  g_reg_every (config s) ≠ 0%Z →
  path_batch_shrink (config s) ≠ 0%Z →
  (0 ≤ latent_size s)%Z →
  ∃ s', regularize_Generator batch_idx s = (Ok tt, s').
Proof.
  intros Hg Hk Hl. unfold regularize_Generator.
  unfold bind at 1, gets at 1. unfold bind at 1, gets at 1.
  unfold bind at 1, lift, py_mod.
  apply Z.eqb_neq in Hg. rewrite Hg.
  destruct (batch_idx mod g_reg_every (config s) =? 0)%Z; [|eexists; reflexivity].
  unfold bind at 1. rewrite zero_grad_run.
  unfold bind at 1, gets at 1.
  match goal with |- context [backward_G_path ?a ?b ?c ?d ?e ?f ?g] =>
    destruct (backward_G_path_returns a b c d e f g
      (set_trace (trace s ++ [EvZeroGrad NetG])
         (set_heap (Adam_zero_grad (optimizer NetG s) (heap s)) s)) Hk Hl)
      as (r & s2 & Hr) end.
  unfold bind at 1. rewrite Hr.
  eexists. reflexivity.
Qed.

(** X7.  When the blocks of a batch return.  With a batch size and a latent
    size that are not negative, cadences and a shrink factor that are not
    zero, and a discriminator that gives at least one score for the batch,
    none of the four blocks of [optimize] raises, for every batch index and
    every state: each returns from the state the one before has left, and
    the configuration is as it was.  (The networks and the optimizers
    themselves are taken not to raise.  The statement ends where the report
    is built: what [np.array(losses)] does with tensors that require grad
    depends on the NumPy version.) *)
Theorem optimize_blocks_return (batch_idx : Z) (data : images) (s : State) :
  (0 ≤ batch_size (config s))%Z → (0 ≤ latent_size s)%Z →
  d_reg_every (config s) ≠ 0%Z → g_reg_every (config s) ≠ 0%Z →
  path_batch_shrink (config s) ≠ 0%Z →
  (∀ ps, D_scores ps data ≠ []) →
  ∃ d_adv_loss g_adv_loss s1 s2 s3 s4,
    update_Discriminator data s = (Ok d_adv_loss, s1) ∧
    regularize_Discriminator batch_idx data s1 = (Ok tt, s2) ∧
    update_Generator s2 = (Ok g_adv_loss, s3) ∧
    regularize_Generator batch_idx s3 = (Ok tt, s4) ∧
    config s4 = config s ∧ latent_size s4 = latent_size s.
Proof.
  intros Hb Hl Hd Hg Hk Hne.
  destruct (update_Discriminator_returns data s Hb Hl) as (l1 & s1 & H1).
  pose proof (preserves_run _ _ _ _ _ (update_Discriminator_report_frame data) H1) as F1.
  simpl in F1. injection F1 as C1 L1 _ _ _ _.
  destruct (regularize_Discriminator_returns batch_idx data s1) as (s2 & H2);
    [by rewrite C1|exact Hne|].
  pose proof (preserves_run _ _ _ _ _ (regularize_Discriminator_path_frame batch_idx data) H2) as F2.
  simpl in F2. injection F2 as C2 L2 _ _ _.
  destruct (update_Generator_returns s2) as (l3 & s3 & H3);
    [by rewrite C2, C1|by rewrite L2, L1|].
  pose proof (preserves_run _ _ _ _ _ update_Generator_report_frame H3) as F3.
  simpl in F3. injection F3 as C3 L3 _ _ _ _.
  destruct (regularize_Generator_returns batch_idx s3) as (s4 & H4);
    [by rewrite C3, C2, C1|by rewrite C3, C2, C1|by rewrite L3, L2, L1|].
  pose proof (preserves_run _ _ _ _ _ (regularize_Generator_r1_frame batch_idx) H4) as F4.
  simpl in F4. injection F4 as C4 L4 _.
  exists l1, l3, s1, s2, s3, s4.
  repeat split; try assumption; congruence.
Qed.

(** ** The epoch report *)

Lemma optimize_all_lengths (data_loader : list images) :
  ∀ (batch_idx : Z) (s s' : State) (reports : list (list Q)),
    optimize_all batch_idx data_loader s = (Ok reports, s') →
    length reports = length data_loader ∧
    Forall (λ l, length l = 6%nat) reports.
Proof.
  induction data_loader as [|data rest IH]; intros batch_idx s s' reports H.
  - simpl in H. apply ret_Ok in H as [-> _]. split; [reflexivity|constructor].
  - apply optimize_all_cons in H as (losses & more & s1 & H1 & H2 & ->).
    apply IH in H2 as (Hl & Hall).
    apply optimize_Ok in H1 as (l1 & l3 & _ & _ & _ & _ & _ & _ & _ & ->).
    split; [simpl; by rewrite Hl|]. constructor; [reflexivity|exact Hall].
Qed.

Lemma running_loss_length (reports : list (list Q)) :
  ∀ running_loss : list Q,
    Forall (λ l, length l = 6%nat) reports → length running_loss = 6%nat →
    length (foldl (zip_with Qplus) running_loss reports) = 6%nat.
Proof.
  induction reports as [|l reports IH]; intros running_loss Hall Hr; [exact Hr|].
  apply Forall_cons in Hall as [Hl Hall]. simpl. apply IH; [exact Hall|].
  rewrite length_zip_with, Hl, Hr. reflexivity.
Qed.

(** X8.  The epoch report is the average of the batch reports.  When [train]
    returns, it has run [optimize] once per batch, in order, with the batch
    indices [0, 1, ...]; its report has six entries, each the sum of that
    entry over the batch reports divided by the number of batches; and it
    leaves the state the last batch left. *)
Theorem train_is_average (data_loader : list images) (s s' : State)
    (report : list npfloat) :
  train data_loader s = (Ok report, s') →
  ∃ reports,
    optimize_all 0 data_loader s = (Ok reports, s') ∧
    length reports = length data_loader ∧
    report = map (λ x, np_true_divide x (length data_loader))
                 (foldl (zip_with Qplus) [0; 0; 0; 0; 0; 0]%Q reports) ∧
    length report = 6%nat.
Proof.
  unfold train. intros H.
  apply bind_Ok in H as (running_loss & s1 & Hl & H).
  apply ret_Ok in H as [-> ->].
  rewrite train_loop_optimize_all in Hl.
  apply bind_Ok in Hl as (reports & s2 & Ha & Hl).
  apply ret_Ok in Hl as [-> ->].
  pose proof (optimize_all_lengths _ _ _ _ _ Ha) as (Hlen & Hall).
  exists reports. repeat split; try assumption.
  rewrite length_map. by apply running_loss_length.
Qed.

Lemma optimize_all_raise (done : list images) :
  ∀ (batch_idx : Z) (data : images) (rest : list images) (s s1 s2 : State)
    (reports : list (list Q)) (e : exn),
    optimize_all batch_idx done s = (Ok reports, s1) →
    optimize (batch_idx + Z.of_nat (length done)) data s1 = (Raise e, s2) →
    optimize_all batch_idx (done ++ data :: rest) s = (Raise e, s2).
Proof.
  induction done as [|d0 done IH];
    intros batch_idx data rest s s1 s2 reports e Hd Hf.
  - simpl in Hd. apply ret_Ok in Hd as [_ ->].
    simpl in Hf. rewrite Z.add_0_r in Hf.
    simpl. unfold bind. rewrite Hf. reflexivity.
  - apply optimize_all_cons in Hd as (losses & more & s0 & H0 & Hd & _).
    simpl. unfold bind at 1. rewrite H0.
    unfold bind at 1. erewrite IH; [reflexivity|exact Hd|].
    replace (batch_idx + 1 + Z.of_nat (length done))%Z
      with (batch_idx + Z.of_nat (length (d0 :: done)))%Z by (simpl; lia).
    exact Hf.
Qed.

(** X9.  An epoch stops at its first failing batch.  When the batches before
    it have returned and a batch raises, [train] raises the same exception
    and ends in the state that batch has left: the updates of the earlier
    batches stay, nothing is rolled back or retried, and no later batch
    runs. *)
Theorem train_stops_at_first_failure (done : list images) (data : images)
    (rest : list images) (s s1 s2 : State) (reports : list (list Q)) (e : exn) :
  optimize_all 0 done s = (Ok reports, s1) →
  optimize (Z.of_nat (length done)) data s1 = (Raise e, s2) →
  train (done ++ data :: rest) s = (Raise e, s2).
Proof.
  intros Hd Hf. unfold train. unfold bind at 1.
  rewrite train_loop_optimize_all. unfold bind at 1.
  rewrite (optimize_all_raise done 0 data rest s s1 s2 reports e Hd Hf).
  reflexivity.
Qed.

(** ** The sign of the regularization losses *)

Lemma Qsq_nonneg (x : Q) : (0 <= Qsq x)%Q.
Proof. unfold Qsq, Qle, Qmult. simpl. nia. Qed.

Lemma Qsum_nonneg (l : list Q) : Forall (λ x, 0 <= x)%Q l → (0 <= Qsum l)%Q.
Proof.
  induction 1 as [|x l Hx _ IH]; simpl; [apply Qle_refl|].
  change 0%Q with (0 + 0)%Q at 1. by apply Qplus_le_compat.
Qed.

Lemma Qmean_nonneg (l : list Q) : Forall (λ x, 0 <= x)%Q l → (0 <= Qmean l)%Q.
Proof.
  intros H. unfold Qmean, Qdiv. apply Qmult_le_0_compat.
  - by apply Qsum_nonneg.
  - apply Qinv_le_0_compat. change 0%Q with (inject_Z 0).
    rewrite <- Zle_Qle. lia.
Qed.

Lemma Qsum_squares_nonneg (row : list Q) : (0 <= Qsum (map Qsq row))%Q.
Proof.
  apply Qsum_nonneg, Forall_forall. intros x Hx.
  apply list_elem_of_fmap in Hx as (y & -> & _). apply Qsq_nonneg.
Qed.

(** One batch keeps both regularization losses from being negative. *)
Lemma optimize_losses_nonneg (batch_idx : Z) (data : images) (s s' : State)
    (losses : list Q) :
  optimize batch_idx data s = (Ok losses, s') →
  (0 <= item (r1_loss s))%Q → (0 <= item (path_loss s))%Q →
  (0 <= item (r1_loss s'))%Q ∧ (0 <= item (path_loss s'))%Q.
Proof.
  intros H Hr Hp.
  apply optimize_Ok in H as (l1 & l3 & s1 & s2 & s3 & H1 & H2 & H3 & H4 & _).
  pose proof (preserves_run _ _ _ _ _ (update_Discriminator_report_frame data) H1) as F1.
  pose proof (preserves_run _ _ _ _ _ (regularize_Discriminator_path_frame batch_idx data) H2) as F2.
  pose proof (preserves_run _ _ _ _ _ update_Generator_report_frame H3) as F3.
  pose proof (preserves_run _ _ _ _ _ (regularize_Generator_r1_frame batch_idx) H4) as F4.
  simpl in F1, F2, F3, F4.
  injection F1 as _ _ R1 P1 _ _. injection F2 as _ _ P2 _ _.
  injection F3 as _ _ R3 P3 _ _. injection F4 as _ _ R4.
  split.
  - rewrite R4, R3.
    destruct (Z.eq_dec (batch_idx mod d_reg_every (config s1))%Z 0%Z) as [Hm|Hm].
    + pose proof (regularize_Discriminator_fire _ _ _ _ _ H2 Hm) as (El & _).
      rewrite El. apply Qmean_nonneg, Forall_forall. intros x Hx.
      apply list_elem_of_fmap in Hx as (row & -> & _).
      apply Qsum_squares_nonneg.
    + pose proof (regularize_Discriminator_skip _ _ _ _ _ H2 Hm) as ->.
      by rewrite R1.
  - destruct (Z.eq_dec (batch_idx mod g_reg_every (config s3))%Z 0%Z) as [Hm|Hm].
    + pose proof (regularize_Generator_fire _ _ _ _ H4 Hm) as (_ & El & _).
      rewrite El. simpl. apply Qmean_nonneg, Forall_forall. intros x Hx.
      apply list_elem_of_fmap in Hx as (y & -> & _). apply Qsq_nonneg.
    + pose proof (regularize_Generator_skip _ _ _ _ H4 Hm) as ->.
      by rewrite P3, P2, P1.
Qed.

(** X10.  The regularization losses are never negative.  Starting from a
    state where [r1_loss] and [path_loss] are not negative (the constructor
    sets both to zero), every report of every batch shows an R1 loss and a
    path loss that are not negative, and so are the stored values at the
    end. *)
Theorem losses_never_negative (data_loader : list images) :
  ∀ (batch_idx : Z) (s s' : State) (reports : list (list Q)),
    (0 <= item (r1_loss s))%Q → (0 <= item (path_loss s))%Q →
    optimize_all batch_idx data_loader s = (Ok reports, s') →
    Forall (λ l, ∃ a b, l !! 1%nat = Some a ∧ l !! 3%nat = Some b ∧
                        (0 <= a)%Q ∧ (0 <= b)%Q) reports ∧
    (0 <= item (r1_loss s'))%Q ∧ (0 <= item (path_loss s'))%Q.
Proof.
  induction data_loader as [|data rest IH]; intros batch_idx s s' reports Hr Hp H.
  - simpl in H. apply ret_Ok in H as [-> ->]. auto.
  - apply optimize_all_cons in H as (losses & more & s1 & H1 & H2 & ->).
    pose proof (optimize_losses_nonneg _ _ _ _ _ H1 Hr Hp) as [Hr1 Hp1].
    pose proof (optimize_report _ _ _ _ _ H1) as (_ & R1 & R3 & _).
    destruct (IH _ _ _ _ Hr1 Hp1 H2) as (Hall & Hr' & Hp').
    split; [|auto]. constructor; [|exact Hall].
    exists (item (r1_loss s1)), (item (path_loss s1)). auto.
Qed.

(** ** The running mean of the path lengths *)

(** The stored mean after a batch where the path block fires. *)
Lemma optimize_fire_mean (batch_idx : Z) (data : images) (s s' : State)
    (losses : list Q) :
  optimize batch_idx data s = (Ok losses, s') →
  (batch_idx mod g_reg_every (config s))%Z = 0%Z →
  mean_path_length s' =
    detach (tadd (mean_path_length s)
                 (tscale 0.01 (tsub (tmean (path_lengths s')) (mean_path_length s)))).
Proof.
  intros H Hm.
  apply optimize_Ok in H as (l1 & l3 & s1 & s2 & s3 & H1 & H2 & H3 & H4 & _).
  pose proof (preserves_run _ _ _ _ _ (update_Discriminator_report_frame data) H1) as F1.
  pose proof (preserves_run _ _ _ _ _ (regularize_Discriminator_path_frame batch_idx data) H2) as F2.
  pose proof (preserves_run _ _ _ _ _ update_Generator_report_frame H3) as F3.
  simpl in F1, F2, F3.
  injection F1 as C1 _ _ _ _ M1. injection F2 as C2 _ _ _ M2.
  injection F3 as C3 _ _ _ _ M3.
  rewrite <- C1, <- C2, <- C3 in Hm.
  apply (regularize_Generator_fire _ _ _ _ H4) in Hm as (E & _).
  rewrite M3, M2, M1 in E. exact E.
Qed.

(** X11.  The running mean never overshoots.  On a batch where the path block
    fires the new [mean_path_length] lies between the prior one and the mean
    path length of the batch, whichever of the two is larger; on any other
    batch it is the prior one. *)
Theorem mean_path_length_stays_between (batch_idx : Z) (data : images)
    (s s' : State) (losses : list Q) :
  optimize batch_idx data s = (Ok losses, s') →
  let prior := item (mean_path_length s) in
  let mean := Qmean (item (path_lengths s')) in
  let updated := item (mean_path_length s') in
  ((batch_idx mod g_reg_every (config s))%Z = 0%Z →
     (prior <= mean → prior <= updated ∧ updated <= mean)%Q ∧
     (mean <= prior → mean <= updated ∧ updated <= prior)%Q) ∧
  ((batch_idx mod g_reg_every (config s))%Z ≠ 0%Z → updated = prior).
Proof.
  intros H. simpl. split.
  - intros Hm. rewrite (optimize_fire_mean _ _ _ _ _ H Hm). simpl.
    split; intros Hle; split; lra.
  - intros Hm.
    pose proof (optimize_report _ _ _ _ _ H) as (_ & _ & _ & _ & _ & _ & Fg).
    destruct (Fg Hm) as (_ & _ & ->). reflexivity.
Qed.

(** ** What training leaves alone *)

Lemma optimize_fixed_frame (batch_idx : Z) (data : images) :
  preserves (λ s, (config s, latent_size s, sample_z s, mean_path_length_avg s,
                   files s, handles s,
                   hyper (optimizer_G s), hyper (optimizer_D s)))
            (optimize batch_idx data).
Proof. frame. Qed.

Lemma train_loop_fixed_frame (data_loader : list images) :
  ∀ (batch_idx : Z) (running_loss : list Q),
    preserves (λ s, (config s, latent_size s, sample_z s, mean_path_length_avg s,
                     files s, handles s,
                     hyper (optimizer_G s), hyper (optimizer_D s)))
              (train_loop batch_idx data_loader running_loss).
Proof.
  induction data_loader as [|data rest IH]; intros batch_idx running_loss; simpl.
  - apply preserves_ret.
  - apply preserves_bind; [apply optimize_fixed_frame|]. intros losses. apply IH.
Qed.

Lemma train_fixed_frame (data_loader : list images) :
  preserves (λ s, (config s, latent_size s, sample_z s, mean_path_length_avg s,
                   files s, handles s,
                   hyper (optimizer_G s), hyper (optimizer_D s)))
            (train data_loader).
Proof.
  unfold train. apply preserves_bind; [apply train_loop_fixed_frame|].
  intros running_loss. apply preserves_ret.
Qed.

(** X12.  What an epoch never touches.  Whether [train] returns or raises,
    and however many batches it has run, it leaves the configuration, the
    latent size, the sample latent [sample_z], the files of the log
    directory (no checkpoint is written), the parameter objects each network
    and each optimizer holds, and the learning rate and betas of both
    optimizers as they were; [mean_path_length_avg], set to zero by the
    constructor, is never updated. *)
Theorem train_leaves_alone (data_loader : list images) (s s' : State)
    (r : result (list npfloat)) :
  train data_loader s = (r, s') →
  config s' = config s ∧ latent_size s' = latent_size s ∧
  sample_z s' = sample_z s ∧
  mean_path_length_avg s' = mean_path_length_avg s ∧
  files s' = files s ∧
  G s' = G s ∧ D s' = D s ∧
  param_group (optimizer_G s') = param_group (optimizer_G s) ∧
  param_group (optimizer_D s') = param_group (optimizer_D s) ∧
  hyper (optimizer_G s') = hyper (optimizer_G s) ∧
  hyper (optimizer_D s') = hyper (optimizer_D s).
Proof.
  intros H.
  apply (preserves_run _ _ _ _ _ (train_fixed_frame data_loader)) in H.
  unfold handles in H.
  injection H as -> -> -> -> -> -> -> -> -> -> ->. repeat split.
Qed.

(** ** The random numbers a batch consumes *)

Lemma bind_Ok_frame {X A C} (f : State → X) (m : M A) (k : A → M C)
    (s s' : State) (c : C) :
  bind m k s = (Ok c, s') → (∀ a, preserves f (k a)) →
  ∃ a s1, m s = (Ok a, s1) ∧ f s' = f s1.
Proof.
  intros H Hk. apply bind_Ok in H as (a & s1 & Hm & H).
  exists a, s1. split; [exact Hm|]. exact (preserves_run _ _ _ _ _ (Hk a) H).
Qed.

(** The draws of one [mixing_noise] call that returned. *)
Definition drawn (prob : Q) (n : nat) (r : Rng) : Rng :=
  {| py_draws := py_draws r + (if Qltb 0 prob then n else 0);
     torch_draws := torch_draws r + n |}.

Lemma drawn_0 (prob : Q) (r : Rng) : drawn prob 0 r = r.
Proof.
  unfold drawn. destruct r as [p t]. simpl.
  destruct (Qltb 0 prob); f_equal; lia.
Qed.

Lemma drawn_add (prob : Q) (n m : nat) (r : Rng) :
  drawn prob m (drawn prob n r) = drawn prob (n + m) r.
Proof.
  unfold drawn. simpl. destruct (Qltb 0 prob); f_equal; lia.
Qed.

Lemma mixing_noise_draws (batch_size latent_size : Z) (prob : Q) (s s' : State)
    (noise : list Latent) :
  mixing_noise batch_size latent_size prob s = (Ok noise, s') →
  rng s' = drawn prob 1 (rng s).
Proof.
  unfold mixing_noise, drawn. destruct (Qltb 0 prob).
  - unfold bind at 1. unfold random_random.
    destruct (Qltb _ prob); unfold bind, randn, ret; simpl;
      destruct (_ && _); intros H; inversion H; simpl; f_equal; lia.
  - unfold bind, randn, ret; simpl.
    destruct (_ && _); intros H; inversion H; simpl; f_equal; lia.
Qed.

Lemma zero_grad_rng (o : net) : preserves rng (zero_grad o).
Proof. frame. Qed.

Lemma backward_D_adv_draws (real_imgs : images) (batch_size latent_size : Z)
    (mixing : Q) (s s' : State) (loss : tensor Q) :
  backward_D_adv real_imgs batch_size latent_size mixing s = (Ok loss, s') →
  rng s' = drawn mixing 1 (rng s).
Proof.
  unfold backward_D_adv. intros H.
  apply (bind_Ok_frame rng) in H as (noise & s1 & Hn & ->); [|intros ?; frame].
  by apply mixing_noise_draws in Hn.
Qed.

Lemma backward_G_adv_draws (batch_size latent_size : Z) (mixing : Q)
    (s s' : State) (loss : tensor Q) :
  backward_G_adv batch_size latent_size mixing s = (Ok loss, s') →
  rng s' = drawn mixing 1 (rng s).
Proof.
  unfold backward_G_adv. intros H.
  apply (bind_Ok_frame rng) in H as (noise & s1 & Hn & ->); [|intros ?; frame].
  by apply mixing_noise_draws in Hn.
Qed.

Lemma backward_G_path_draws (batch_size latent_size : Z) (mixing : Q)
    (path_batch_shrink : Z) (prior : tensor Q) (path_regularize : Q) (g_reg_every : Z)
    (s s' : State) (r : tensor Q * tensor Q * tensor (list Q)) :
  backward_G_path batch_size latent_size mixing path_batch_shrink prior
    path_regularize g_reg_every s = (Ok r, s') →
  rng s' = drawn mixing 1 (rng s).
Proof.
  unfold backward_G_path. intros H.
  apply bind_Ok in H as (n & s1 & Hq & H).
  unfold lift in Hq. injection Hq as _ <-.
  apply (bind_Ok_frame rng) in H as (noise & s1 & Hn & ->); [|intros ?; frame].
  by apply mixing_noise_draws in Hn.
Qed.

Lemma update_Discriminator_draws (real_imgs : images) (s s' : State)
    (d_adv_loss : tensor Q) :
  update_Discriminator real_imgs s = (Ok d_adv_loss, s') →
  rng s' = drawn (mixing (config s)) 1 (rng s).
Proof.
  unfold update_Discriminator. intros H.
  apply bind_Ok in H as (c & s0 & Hc & H). apply gets_Ok in Hc as [-> ->].
  apply bind_Ok in H as (l & s0 & Hl & H). apply gets_Ok in Hl as [-> ->].
  apply bind_Ok in H as ([] & s1 & Hz & H).
  apply (preserves_run _ _ _ _ _ (zero_grad_rng NetD)) in Hz.
  apply (bind_Ok_frame rng) in H as (loss & s2 & Hb & ->); [|intros ?; frame].
  apply backward_D_adv_draws in Hb. by rewrite Hb, Hz.
Qed.

Lemma update_Generator_draws (s s' : State) (g_adv_loss : tensor Q) :
  update_Generator s = (Ok g_adv_loss, s') →
  rng s' = drawn (mixing (config s)) 1 (rng s).
Proof.
  unfold update_Generator. intros H.
  apply bind_Ok in H as (c & s0 & Hc & H). apply gets_Ok in Hc as [-> ->].
  apply bind_Ok in H as (l & s0 & Hl & H). apply gets_Ok in Hl as [-> ->].
  apply bind_Ok in H as ([] & s1 & Hz & H).
  apply (preserves_run _ _ _ _ _ (zero_grad_rng NetG)) in Hz.
  apply (bind_Ok_frame rng) in H as (loss & s2 & Hb & ->); [|intros ?; frame].
  apply backward_G_adv_draws in Hb. by rewrite Hb, Hz.
Qed.

Lemma regularize_Discriminator_rng (batch_idx : Z) (real_imgs : images) :
  preserves rng (regularize_Discriminator batch_idx real_imgs).
Proof. frame. Qed.

Lemma regularize_Generator_fire_draws (batch_idx : Z) (s s' : State) (u : unit) :
  regularize_Generator batch_idx s = (Ok u, s') →
  (batch_idx mod g_reg_every (config s))%Z = 0%Z →
  rng s' = drawn (mixing (config s)) 1 (rng s).
Proof.
  unfold regularize_Generator. intros H Hm.
  apply bind_Ok in H as (c & s1 & Hc & H). apply gets_Ok in Hc as [-> ->].
  apply bind_Ok in H as (l & s1 & Hl & H). apply gets_Ok in Hl as [-> ->].
  apply bind_Ok in H as (m & s1 & Hmod & H).
  unfold lift, py_mod in Hmod.
  destruct (g_reg_every (config s) =? 0)%Z; [discriminate|].
  injection Hmod as <- <-. rewrite Hm in H. simpl in H.
  apply bind_Ok in H as ([] & s1 & Hz & H).
  apply (preserves_run _ _ _ _ _ (zero_grad_rng NetG)) in Hz.
  apply bind_Ok in H as (prior & s2 & Hp & H). apply gets_Ok in Hp as [-> ->].
  apply (bind_Ok_frame rng) in H as (r & s2 & Hb & ->); [|intros ?; frame].
  apply backward_G_path_draws in Hb. by rewrite Hb, Hz.
Qed.

(** X14.  The random numbers a batch asks for.  A batch that returns calls
    [torch.randn] once for each of its generator calls: twice, and a third
    time when the path block fires; the R1 pass draws nothing.  It calls
    [random.random()] as often when [mixing] is positive, and never when
    [mixing] is zero or negative, the test [prob > 0] coming first. *)
Theorem optimize_random_draws (batch_idx : Z) (data : images) (s s' : State)
    (losses : list Q) :
  optimize batch_idx data s = (Ok losses, s') →
  let n := (2 + if (batch_idx mod g_reg_every (config s) =? 0)%Z then 1 else 0)%nat in
  torch_draws (rng s') = (torch_draws (rng s) + n)%nat ∧
  py_draws (rng s') =
    (py_draws (rng s) + if Qltb 0 (mixing (config s)) then n else 0)%nat.
Proof.
  intros H n.
  assert (rng s' = drawn (mixing (config s)) n (rng s)) as ->; [|split; reflexivity].
  apply optimize_Ok in H as (l1 & l3 & s1 & s2 & s3 & H1 & H2 & H3 & H4 & _).
  pose proof (preserves_run _ _ _ _ _ (update_Discriminator_report_frame data) H1) as F1.
  pose proof (preserves_run _ _ _ _ _ (regularize_Discriminator_path_frame batch_idx data) H2) as F2.
  pose proof (preserves_run _ _ _ _ _ update_Generator_report_frame H3) as F3.
  simpl in F1, F2, F3.
  injection F1 as C1 _ _ _ _ _. injection F2 as C2 _ _ _ _.
  injection F3 as C3 _ _ _ _ _.
  apply update_Discriminator_draws in H1.
  apply (preserves_run _ _ _ _ _ (regularize_Discriminator_rng _ _)) in H2.
  apply update_Generator_draws in H3.
  rewrite C2, C1 in H3. rewrite H2, H1, drawn_add in H3.
  subst n.
  destruct (Z.eqb_spec (batch_idx mod g_reg_every (config s)) 0) as [Hm|Hm].
  - rewrite <- C1, <- C2, <- C3 in Hm.
    apply (regularize_Generator_fire_draws _ _ _ _ H4) in Hm.
    rewrite Hm, C3, C2, C1, H3, drawn_add. reflexivity.
  - rewrite <- C1, <- C2, <- C3 in Hm.
    apply (regularize_Generator_skip _ _ _ _ H4) in Hm. subst s'.
    rewrite H3. f_equal.
Qed.

(** ** The order of the calls in an epoch *)

Lemma optimize_all_kinds (data_loader : list images) :
  ∀ (batch_idx : Z) (s s' : State) (reports : list (list Q)),
    optimize_all batch_idx data_loader s = (Ok reports, s') →
    ∃ evs, trace s' = trace s ++ evs ∧
           map kind evs =
             epoch_protocol batch_idx (length data_loader)
                            (d_reg_every (config s)) (g_reg_every (config s)).
Proof.
  induction data_loader as [|data rest IH]; intros batch_idx s s' reports H.
  - simpl in H. apply ret_Ok in H as [_ ->]. exists []. by rewrite app_nil_r.
  - apply optimize_all_cons in H as (losses & more & s1 & H1 & H2 & _).
    pose proof (optimize_report _ _ _ _ _ H1) as (C & _).
    apply optimize_trace in H1
      as (n1 & x1 & n3 & x3 & tail_d & tail_g & Ht & Hd & Hg).
    apply IH in H2 as (evs & Ht' & Hk). rewrite C in Hk.
    eexists. split; [rewrite Ht', Ht, <- app_assoc; reflexivity|].
    rewrite map_app, Hk. simpl epoch_protocol. f_equal. unfold protocol.
    destruct (batch_idx mod d_reg_every (config s) =? 0)%Z;
      destruct (batch_idx mod g_reg_every (config s) =? 0)%Z.
    + destruct Hd as (x & ->). destruct Hg as (n & px & ->). reflexivity.
    + destruct Hd as (x & ->). subst tail_g. reflexivity.
    + subst tail_d. destruct Hg as (n & px & ->). reflexivity.
    + subst tail_d tail_g. reflexivity.
Qed.

(** X15.  The order of the calls in an epoch.  An epoch that returns has made
    the calls of its batches one after the other, the batch indices
    starting again at zero: whatever the cadences, its first batch runs both
    regularization passes, and the [i]-th batch runs the R1 pass when
    [i % d_reg_every == 0] and the path pass when [i % g_reg_every == 0]. *)
Theorem train_follows_protocol (data_loader : list images) (s s' : State)
    (report : list npfloat) :
  train data_loader s = (Ok report, s') →
  ∃ evs, trace s' = trace s ++ evs ∧
         map kind evs =
           epoch_protocol 0 (length data_loader)
                          (d_reg_every (config s)) (g_reg_every (config s)) ∧
         (data_loader ≠ [] →
            ∃ more, map kind evs = protocol true true ++ more).
Proof.
  unfold train. intros H.
  apply bind_Ok in H as (running_loss & s1 & Hl & H).
  apply ret_Ok in H as [_ ->].
  rewrite train_loop_optimize_all in Hl.
  apply bind_Ok in Hl as (reports & s2 & Ha & Hl).
  apply ret_Ok in Hl as [_ ->].
  apply optimize_all_kinds in Ha as (evs & Ht & Hk).
  exists evs. split; [exact Ht|]. split; [exact Hk|].
  intros Hne. rewrite Hk.
  destruct data_loader as [|data rest]; [contradiction|].
  cbn [length epoch_protocol]. rewrite !Zmod_0_l, Z.eqb_refl. eauto.
Qed.

(** ** Flags and allocation *)

Lemma preserves_step_flag (o : net) (k : nat) :
  preserves (λ s, p_requires_grad <$> heap s !! k) (step o).
Proof.
  intros s. pose proof (step_meta o s k) as E. unfold final in E.
  destruct (heap (step o s).2 !! k), (heap s !! k); simpl in *; congruence.
Qed.

Lemma preserves_zero_grad_flag (o : net) (k : nat) :
  preserves (λ s, p_requires_grad <$> heap s !! k) (zero_grad o).
Proof.
  intros s. rewrite zero_grad_run. simpl. rewrite Adam_zero_grad_lookup.
  destruct (bool_decide _); [|reflexivity]. destruct (heap s !! k); reflexivity.
Qed.

Lemma preserves_backward_flag (k : nat) (p : pass) (loss : tensor Q) :
  preserves (λ s, p_requires_grad <$> heap s !! k) (backward p loss).
Proof.
  intros s. pose proof (backward_heap_lookup p loss s k) as E. unfold final in E.
  rewrite E. destruct (heap s !! k); simpl; [|reflexivity].
  destruct (bool_decide _); reflexivity.
Qed.

(** Preservation of the [requires_grad] flag of a parameter. *)
Ltac flag_frame :=
  repeat
    match goal with
    | |- preserves _ (step _) => apply preserves_step_flag
    | |- preserves _ (zero_grad _) => apply preserves_zero_grad_flag
    | |- preserves _ (backward _ _) => apply preserves_backward_flag
    | |- preserves _ (ret _) => apply preserves_ret
    | |- preserves _ (lift _) => apply preserves_lift
    | |- preserves _ (gets _) => apply preserves_gets
    | |- preserves _ (bind _ _) => apply preserves_bind; [ | intros ? ]
    | |- preserves _ (modify _) => apply preserves_modify; intros ?; reflexivity
    | |- preserves _ (randn _) => apply preserves_randn; intros ? ?; reflexivity
    | |- preserves _ random_random =>
        apply preserves_random_random; intros ? ?; reflexivity
    | |- preserves _ (if ?b then _ else _) => destruct b
    | |- preserves _ (match ?x with _ => _ end) => destruct x
    | |- preserves _ _ => unfold_block
    end.

Lemma optimize_flag (batch_idx : Z) (data : images) (k : nat) :
  preserves (λ s, p_requires_grad <$> heap s !! k) (optimize batch_idx data).
Proof. flag_frame. Qed.

Lemma train_flag (data_loader : list images) (k : nat) :
  preserves (λ s, p_requires_grad <$> heap s !! k) (train data_loader).
Proof.
  unfold train. apply preserves_bind; [|intros ?; apply preserves_ret].
  generalize 0%Z, [0; 0; 0; 0; 0; 0]%Q.
  induction data_loader as [|data rest IH]; intros batch_idx running_loss; simpl.
  - apply preserves_ret.
  - apply preserves_bind; [apply optimize_flag|]. intros losses. apply IH.
Qed.

(** X16.  Training never freezes a parameter.  Whether [train] returns or
    raises, every parameter object that existed before exists after, none
    has been added, and each has the [requires_grad] flag it had: starting
    from construction, where every parameter requires grad, the generator is
    never frozen for the discriminator's passes, nor the discriminator for
    the generator's. *)
Theorem training_never_freezes (data_loader : list images) (s s' : State)
    (r : result (list npfloat)) (k : nat) :
  train data_loader s = (r, s') →
  p_requires_grad <$> heap s' !! k = p_requires_grad <$> heap s !! k.
Proof. intros H. exact (preserves_run _ _ _ _ _ (train_flag data_loader k) H). Qed.

(** ** The helper [requires_grad] *)

(** X17.  What the unused helper would do.  Run after
    [requires_grad(self.G, False)], the discriminator's adversarial
    [backward()] leaves every generator parameter, value and buffer, as it
    was before the two calls, with its flag cleared, and still reaches every
    discriminator parameter that requires grad. *)
Theorem requires_grad_freezes_generator (real_imgs : images)
    (batch_size latent_size : Z) (mixing : Q) (s s' : State) (loss : tensor Q) :
  (∀ k, k ∈ G s → k ∉ D s) →
  backward_D_adv real_imgs batch_size latent_size mixing
    (final (requires_grad NetG false) s) = (Ok loss, s') →
  (∀ k, k ∈ G s → heap s' !! k = set_requires_grad false <$> heap s !! k) ∧
  (∀ k p, k ∈ D s → heap s !! k = Some p → p_requires_grad p = true →
     heap s' !! k =
       Some {| p_data := p_data p;
               p_grad := p_grad p ++ [{| of_pass := D_adv; root := item loss |}];
               p_requires_grad := true |}).
Proof.
  intros Hdisj H. split.
  - intros k Hk. rewrite (backward_D_adv_with_frozen_G _ _ _ _ _ _ _ _ H Hk).
    rewrite requires_grad_lookup. simpl. by rewrite bool_decide_eq_true_2.
  - intros k p Hk Hp Hr.
    assert (heap (final (requires_grad NetG false) s) !! k = Some p) as Hp'.
    { rewrite requires_grad_lookup. simpl.
      rewrite bool_decide_eq_false_2; [exact Hp|].
      intros Hc. by apply (Hdisj k). }
    apply backward_D_adv_Ok in H as (El & Eh).
    rewrite Eh, Hp'. simpl.
    rewrite bool_decide_eq_true_2; [by rewrite Hr|].
    rewrite El. apply elem_of_union_l, elem_of_union_l.
    apply elem_of_net_leaves. split; [exact Hk|]. rewrite Hp'. simpl. by rewrite Hr.
Qed.

(** ** Loading a checkpoint *)

(** X18.  [load] is not atomic.  When the generator's artifact of an epoch is
    there and the discriminator's is missing, [load] raises
    [FileNotFoundError] after the generator has been overwritten with the
    saved values: the object is left with the generator of the checkpoint
    and the discriminator it had. *)
Theorem load_is_not_atomic (epoch_label : string) (s : State) (d : list pval) :
  NoDup (G s) →
  Forall (λ k, is_Some (heap s !! k)) (G s) →
  files s !! checkpoint_path (log_dir (config s)) "Generator" epoch_label = Some d →
  length d = length (G s) →
  files s !! checkpoint_path (log_dir (config s)) "Discriminator" epoch_label = None →
  ∃ h, load epoch_label s = (Raise FileNotFoundError, set_heap h s) ∧
       net_values h (G s) = d ∧
       ∀ k, k ∉ G s → h !! k = heap s !! k.
Proof.
  intros Hnd Hall HfG Hlen HfD.
  pose proof (load_network_run NetG "Generator" epoch_label s d HfG Hlen) as RG.
  eexists. split; [|split].
  - unfold load. erewrite final_bind_Ok by exact RG.
    unfold load_network, bind, gets, lift. simpl. rewrite HfD. reflexivity.
  - by apply load_fold_values.
  - intros k Hk. by apply load_fold_other.
Qed.

(** When the generator's artifact of the epoch is missing, [load] raises
    [FileNotFoundError] at once: nothing is loaded, the discriminator's
    artifact is not looked at, and the object is as it was. *)
Lemma load_missing_generator (epoch_label : string) (s : State) :
  files s !! checkpoint_path (log_dir (config s)) "Generator" epoch_label = None →
  load epoch_label s = (Raise FileNotFoundError, s).
Proof.
  intros Hf. unfold load, load_network, bind, gets, lift. simpl.
  rewrite Hf. reflexivity.
Qed.

(** ** Checkpoints of several epochs *)

Lemma length_append (a b : string) :
  String.length (a +:+ b) = (String.length a + String.length b)%nat.
Proof. induction a as [|c a IH]; simpl; [reflexivity|]. by rewrite IH. Qed.

Lemma append_inv_tail (a : string) :
  ∀ x y : string, x +:+ a = y +:+ a → x = y.
Proof.
  intros x. induction x as [|c x IH]; intros [|c' y] H.
  - reflexivity.
  - apply (f_equal String.length) in H. rewrite !length_append in H.
    cbn in H. lia.
  - apply (f_equal String.length) in H. rewrite !length_append in H.
    cbn in H. lia.
  - change (String c (x +:+ a) = String c' (y +:+ a)) in H.
    injection H as -> H. f_equal. by apply IH.
Qed.

(** The artifacts of two epoch labels never coincide. *)
Lemma checkpoint_path_epoch (dir : string) (o : net) (e1 e2 : string) :
  checkpoint_path dir (net_label o) e1 = checkpoint_path dir (net_label o) e2 →
  e1 = e2.
Proof.
  unfold checkpoint_path, os_path_join. destruct o; simpl.
  all: destruct (String.eqb dir ""); [|destruct (String.eqb _ "/")]; intros H.
  all: try apply (append_inv_head dir) in H.
  all: repeat injection H as H.
  all: change (e1 +:+ ".pth" = e2 +:+ ".pth") in H.
  all: by apply append_inv_tail in H.
Qed.

Lemma checkpoint_path_label (dir e1 e2 : string) :
  checkpoint_path dir "Generator" e1 ≠ checkpoint_path dir "Discriminator" e2.
Proof.
  unfold checkpoint_path, os_path_join. simpl.
  destruct (String.eqb dir ""); [discriminate|].
  destruct (String.eqb _ "/"); intros H; apply append_inv_head in H; discriminate.
Qed.

Lemma checkpoint_path_inj (dir : string) (o1 o2 : net) (e1 e2 : string) :
  checkpoint_path dir (net_label o1) e1 = checkpoint_path dir (net_label o2) e2 →
  o1 = o2 ∧ e1 = e2.
Proof.
  destruct o1, o2; simpl; intros H.
  - split; [reflexivity|]. by apply (checkpoint_path_epoch dir NetG).
  - by apply checkpoint_path_label in H.
  - symmetry in H. by apply checkpoint_path_label in H.
  - split; [reflexivity|]. by apply (checkpoint_path_epoch dir NetD).
Qed.

(** What [save] leaves in the log directory. *)
Lemma save_files_lookup (epoch_label : string) (s : State) (o : net) (e : string) :
  files (final (save epoch_label) s)
    !! checkpoint_path (log_dir (config s)) (net_label o) e =
  if bool_decide (e = epoch_label)
  then Some (net_values (heap s) (parameters o s))
  else files s !! checkpoint_path (log_dir (config s)) (net_label o) e.
Proof.
  unfold final. rewrite save_run. simpl.
  destruct (decide (e = epoch_label)) as [->|Hne].
  - rewrite bool_decide_eq_true_2 by reflexivity. destruct o; simpl.
    + rewrite lookup_insert_ne; [apply lookup_insert_eq|].
      intros Hc. symmetry in Hc. by apply checkpoint_path_label in Hc.
    + apply lookup_insert_eq.
  - rewrite bool_decide_eq_false_2 by exact Hne.
    rewrite !lookup_insert_ne; [reflexivity|..].
    + intros Hc. apply (checkpoint_path_inj _ NetG o) in Hc as [_ Hc]. congruence.
    + intros Hc. apply (checkpoint_path_inj _ NetD o) in Hc as [_ Hc]. congruence.
Qed.

Lemma net_values_length (h : gmap nat Param) (ks : list nat) :
  Forall (λ k, is_Some (h !! k)) ks → length (net_values h ks) = length ks.
Proof.
  induction 1 as [|k ks [p Hp] _ IH]; [reflexivity|].
  rewrite net_values_cons, Hp. simpl. by rewrite IH.
Qed.

(** [load] in an object whose log directory holds both artifacts. *)
Lemma load_run (epoch_label : string) (s : State) (dG dD : list pval) :
  NoDup (G s ++ D s) →
  Forall (λ k, is_Some (heap s !! k)) (G s ++ D s) →
  files s !! checkpoint_path (log_dir (config s)) "Generator" epoch_label = Some dG →
  files s !! checkpoint_path (log_dir (config s)) "Discriminator" epoch_label = Some dD →
  length dG = length (G s) → length dD = length (D s) →
  ∃ s', load epoch_label s = (Ok tt, s') ∧
        net_values (heap s') (G s') = dG ∧ net_values (heap s') (D s') = dD.
Proof.
  intros Hnd Hall HfG HfD HlG HlD.
  apply NoDup_app in Hnd as (HndG & Hdisj & HndD).
  apply Forall_app in Hall as [HallG HallD].
  pose proof (load_network_run NetG "Generator" epoch_label s _ HfG HlG) as RG.
  set (s1 := set_heap (foldl (λ h kv, alter (set_data kv.2) kv.1 h) (heap s)
                             (zip (G s) dG)) s) in *.
  pose proof (load_network_run NetD "Discriminator" epoch_label s1 _ HfD HlD) as RD.
  eexists. split.
  { unfold load. erewrite final_bind_Ok by exact RG. exact RD. }
  simpl. split.
  - etransitivity; [|apply (load_fold_values (G s) dG (heap s)); auto].
    apply net_values_ext. intros k Hk.
    rewrite load_fold_other; [reflexivity|]. by apply Hdisj.
  - apply load_fold_values; auto.
    apply Forall_forall. intros k Hk.
    rewrite load_fold_other.
    + by apply (proj1 (Forall_forall _ _) HallD).
    + intros Hin. by apply (Hdisj k).
Qed.

(** X19.  An earlier checkpoint survives.  Save under one epoch label, train
    an epoch (whether it returns or raises), save under another label:
    [load] of the first label then returns and gives both networks the
    parameter values they had at the first [save].  The second [save] has
    written to other paths, and training has written no file. *)
Theorem earlier_checkpoint_survives (e1 e2 : string) (data_loader : list images)
    (s s1 : State) (r : result (list npfloat)) :
  e1 ≠ e2 →
  NoDup (G s ++ D s) →
  Forall (λ k, is_Some (heap s !! k)) (G s ++ D s) →
  train data_loader (final (save e1) s) = (r, s1) →
  ∃ s', load e1 (final (save e2) s1) = (Ok tt, s') ∧
        net_values (heap s') (G s') = net_values (heap s) (G s) ∧
        net_values (heap s') (D s') = net_values (heap s) (D s).
Proof.
  intros Hne Hnd Hall Ht.
  pose proof (preserves_run _ _ _ _ _ (train_fixed_frame data_loader) Ht) as F.
  unfold handles in F. injection F as Ec _ _ _ Ef EG ED _ _ _ _.
  change (config s1 = config s) in Ec.
  change (G s1 = G s) in EG. change (D s1 = D s) in ED.
  change (files s1 = files (final (save e1) s)) in Ef.
  assert (∀ o, files (final (save e2) s1)
                 !! checkpoint_path (log_dir (config s)) (net_label o) e1
               = Some (net_values (heap s) (parameters o s))) as Hf.
  { intros o.
    pose proof (save_files_lookup e2 s1 o e1) as L2. rewrite Ec in L2.
    rewrite bool_decide_eq_false_2 in L2 by exact Hne.
    pose proof (save_files_lookup e1 s o e1) as L1.
    rewrite bool_decide_eq_true_2 in L1 by reflexivity.
    rewrite L2, Ef. exact L1. }
  assert (Forall (λ k, is_Some (heap s1 !! k)) (G s ++ D s)) as Hall1.
  { eapply Forall_impl; [exact Hall|]. intros k [p Hp]. simpl.
    pose proof (preserves_run _ _ _ _ _ (train_flag data_loader k) Ht) as Fk.
    change (p_requires_grad <$> heap s1 !! k = p_requires_grad <$> heap s !! k) in Fk.
    rewrite Hp in Fk.
    destruct (heap s1 !! k); [eauto|discriminate]. }
  apply Forall_app in Hall as [HallG HallD].
  destruct (load_run e1 (final (save e2) s1)
              (net_values (heap s) (G s)) (net_values (heap s) (D s)))
    as (s' & Hl & HG & HD).
  - change (NoDup (G s1 ++ D s1)). by rewrite EG, ED.
  - change (Forall (λ k, is_Some (heap s1 !! k)) (G s1 ++ D s1)). by rewrite EG, ED.
  - change (config (final (save e2) s1)) with (config s1). rewrite Ec.
    apply (Hf NetG).
  - change (config (final (save e2) s1)) with (config s1). rewrite Ec.
    apply (Hf NetD).
  - change (G (final (save e2) s1)) with (G s1). rewrite EG.
    by apply net_values_length.
  - change (D (final (save e2) s1)) with (D s1). rewrite ED.
    by apply net_values_length.
  - exists s'. auto.
Qed.

End Properties.

(** * Concrete runs

    The theorems above, applied to the small backend. *)

Lemma small_state_init : __init__ small_config fresh_rng ∅ = Ok small_state.
Proof. reflexivity. Qed.

(** Name the value a computation returns on a concrete state. *)
Ltac run_as H m s :=
  let r := eval vm_compute in ((m s).1) in
  match r with
  | Ok ?a =>
      assert (H : m s = (Ok a, (m s).2)) by (apply run_eq; vm_compute; reflexivity)
  end.

(** Batch 4 of the scenario, started from the state batch 0 has left: the
    path block fires and moves a running mean that is no longer zero. *)
Lemma mean_path_length_update_witness :
  ∃ losses,
    (optimize 4 batch4 trained_state).1 = Ok losses ∧
    (item (mean_path_length (optimize 4 batch4 trained_state).2) ==
       item (mean_path_length trained_state) * 0.99 +
       Qmean (item (path_lengths (optimize 4 batch4 trained_state).2)) * 0.01)%Q ∧
    ¬ (item (mean_path_length trained_state) == 0)%Q.
Proof.
  run_as H (optimize 4 batch4) trained_state.
  assert ((4 mod g_reg_every (config trained_state))%Z = 0%Z) as Hm
    by (vm_compute; reflexivity).
  match type of H with _ = (Ok ?l, _) => exists l end.
  split; [exact (f_equal fst H)|].
  split.
  - exact (proj1 (proj2 (mean_path_length_update 4 batch4 trained_state _ _ H Hm))).
  - vm_compute. discriminate.
Defined.

(** The end-to-end scenario: four batches with both cadences four.  The
    reports of batches 1 to 3 repeat the regularization values of batch 0. *)
Lemma stale_values_are_reused_witness :
  ∃ losses more,
    optimize 0 batch4 small_state = (Ok losses, trained_state) ∧
    (optimize_all (0 + 1) [batch4; batch4; batch4] trained_state).1 = Ok more ∧
    length more = 3%nat ∧
    Forall (λ l, l !! 1%nat = losses !! 1%nat) more ∧
    Forall (λ l, l !! 3%nat = losses !! 3%nat ∧ l !! 4%nat = losses !! 4%nat ∧
                 l !! 5%nat = losses !! 5%nat) more.
Proof.
  run_as H1 (optimize 0 batch4) small_state.
  run_as H2 (optimize_all (0 + 1) [batch4; batch4; batch4]) trained_state.
  match type of H1 with _ = (Ok ?l, _) => exists l end.
  match type of H2 with _ = (Ok ?m, _) => exists m end.
  split; [exact H1|].
  split; [exact (f_equal fst H2)|].
  split; [reflexivity|].
  pose proof (stale_values_are_reused 0 batch4 [batch4; batch4; batch4]
                small_state trained_state _ _ _ H1 H2) as (_ & _ & Hd & Hg).
  split.
  - apply Hd. intros i Hi. simpl in Hi.
    destruct i as [|[|[|i]]]; [vm_compute; discriminate..|lia].
  - apply Hg. intros i Hi. simpl in Hi.
    destruct i as [|[|[|i]]]; [vm_compute; discriminate..|lia].
Defined.

(** Batch 0 of the scenario: the R1 pass has run once, on the weighted
    loss. *)
Lemma r1_pass_cadence_and_loss_witness :
  count_backward D_r1 (trace trained_state) = 1%nat ∧
  ∃ x, last_root D_r1 (trace trained_state) = Some x ∧
       (x == r1 small_config / 2 * item (r1_loss trained_state)
             * inject_Z (d_reg_every small_config))%Q.
Proof.
  run_as H (optimize 0 batch4) small_state.
  pose proof (r1_pass_cadence_and_loss 0 batch4 small_state trained_state _ H)
    as (d_adv_loss & s1 & _ & Hc & Hr).
  split; [exact Hc|].
  assert ((0 mod d_reg_every (config small_state))%Z = 0%Z) as Hm
    by (vm_compute; reflexivity).
  destruct (Hr Hm) as (_ & p0 & x & _ & Hx & _ & Hq).
  exists x. split; [exact Hx|exact Hq].
Defined.

(** A batch of 16 shrunk by 2. *)
Lemma path_pass_batch_size_witness :
  path_batch_size 16 2 = Ok 8%Z ∧
  ∃ r s' noise,
    backward_G_path 16 512 0.9 2 (constant 0%Q) 2 4 small_state = (Ok r, s') ∧
    last_path_noise (trace s') = Some noise ∧ noise ≠ [] ∧
    Forall (λ z, rows z = 8%Z) noise.
Proof.
  assert (1 ≤ 16)%Z as H1 by lia.
  assert (1 ≤ 2)%Z as H2 by lia.
  assert (0 ≤ 512)%Z as H3 by lia.
  pose proof (path_pass_batch_size 16 512 0.9 2 (constant 0%Q) 2 4 small_state
                H1 H2 H3) as (Hp & _ & He).
  split; [exact Hp|exact He].
Defined.

(** The two sizes the specification works out. *)
Example path_batch_size_16_2 : path_batch_size 16 2 = Ok 8%Z.
Proof. reflexivity. Qed.

Example path_batch_size_16_32 : path_batch_size 16 32 = Ok 1%Z.
Proof. reflexivity. Qed.

(** The freshly constructed object satisfies the invariant, so its
    optimizers are restricted to their own networks. *)
Lemma optimizer_steps_are_restricted_witness :
  wf small_state ∧
  (∀ k, k ∈ G small_state →
        heap (final (step NetD) small_state) !! k = heap small_state !! k) ∧
  (∀ k, k ∈ D small_state →
        heap (final (step NetG) small_state) !! k = heap small_state !! k).
Proof.
  pose proof (init_wf small_config fresh_rng ∅ small_state small_state_init) as Hwf.
  pose proof (optimizer_steps_are_restricted small_state 0 batch4 Hwf)
    as (HG & HD & _).
  split; [exact Hwf|]. split; [exact HG|exact HD].
Defined.

(** With [lr = 0.001] and a generator cadence of 4 the generator's Adam
    runs at [0.001 * 4/5] with betas [(0, 0.99 ** (4/5))]. *)
Lemma adam_hyperparameters_witness :
  adam_lr (hyper (optimizer_G small_state))
    = (0.001 * (inject_Z 4 / inject_Z (4 + 1)))%Q ∧
  adam_betas (hyper (optimizer_G small_state))
    = (Exact 0, Pow 0.99 (inject_Z 4 / inject_Z (4 + 1))) ∧
  ¬ (adam_lr (hyper (optimizer_G small_state)) == 0.001)%Q.
Proof.
  pose proof (adam_hyperparameters small_config fresh_rng ∅ small_state
                small_state_init)
    as (_ & _ & Hlr & _ & _ & _ & _ & _ & Hb & _ & Hne).
  split; [exact Hlr|]. split.
  - apply Hb. vm_compute. discriminate.
  - apply Hne. vm_compute. discriminate.
Defined.

(** ** The discriminator step and the generator's gradient buffers *)

(** C3 fails on the code.  From the freshly constructed object, the
    [backward()] of the discriminator's adversarial loss leaves its gradient
    in the [.grad] buffer of the generator's parameter (handle [0]), which
    was empty before the call. *)
Theorem D_adv_backward_reaches_generator_grad :
  G small_state = [0%nat] ∧
  p_grad <$> heap small_state !! 0%nat = Some [] ∧
  ∃ x : Q,
    item <$> (match (backward_D_adv batch4 4 512 0 small_state).1 with
              | Ok l => Some l
              | Raise _ => None
              end) = Some x ∧
    p_grad <$> heap (backward_D_adv batch4 4 512 0 small_state).2 !! 0%nat
      = Some [{| of_pass := D_adv; root := x |}].
Proof.
  split; [reflexivity|]. split; [reflexivity|].
  eexists. split; vm_compute; reflexivity.
Qed.

(** ** Checkpoints *)

Lemma checkpoint_roundtrip_witness :
  ∃ s', load "1" reloaded_state = (Ok tt, s') ∧
        net_values (heap s') (G s') = net_values (heap trained_state) (G trained_state) ∧
        net_values (heap s') (D s') = net_values (heap trained_state) (D trained_state) ∧
        mean_path_length s' = mean_path_length reloaded_state.
Proof.
  assert (NoDup (G reloaded_state ++ D reloaded_state)) as H1.
  { apply (bool_decide_unpack _). vm_compute. exact I. }
  assert (Forall (λ k, is_Some (heap reloaded_state !! k))
                 (G reloaded_state ++ D reloaded_state)) as H2.
  { apply (bool_decide_unpack _). vm_compute. exact I. }
  assert (log_dir (config reloaded_state) = log_dir (config trained_state)) as H3
    by (vm_compute; reflexivity).
  assert (files reloaded_state = files (final (save "1") trained_state)) as H4
    by (vm_compute; reflexivity).
  assert (length (net_values (heap trained_state) (G trained_state))
          = length (G reloaded_state)) as H5 by (vm_compute; reflexivity).
  assert (length (net_values (heap trained_state) (D trained_state))
          = length (D reloaded_state)) as H6 by (vm_compute; reflexivity).
  pose proof (checkpoint_roundtrip "1" trained_state reloaded_state
                H1 H2 H3 H4 H5 H6) as (_ & s' & Hl & HG & HD & _ & _ & Hm & _).
  exists s'. repeat split; assumption.
Defined.

(** C6 fails on the code: what [save] wrote and [load] read back gives the
    new object the networks of the old one, but neither its running mean
    path length nor the state of its optimizers. *)
Lemma checkpoint_leaves_out_training_state :
  (load "1" reloaded_state).1 = Ok tt ∧
  net_values (heap (load "1" reloaded_state).2) (G (load "1" reloaded_state).2)
    = net_values (heap trained_state) (G trained_state) ∧
  ¬ (item (mean_path_length (load "1" reloaded_state).2)
       == item (mean_path_length trained_state))%Q ∧
  slots (optimizer_G (load "1" reloaded_state).2) !! 0%nat = None ∧
  slots (optimizer_G trained_state) !! 0%nat = Some 2%nat.
Proof.
  split; [vm_compute; reflexivity|].
  split; [vm_compute; reflexivity|].
  split; [vm_compute; discriminate|].
  split; vm_compute; reflexivity.
Qed.

(** ** Construction *)

Lemma construction_does_not_validate_witness :
  (batch_size zero_batch_config ≤ 0)%Z ∧
  ∃ s, __init__ zero_batch_config fresh_rng ∅ = Ok s ∧ config s = zero_batch_config.
Proof.
  assert (0 ≤ n_sample zero_batch_config)%Z as Hn by (vm_compute; discriminate).
  assert (0 <= lr zero_batch_config)%Q as Hl by (vm_compute; discriminate).
  assert (1 ≤ g_reg_every zero_batch_config)%Z as Hg by (vm_compute; discriminate).
  assert (1 ≤ d_reg_every zero_batch_config)%Z as Hd by (vm_compute; discriminate).
  split; [vm_compute; discriminate|].
  exact (proj1 (construction_does_not_validate zero_batch_config fresh_rng ∅ Hn Hl)
           Hg Hd).
Defined.

(** C7 fails on the code: a batch size of zero is accepted. *)
Lemma construction_accepts_zero_batch_size :
  (batch_size zero_batch_config ≤ 0)%Z ∧
  returned (__init__ zero_batch_config fresh_rng ∅) = true ∧
  ¬ ∃ e, __init__ zero_batch_config fresh_rng ∅ = Raise e.
Proof.
  split; [vm_compute; discriminate|]. split; [vm_compute; reflexivity|].
  intros [e He]. apply (f_equal returned) in He. vm_compute in He. discriminate.
Qed.

(** So is a cadence of [-2]. *)
Example construction_accepts_negative_cadence :
  returned (__init__ {| log_dir := "logs"; batch_size := 16; n_sample := 16;
                        img_size := 1024; lr := 0.001; r1 := 10;
                        path_regularize := 2; path_batch_shrink := 2;
                        g_reg_every := -2; d_reg_every := 16; mixing := 0.9 |}
                     fresh_rng ∅) = true.
Proof. vm_compute. reflexivity. Qed.

(** ** The empty epoch *)

(** C8 fails on the code: on the empty data source [train] returns. *)
Lemma empty_epoch_returns_nan :
  (train [] small_state).1 = Ok [np_nan; np_nan; np_nan; np_nan; np_nan; np_nan] ∧
  ¬ ∃ e, (train [] small_state).1 = Raise e.
Proof.
  split; [reflexivity|]. intros [e He]. discriminate.
Qed.

(** * Concrete runs of the further properties *)

(** ** Gradient buffers *)

Lemma run_raise_eq {A} (m : M A) (s : State) (e : exn) :
  (m s).1 = Raise e → m s = (Raise e, (m s).2).
Proof. destruct (m s) as [r s']. simpl. intros ->. reflexivity. Qed.

Lemma small_state_wf : wf small_state.
Proof. exact (init_wf small_config fresh_rng ∅ small_state small_state_init). Qed.

Lemma trained_state_wf : wf trained_state.
Proof.
  assert (handles trained_state = handles small_state) as H
    by (vm_compute; reflexivity).
  exact (wf_handles small_state trained_state H small_state_wf).
Qed.

(** From the freshly constructed object, the generator's adversarial
    [backward()] leaves its gradient in the buffer of the discriminator's
    first parameter (handle [1]). *)
Lemma backward_G_adv_reaches_D_witness :
  ∃ loss, (backward_G_adv 4 512 0 small_state).1 = Ok loss ∧
    p_grad <$> heap (backward_G_adv 4 512 0 small_state).2 !! 1%nat
      = Some [{| of_pass := G_adv; root := item loss |}].
Proof.
  run_as H (backward_G_adv 4 512 0) small_state.
  match type of H with _ = (Ok ?l, _) => exists l end.
  split; [exact (f_equal fst H)|].
  assert (1%nat ∈ D small_state) as Hk
    by (apply (bool_decide_unpack _); vm_compute; exact I).
  assert (heap small_state !! 1%nat = Some (new_param 1%Q)) as Hp
    by (vm_compute; reflexivity).
  exact (f_equal (fmap p_grad)
           (backward_G_adv_reaches_D 4 512 0 small_state _ _ 1%nat (new_param 1%Q)
              H Hk Hp eq_refl)).
Defined.

(** After batch 0 the buffer of the discriminator's first parameter holds
    two contributions, the R1 pass's and the generator's; the next
    [# update Discriminator] leaves exactly its own. *)
Lemma update_Discriminator_own_gradient_witness :
  length <$> (p_grad <$> heap trained_state !! 1%nat) = Some 2%nat ∧
  ∃ d_adv_loss,
    (update_Discriminator batch4 trained_state).1 = Ok d_adv_loss ∧
    p_grad <$> heap (update_Discriminator batch4 trained_state).2 !! 1%nat
      = Some [{| of_pass := D_adv; root := item d_adv_loss |}].
Proof.
  split; [vm_compute; reflexivity|].
  run_as H (update_Discriminator batch4) trained_state.
  match type of H with _ = (Ok ?l, _) => exists l end.
  split; [exact (f_equal fst H)|].
  assert (1%nat ∈ D trained_state) as Hk
    by (apply (bool_decide_unpack _); vm_compute; exact I).
  let p := eval vm_compute in (heap trained_state !! 1%nat) in
  match p with
  | Some ?q =>
      assert (heap trained_state !! 1%nat = Some q) as Hp by (vm_compute; reflexivity);
      exact (update_Discriminator_own_gradient batch4 trained_state _ _ 1%nat q
               trained_state_wf H Hk Hp eq_refl)
  end.
Defined.

(** Likewise for the generator's parameter (handle [0]), whose buffer holds
    the path pass's contribution after batch 0. *)
Lemma update_Generator_own_gradient_witness :
  length <$> (p_grad <$> heap trained_state !! 0%nat) = Some 1%nat ∧
  ∃ g_adv_loss,
    (update_Generator trained_state).1 = Ok g_adv_loss ∧
    p_grad <$> heap (update_Generator trained_state).2 !! 0%nat
      = Some [{| of_pass := G_adv; root := item g_adv_loss |}].
Proof.
  split; [vm_compute; reflexivity|].
  run_as H update_Generator trained_state.
  match type of H with _ = (Ok ?l, _) => exists l end.
  split; [exact (f_equal fst H)|].
  assert (0%nat ∈ G trained_state) as Hk
    by (apply (bool_decide_unpack _); vm_compute; exact I).
  let p := eval vm_compute in (heap trained_state !! 0%nat) in
  match p with
  | Some ?q =>
      assert (heap trained_state !! 0%nat = Some q) as Hp by (vm_compute; reflexivity);
      exact (update_Generator_own_gradient trained_state _ _ 0%nat q
               trained_state_wf H Hk Hp eq_refl)
  end.
Defined.

(** ** The order of the calls *)

(** Batch 0 of the scenario makes all fifteen calls. *)
Lemma optimize_follows_protocol_witness :
  ∃ evs, trace trained_state = trace small_state ++ evs ∧
         map kind evs = protocol true true.
Proof.
  run_as H (optimize 0 batch4) small_state.
  exact (optimize_follows_protocol 0 batch4 small_state trained_state _ H).
Defined.

(** Batch 0 of the scenario: the path pass has run once, on the weighted
    loss. *)
Lemma path_pass_cadence_and_loss_witness :
  count_backward G_path (trace trained_state) = 1%nat ∧
  ∃ x, last_root G_path (trace trained_state) = Some x ∧
       (x == path_regularize small_config * inject_Z (g_reg_every small_config)
             * item (path_loss trained_state))%Q.
Proof.
  run_as H (optimize 0 batch4) small_state.
  pose proof (path_pass_cadence_and_loss 0 batch4 small_state trained_state _ H)
    as (Hc & Hr).
  split; [exact Hc|].
  assert ((0 mod g_reg_every (config small_state))%Z = 0%Z) as Hm
    by (vm_compute; reflexivity).
  destruct (Hr Hm) as (_ & _ & pixel & x & Hx & _ & Hq).
  exists x. split; [exact Hx|exact Hq].
Defined.

(** The constructor accepts the shrink factor zero, and the first path
    block raises. *)
Lemma zero_shrink_raises_witness :
  returned (__init__ zero_shrink_config fresh_rng ∅) = true ∧
  regularize_Generator 0 zero_shrink_state
    = (Raise ZeroDivisionError, final (zero_grad NetG) zero_shrink_state).
Proof.
  split; [vm_compute; reflexivity|].
  assert (path_batch_shrink (config zero_shrink_state) = 0%Z) as Hk
    by (vm_compute; reflexivity).
  assert (g_reg_every (config zero_shrink_state) ≠ 0%Z) as Hg
    by (vm_compute; discriminate).
  assert ((0 mod g_reg_every (config zero_shrink_state))%Z = 0%Z) as Hm
    by (vm_compute; reflexivity).
  exact (proj2 (zero_shrink_raises 0 zero_shrink_state Hk Hg Hm)).
Defined.

(** Batch 0 on the freshly constructed object, where both regularization
    blocks run their passes. *)
Lemma optimize_blocks_return_witness :
  ∃ d_adv_loss g_adv_loss s1 s2 s3 s4,
    update_Discriminator batch4 small_state = (Ok d_adv_loss, s1) ∧
    regularize_Discriminator 0 batch4 s1 = (Ok tt, s2) ∧
    update_Generator s2 = (Ok g_adv_loss, s3) ∧
    regularize_Generator 0 s3 = (Ok tt, s4) ∧
    config s4 = config small_state.
Proof.
  assert (0 ≤ batch_size (config small_state))%Z as H1 by (vm_compute; discriminate).
  assert (0 ≤ latent_size small_state)%Z as H2 by (vm_compute; discriminate).
  assert (d_reg_every (config small_state) ≠ 0%Z) as H3 by (vm_compute; discriminate).
  assert (g_reg_every (config small_state) ≠ 0%Z) as H4 by (vm_compute; discriminate).
  assert (path_batch_shrink (config small_state) ≠ 0%Z) as H5
    by (vm_compute; discriminate).
  assert (∀ ps, D_scores ps batch4 ≠ []) as H6 by (intros ps; discriminate).
  destruct (optimize_blocks_return (B := small_backend) 0 batch4 small_state
              H1 H2 H3 H4 H5 H6)
    as (l1 & l3 & s1 & s2 & s3 & s4 & E1 & E2 & E3 & E4 & C & _).
  exists l1, l3, s1, s2, s3, s4. repeat split; assumption.
Defined.

(** ** Epochs *)

(** An epoch of two batches on the freshly constructed object. *)
Lemma train_is_average_witness :
  ∃ report reports,
    (train [batch4; batch4] small_state).1 = Ok report ∧
    length reports = 2%nat ∧
    report = map (λ x, np_true_divide x 2)
                 (foldl (zip_with Qplus) [0; 0; 0; 0; 0; 0]%Q reports) ∧
    length report = 6%nat.
Proof.
  run_as H (train [batch4; batch4]) small_state.
  destruct (train_is_average (B := small_backend) [batch4; batch4] small_state _ _ H)
    as (reports & _ & Hl & Hr & Hn).
  match type of H with _ = (Ok ?r, _) => exists r end.
  exists reports. split; [exact (f_equal fst H)|].
  split; [exact Hl|]. split; [exact Hr|exact Hn].
Defined.

(** With a shrink factor of zero the first batch raises in its path block,
    after both adversarial steps, and the epoch ends there. *)
Lemma train_stops_at_first_failure_witness :
  train ([] ++ batch4 :: [batch4]) zero_shrink_state
    = (Raise ZeroDivisionError, (optimize 0 batch4 zero_shrink_state).2) ∧
  count_backward G_adv (trace (optimize 0 batch4 zero_shrink_state).2) = 1%nat.
Proof.
  split; [|vm_compute; reflexivity].
  assert (optimize 0 batch4 zero_shrink_state
          = (Raise ZeroDivisionError, (optimize 0 batch4 zero_shrink_state).2)) as Hf
    by (apply run_raise_eq; vm_compute; reflexivity).
  exact (train_stops_at_first_failure (B := small_backend) [] batch4 [batch4] zero_shrink_state
           zero_shrink_state _ [] ZeroDivisionError eq_refl Hf).
Defined.

(** Two batches from construction, where both losses are zero. *)
Lemma losses_never_negative_witness :
  ∃ reports,
    (optimize_all 0 [batch4; batch4] small_state).1 = Ok reports ∧
    Forall (λ l, ∃ a b, l !! 1%nat = Some a ∧ l !! 3%nat = Some b ∧
                        (0 <= a)%Q ∧ (0 <= b)%Q) reports ∧
    (0 <= item (r1_loss (optimize_all 0 [batch4; batch4] small_state).2))%Q.
Proof.
  run_as H (optimize_all 0 [batch4; batch4]) small_state.
  assert (0 <= item (r1_loss small_state))%Q as Hr by (vm_compute; discriminate).
  assert (0 <= item (path_loss small_state))%Q as Hp by (vm_compute; discriminate).
  destruct (losses_never_negative (B := small_backend) [batch4; batch4] 0 small_state _ _ Hr Hp H)
    as (Hall & Hr' & _).
  match type of H with _ = (Ok ?r, _) => exists r end.
  split; [exact (f_equal fst H)|]. split; [exact Hall|exact Hr'].
Defined.

(** Batch 4 of the scenario: the path lengths of the batch are zero, and
    the running mean moves down from its value after batch 0 without
    reaching them. *)
Lemma mean_path_length_stays_between_witness :
  (Qmean (item (path_lengths (optimize 4 batch4 trained_state).2))
     <= item (mean_path_length (optimize 4 batch4 trained_state).2))%Q ∧
  (item (mean_path_length (optimize 4 batch4 trained_state).2)
     <= item (mean_path_length trained_state))%Q.
Proof.
  run_as H (optimize 4 batch4) trained_state.
  assert ((4 mod g_reg_every (config trained_state))%Z = 0%Z) as Hm
    by (vm_compute; reflexivity).
  assert (Qmean (item (path_lengths (optimize 4 batch4 trained_state).2))
            <= item (mean_path_length trained_state))%Q
    as Hle by (vm_compute; discriminate).
  exact (proj2 (proj1 (mean_path_length_stays_between (B := small_backend)
                         4 batch4 trained_state _ _ H) Hm) Hle).
Defined.

(** One epoch from construction. *)
Lemma train_leaves_alone_witness :
  files (train [batch4] small_state).2 = files small_state ∧
  sample_z (train [batch4] small_state).2 = sample_z small_state ∧
  hyper (optimizer_G (train [batch4] small_state).2) = hyper (optimizer_G small_state) ∧
  mean_path_length_avg (train [batch4] small_state).2 = 0%Z.
Proof.
  pose proof (train_leaves_alone (B := small_backend) [batch4] small_state
                (train [batch4] small_state).2 (train [batch4] small_state).1
                (surjective_pairing _))
    as (_ & _ & Hz & Ha & Hf & _ & _ & _ & _ & Hh & _).
  split; [exact Hf|]. split; [exact Hz|]. split; [exact Hh|exact Ha].
Defined.

(** Batch 0 of the scenario, where [mixing] is zero: three draws from
    torch's generator and none from Python's. *)
Lemma optimize_random_draws_witness :
  torch_draws (rng trained_state) = (torch_draws (rng small_state) + 3)%nat ∧
  py_draws (rng trained_state) = (py_draws (rng small_state) + 0)%nat.
Proof.
  run_as H (optimize 0 batch4) small_state.
  exact (optimize_random_draws (B := small_backend) 0 batch4 small_state trained_state _ H).
Defined.

(** An epoch of two batches with both cadences four: all passes in batch 0,
    the adversarial ones only in batch 1. *)
Lemma train_follows_protocol_witness :
  ∃ evs,
    trace (train [batch4; batch4] small_state).2 = trace small_state ++ evs ∧
    map kind evs = protocol true true ++ protocol false false.
Proof.
  run_as H (train [batch4; batch4]) small_state.
  destruct (train_follows_protocol (B := small_backend) [batch4; batch4] small_state _ _ H)
    as (evs & Ht & Hk & _).
  exists evs. split; [exact Ht|].
  exact Hk.
Defined.

(** The generator's parameter still requires grad after an epoch. *)
Lemma training_never_freezes_witness :
  p_requires_grad <$> heap (train [batch4] small_state).2 !! 0%nat = Some true.
Proof.
  exact (training_never_freezes (B := small_backend) [batch4] small_state
           (train [batch4] small_state).2 (train [batch4] small_state).1 0%nat
           (surjective_pairing _)).
Defined.

(** ** The helper [requires_grad] *)

(** With the generator frozen first, the discriminator's adversarial
    [backward()] leaves the generator's buffer empty and writes to the
    discriminator's. *)
Lemma requires_grad_freezes_generator_witness :
  ∃ loss,
    (backward_D_adv batch4 4 512 0 (final (requires_grad NetG false) small_state)).1
      = Ok loss ∧
    p_grad <$> heap (backward_D_adv batch4 4 512 0
                       (final (requires_grad NetG false) small_state)).2 !! 0%nat
      = Some [] ∧
    p_grad <$> heap (backward_D_adv batch4 4 512 0
                       (final (requires_grad NetG false) small_state)).2 !! 1%nat
      = Some [{| of_pass := D_adv; root := item loss |}].
Proof.
  run_as H (backward_D_adv batch4 4 512 0) (final (requires_grad NetG false) small_state).
  match type of H with _ = (Ok ?l, _) => exists l end.
  split; [exact (f_equal fst H)|].
  destruct (requires_grad_freezes_generator (B := small_backend) batch4 4 512 0
              small_state _ _ (proj2 (proj2 small_state_wf)) H) as (HG & HD).
  assert (0%nat ∈ G small_state) as Hk0
    by (apply (bool_decide_unpack _); vm_compute; exact I).
  assert (1%nat ∈ D small_state) as Hk1
    by (apply (bool_decide_unpack _); vm_compute; exact I).
  assert (heap small_state !! 1%nat = Some (new_param 1%Q)) as Hp
    by (vm_compute; reflexivity).
  split.
  - exact (f_equal (fmap p_grad) (HG 0%nat Hk0)).
  - exact (f_equal (fmap p_grad) (HD 1%nat (new_param 1%Q) Hk1 Hp eq_refl)).
Defined.

(** ** Checkpoints *)

(** Loading epoch ["1"] where only the generator's artifact exists: the
    call raises, and the generator is the saved one. *)
Lemma load_is_not_atomic_witness :
  ∃ h, load "1" half_saved_state
         = (Raise FileNotFoundError, set_heap h half_saved_state) ∧
       net_values h (G half_saved_state)
         = net_values (heap trained_state) (G trained_state) ∧
       net_values (heap half_saved_state) (G half_saved_state)
         ≠ net_values (heap trained_state) (G trained_state).
Proof.
  assert (NoDup (G half_saved_state)) as H1
    by (apply (bool_decide_unpack _); vm_compute; exact I).
  assert (Forall (λ k, is_Some (heap half_saved_state !! k)) (G half_saved_state))
    as H2 by (apply (bool_decide_unpack _); vm_compute; exact I).
  assert (files half_saved_state
            !! checkpoint_path (log_dir (config half_saved_state)) "Generator" "1"
          = Some (net_values (heap trained_state) (G trained_state))) as H3
    by (vm_compute; reflexivity).
  assert (length (net_values (heap trained_state) (G trained_state))
          = length (G half_saved_state)) as H4 by (vm_compute; reflexivity).
  assert (files half_saved_state
            !! checkpoint_path (log_dir (config half_saved_state)) "Discriminator" "1"
          = None) as H5 by (vm_compute; reflexivity).
  destruct (load_is_not_atomic (B := small_backend) "1" half_saved_state _
              H1 H2 H3 H4 H5) as (h & Hl & Hv & _).
  exists h. split; [exact Hl|]. split; [exact Hv|].
  vm_compute. discriminate.
Defined.

(** Save epoch ["1"] at construction, train one epoch, save epoch ["2"]:
    loading epoch ["1"] brings back the parameters of construction, which
    training had changed. *)
Lemma earlier_checkpoint_survives_witness :
  net_values (heap (train [batch4] (final (save "1") small_state)).2)
             (G (train [batch4] (final (save "1") small_state)).2)
    ≠ net_values (heap small_state) (G small_state) ∧
  ∃ s', load "1" (final (save "2") (train [batch4] (final (save "1") small_state)).2)
          = (Ok tt, s') ∧
        net_values (heap s') (G s') = net_values (heap small_state) (G small_state) ∧
        net_values (heap s') (D s') = net_values (heap small_state) (D small_state).
Proof.
  split; [vm_compute; discriminate|].
  assert ("1" ≠ "2") as Hne by discriminate.
  assert (NoDup (G small_state ++ D small_state)) as H1
    by (apply (bool_decide_unpack _); vm_compute; exact I).
  assert (Forall (λ k, is_Some (heap small_state !! k))
                 (G small_state ++ D small_state)) as H2
    by (apply (bool_decide_unpack _); vm_compute; exact I).
  exact (earlier_checkpoint_survives (B := small_backend) "1" "2" [batch4] small_state
           (train [batch4] (final (save "1") small_state)).2
           (train [batch4] (final (save "1") small_state)).1
           Hne H1 H2 (surjective_pairing _)).
Defined.
